(** * hub.js: key-value observation and the nested store, checked against
    [src/mixins/observable.js]

    The development embeds [hub.Observable] as functions on an explicit
    object state.  User code reached through a callback (observer methods,
    computed-property functions, the [propertyObserver] hook) is recorded in
    a trace with the arguments it receives; it is assumed not to call back
    into the object it is invoked on while it runs.  Counters are natural
    numbers (the source uses doubles, exact below 2^53). *)

From Stdlib Require Import Ascii String.
From stdpp Require Import gmap strings list fin_maps.

Set Default Proof Using "Type".
Open Scope string_scope.
Open Scope list_scope.

(** ** JavaScript values *)

(** The descriptor protocol of a computed property: a function carrying
    [isProperty] and the optional marks read by [get] and [set].  A mark that
    is absent reads as [undefined]; used as a property name it is the name
    ["undefined"]. *)
Record descriptor := Descriptor {
  fn : nat;
  isCacheable : bool;
  isVolatile : bool;
  cacheKey : option string;
  lastSetValueKey : option string;
  dependentKeys : list string
}.

Inductive value :=
| VUndefined
| VNull
| VBool (b : bool)
| VNum (n : Z)
| VStr (s : string)
| VObj (id : nat)
| VFunc (f : nat)
| VProp (d : descriptor).

#[global] Instance descriptor_eq_dec : EqDecision descriptor.
Proof. solve_decision. Defined.

#[global] Instance value_eq_dec : EqDecision value.
Proof. solve_decision. Defined.

(** [a === b] *)
Definition strict_eq (a b : value) : bool := bool_decide (a = b).

(** ToBoolean *)
Definition truthy (v : value) : bool :=
  match v with
  | VUndefined | VNull => false
  | VBool b => b
  | VNum n => negb (n =? 0)%Z
  | VStr s => negb (bool_decide (s = ""))
  | VObj _ | VFunc _ | VProp _ => true
  end.

(** [v && v.isProperty] *)
Definition as_property (v : value) : option descriptor :=
  match v with VProp d => Some d | _ => None end.

(** [typeof v === 'function'] *)
Definition callable (v : value) : bool :=
  match v with VFunc _ | VProp _ => true | _ => false end.

(** A property name read off a descriptor mark. *)
Definition jskey (k : option string) : string := default "undefined" k.

(** [v.cacheKey] and [v.lastSetValueKey] for an arbitrary value [v]. *)
Definition cacheKey_of (v : value) : string :=
  match v with VProp d => jskey (cacheKey d) | _ => "undefined" end.
Definition lastSetValueKey_of (v : value) : string :=
  match v with VProp d => jskey (lastSetValueKey d) | _ => "undefined" end.

(** ** hub.CoreSet *)

(** Modelled from the spec: [hub.CoreSet] (system/set.js is not part of the
    sources at hand).  An ordered set stored as an array-like: [add] appends
    an element that is not yet present, [pop] removes the last one, members
    are read by index and [length]. *)
Module CoreSet.
Definition create : list string := [].

Definition contains (k : string) (s : list string) : bool := bool_decide (k ∈ s).

Definition add (k : string) (s : list string) : list string :=
  if contains k s then s else s ++ [k].

Definition addEach (ks : list string) (s : list string) : list string :=
  foldl (fun acc k => add k acc) s ks.

Definition remove (k : string) (s : list string) : list string :=
  filter (fun x => x ≠ k) s.

Definition pop (s : list string) : option (string * list string) :=
  match reverse s with
  | [] => None
  | k :: r => Some (k, reverse r)
  end.
End CoreSet.

(** ** hub.ObserverSet *)

(** One member as [getMembers] returns it:
    [[target, method, context, lastNotifiedRevision]]. *)
Record member := Member {
  m_target : value;
  m_method : value;
  m_context : value;
  m_last : option nat
}.

#[global] Instance member_eq_dec : EqDecision member.
Proof. solve_decision. Defined.

(** Modelled from the spec: [hub.ObserverSet] (private/observer_set.js is not
    part of the sources at hand).  Unique [(target, method)] pairs; [add] is
    idempotent on the pair and overwrites the context; [getMembers] lists the
    members in insertion order. *)
Module ObserverSet.
Definition create : list member := [].

Definition same_pair (tg me : value) (m : member) : bool :=
  strict_eq (m_target m) tg && strict_eq (m_method m) me.

Fixpoint add (tg me ctx : value) (s : list member) : list member :=
  match s with
  | [] => [Member tg me ctx None]
  | m :: r =>
      if same_pair tg me m
      then Member tg me ctx (m_last m) :: r
      else m :: add tg me ctx r
  end.

Definition remove (tg me : value) (s : list member) : list member :=
  filter (fun m => same_pair tg me m = false) s.

Definition getMembers (s : list member) : list member := s.

(** [observers.targets <= 0] *)
Definition no_targets (s : list member) : bool :=
  match s with [] => true | _ => false end.

Definition pairs (s : list member) : list (value * value) :=
  map (fun m => (m_target m, m_method m)) s.
End ObserverSet.

(** ** The state of one observable object *)

(** What user code was invoked, in call order.  The first component of a
    [Fire] names the step of the fan-out that made the call. *)
Inductive phase := PMember | PLocal | PStar | PHook | PDidAdd | PDidRemove.

Inductive event :=
| Fire (ph : phase) (method thisArg : value) (args : list value)
| Compute (d : descriptor) (key : string) (arg : option value).

#[global] Instance phase_eq_dec : EqDecision phase.
Proof. solve_decision. Defined.

#[global] Instance event_eq_dec : EqDecision event.
Proof. solve_decision. Defined.

(** A chain observer as [addObserver] stores it for a dotted path.
    Modelled from the spec: [hub._hub_ChainObserver]
    (private/chain_observer.js is not part of the sources at hand); only the
    master target and method that [removeObserver] compares are kept. *)
Record chain := Chain {
  chain_path : string;
  masterTarget : value;
  masterMethod : value;
  chain_context : value
}.

(** The fields of the receiver that [hub.Observable] reads and writes.  User
    properties live in [props]; the bookkeeping fields are kept apart from
    them (user keys are assumed not to collide with the [_hub_kvo_*] and
    [_kvo_*] names). *)
Record obj := Obj {
  self : nat;
  props : gmap string value;
  hub_properties : option (list string);
  hub_observableInited : bool;
  kvo_cacheable : bool;
  kvo_cache : option (gmap string value);
  kvo_cachedep : option (gmap string (option (list descriptor)));
  kvo_dependents : option (gmap string (list string));
  kvo_changeLevel : nat;
  kvo_changes : option (list string);
  kvo_revision : nat;
  propertyRevision : nat;
  kvo_observers : gmap string (list member);
  kvo_local : gmap string (list string);
  kvo_observed_keys : option (list string);
  kvo_chains : gmap string (list (option chain));
  queue_pending : bool;
  trace : list event
}.

Definition with_props (f : gmap string value -> gmap string value) (o : obj) : obj :=
  Obj (self o) (f (props o)) (hub_properties o) (hub_observableInited o)
      (kvo_cacheable o) (kvo_cache o) (kvo_cachedep o) (kvo_dependents o)
      (kvo_changeLevel o) (kvo_changes o) (kvo_revision o) (propertyRevision o)
      (kvo_observers o) (kvo_local o) (kvo_observed_keys o) (kvo_chains o)
      (queue_pending o) (trace o).

Definition with_inited (b : bool) (o : obj) : obj :=
  Obj (self o) (props o) (hub_properties o) b
      (kvo_cacheable o) (kvo_cache o) (kvo_cachedep o) (kvo_dependents o)
      (kvo_changeLevel o) (kvo_changes o) (kvo_revision o) (propertyRevision o)
      (kvo_observers o) (kvo_local o) (kvo_observed_keys o) (kvo_chains o)
      (queue_pending o) (trace o).

Definition with_cacheable (b : bool) (o : obj) : obj :=
  Obj (self o) (props o) (hub_properties o) (hub_observableInited o)
      b (kvo_cache o) (kvo_cachedep o) (kvo_dependents o)
      (kvo_changeLevel o) (kvo_changes o) (kvo_revision o) (propertyRevision o)
      (kvo_observers o) (kvo_local o) (kvo_observed_keys o) (kvo_chains o)
      (queue_pending o) (trace o).

Definition with_cache (c : option (gmap string value)) (o : obj) : obj :=
  Obj (self o) (props o) (hub_properties o) (hub_observableInited o)
      (kvo_cacheable o) c (kvo_cachedep o) (kvo_dependents o)
      (kvo_changeLevel o) (kvo_changes o) (kvo_revision o) (propertyRevision o)
      (kvo_observers o) (kvo_local o) (kvo_observed_keys o) (kvo_chains o)
      (queue_pending o) (trace o).

Definition with_cachedep (c : option (gmap string (option (list descriptor))))
    (o : obj) : obj :=
  Obj (self o) (props o) (hub_properties o) (hub_observableInited o)
      (kvo_cacheable o) (kvo_cache o) c (kvo_dependents o)
      (kvo_changeLevel o) (kvo_changes o) (kvo_revision o) (propertyRevision o)
      (kvo_observers o) (kvo_local o) (kvo_observed_keys o) (kvo_chains o)
      (queue_pending o) (trace o).

Definition with_dependents (d : option (gmap string (list string))) (o : obj) : obj :=
  Obj (self o) (props o) (hub_properties o) (hub_observableInited o)
      (kvo_cacheable o) (kvo_cache o) (kvo_cachedep o) d
      (kvo_changeLevel o) (kvo_changes o) (kvo_revision o) (propertyRevision o)
      (kvo_observers o) (kvo_local o) (kvo_observed_keys o) (kvo_chains o)
      (queue_pending o) (trace o).

Definition with_changeLevel (n : nat) (o : obj) : obj :=
  Obj (self o) (props o) (hub_properties o) (hub_observableInited o)
      (kvo_cacheable o) (kvo_cache o) (kvo_cachedep o) (kvo_dependents o)
      n (kvo_changes o) (kvo_revision o) (propertyRevision o)
      (kvo_observers o) (kvo_local o) (kvo_observed_keys o) (kvo_chains o)
      (queue_pending o) (trace o).

Definition with_changes (c : option (list string)) (o : obj) : obj :=
  Obj (self o) (props o) (hub_properties o) (hub_observableInited o)
      (kvo_cacheable o) (kvo_cache o) (kvo_cachedep o) (kvo_dependents o)
      (kvo_changeLevel o) c (kvo_revision o) (propertyRevision o)
      (kvo_observers o) (kvo_local o) (kvo_observed_keys o) (kvo_chains o)
      (queue_pending o) (trace o).

Definition with_revision (n : nat) (o : obj) : obj :=
  Obj (self o) (props o) (hub_properties o) (hub_observableInited o)
      (kvo_cacheable o) (kvo_cache o) (kvo_cachedep o) (kvo_dependents o)
      (kvo_changeLevel o) (kvo_changes o) n (propertyRevision o)
      (kvo_observers o) (kvo_local o) (kvo_observed_keys o) (kvo_chains o)
      (queue_pending o) (trace o).

Definition with_propertyRevision (n : nat) (o : obj) : obj :=
  Obj (self o) (props o) (hub_properties o) (hub_observableInited o)
      (kvo_cacheable o) (kvo_cache o) (kvo_cachedep o) (kvo_dependents o)
      (kvo_changeLevel o) (kvo_changes o) (kvo_revision o) n
      (kvo_observers o) (kvo_local o) (kvo_observed_keys o) (kvo_chains o)
      (queue_pending o) (trace o).

Definition with_observers (f : gmap string (list member) -> gmap string (list member))
    (o : obj) : obj :=
  Obj (self o) (props o) (hub_properties o) (hub_observableInited o)
      (kvo_cacheable o) (kvo_cache o) (kvo_cachedep o) (kvo_dependents o)
      (kvo_changeLevel o) (kvo_changes o) (kvo_revision o) (propertyRevision o)
      (f (kvo_observers o)) (kvo_local o) (kvo_observed_keys o) (kvo_chains o)
      (queue_pending o) (trace o).

Definition with_observed_keys (ks : option (list string)) (o : obj) : obj :=
  Obj (self o) (props o) (hub_properties o) (hub_observableInited o)
      (kvo_cacheable o) (kvo_cache o) (kvo_cachedep o) (kvo_dependents o)
      (kvo_changeLevel o) (kvo_changes o) (kvo_revision o) (propertyRevision o)
      (kvo_observers o) (kvo_local o) ks (kvo_chains o)
      (queue_pending o) (trace o).

Definition with_chains (f : gmap string (list (option chain)) ->
                            gmap string (list (option chain))) (o : obj) : obj :=
  Obj (self o) (props o) (hub_properties o) (hub_observableInited o)
      (kvo_cacheable o) (kvo_cache o) (kvo_cachedep o) (kvo_dependents o)
      (kvo_changeLevel o) (kvo_changes o) (kvo_revision o) (propertyRevision o)
      (kvo_observers o) (kvo_local o) (kvo_observed_keys o) (f (kvo_chains o))
      (queue_pending o) (trace o).

Definition with_queue_pending (b : bool) (o : obj) : obj :=
  Obj (self o) (props o) (hub_properties o) (hub_observableInited o)
      (kvo_cacheable o) (kvo_cache o) (kvo_cachedep o) (kvo_dependents o)
      (kvo_changeLevel o) (kvo_changes o) (kvo_revision o) (propertyRevision o)
      (kvo_observers o) (kvo_local o) (kvo_observed_keys o) (kvo_chains o)
      b (trace o).

(** Record one invocation of user code. *)
Definition emit (e : event) (o : obj) : obj :=
  Obj (self o) (props o) (hub_properties o) (hub_observableInited o)
      (kvo_cacheable o) (kvo_cache o) (kvo_cachedep o) (kvo_dependents o)
      (kvo_changeLevel o) (kvo_changes o) (kvo_revision o) (propertyRevision o)
      (kvo_observers o) (kvo_local o) (kvo_observed_keys o) (kvo_chains o)
      (queue_pending o) (trace o ++ [e]).

(** [this[key]] *)
Definition prop (o : obj) (key : string) : value :=
  default VUndefined (props o !! key).

(** [cache[k]] *)
Definition cache_get (c : gmap string value) (k : string) : value :=
  default VUndefined (c !! k).

(** How a call ends.  [Diverge] stands for a run that does not come back
    within the recursion budget. *)
Inductive outcome :=
| Return (o : obj)
| Throw (exn : string) (o : obj)
| Diverge.

Definition bind (r : outcome) (k : obj -> outcome) : outcome :=
  match r with
  | Return o => k o
  | Throw e o => Throw e o
  | Diverge => Diverge
  end.

Notation "'do' o <- r ; k" := (bind r (fun o => k))
  (at level 10, o name, r at level 100, k at level 200).

(** [key.indexOf(c) >= 0] and [key.indexOf(c) === 0] *)
Fixpoint has_char (c : ascii) (s : string) : bool :=
  match s with
  | EmptyString => false
  | String a r => bool_decide (a = c) || has_char c r
  end.

Definition starts_with_char (c : ascii) (s : string) : bool :=
  match s with
  | String a _ => bool_decide (a = c)
  | EmptyString => false
  end.

(** A key used as a condition: the empty string is falsy, and so is a
    missing argument. *)
Definition key_truthy (key : option string) : bool :=
  match key with
  | Some k => negb (bool_decide (k = ""))
  | None => false
  end.

(** [changes && changes.length > 0] *)
Definition has_pending (o : obj) : bool :=
  match kvo_changes o with
  | Some (_ :: _) => true
  | _ => false
  end.

(** The revision as it is handed to an observer. *)
Definition rev_value (rev : nat) : value := VNum (Z.of_nat rev).

(** ** hub.Observable *)

Section Observable.

(** What a computed-property function returns, from its identity, the
    receiver's properties, the key and the value passed ([undefined] when
    it is called as a getter). *)
Variable body : nat -> gmap string value -> string -> value -> value.

(** Budget for the recursion of [_hub_kvo_addCachedDependents] and for the
    loops of [_hub_notifyPropertyObservers]. *)
Variable fuel : nat.

(** [automaticallyNotifiesObserversFor] *)
Definition automaticallyNotifiesObserversFor (key : string) : bool := true.

(** [func.call(this, key)] and [func.call(this, key, value)] *)
Definition call_property (d : descriptor) (key : string) (arg : option value)
    (o : obj) : value * obj :=
  (body (fn d) (props o) key (default VUndefined arg),
   emit (Compute d key arg) o).

(** [unknownProperty] *)
Definition unknownProperty (key : string) (v : value) (o : obj) : value * obj :=
  (v, if negb (strict_eq v VUndefined) then with_props (<[key := v]>) o else o).

(** [get] *)
Definition get (key : string) (o : obj) : value * obj :=
  let ret := prop o key in
  if strict_eq ret VUndefined then unknownProperty key VUndefined o
  else match as_property ret with
       | Some d =>
           if isCacheable d then
             let cache := default ∅ (kvo_cache o) in
             let o1 := with_cache (Some cache) o in
             let ck := jskey (cacheKey d) in
             if negb (strict_eq (cache_get cache ck) VUndefined)
             then (cache_get cache ck, o1)
             else
               let '(v, o2) := call_property d key None o1 in
               (v, with_cache (Some (<[ck := v]> cache)) o2)
           else call_property d key None o
       | None => (ret, o)
       end.

(** [registerDependentKey], called with an array of keys *)
Definition registerDependentKey (key : string) (deps : list string) (o : obj) : obj :=
  let dependents := default ∅ (kvo_dependents o) in
  let dependents' :=
    foldl (fun (m : gmap string (list string)) dep =>
             <[dep := default [] (m !! dep) ++ [key]]> m)
          dependents (reverse deps) in
  with_dependents (Some dependents') o.

(** The loop [while(--idx >= 0)] of [_hub_kvo_addCachedDependents] over
    the keys, last one first; [recur] is the recursive call on the
    dependents of a computed property. *)
Fixpoint addCachedDependents_loop
    (recur : list descriptor -> list string -> option (list descriptor))
    (this : obj) (dependents : gmap string (list string))
    (ks : list string) (queue : list descriptor) : option (list descriptor) :=
  match ks with
  | [] => Some queue
  | key :: ks' =>
      match as_property (prop this key) with
      | Some d =>
          let queue1 := if isCacheable d then queue ++ [d] else queue in
          match dependents !! key with
          | Some (dep :: deps) =>
              match recur queue1 (dep :: deps) with
              | Some q => addCachedDependents_loop recur this dependents ks' q
              | None => None
              end
          | _ => addCachedDependents_loop recur this dependents ks' queue1
          end
      | None => addCachedDependents_loop recur this dependents ks' queue
      end
  end.

(** [_hub_kvo_addCachedDependents].  The [seen] set of the source is
    written and never read, so it does not appear here; the first argument
    bounds the depth of the recursion. *)
Fixpoint addCachedDependents (n : nat) (this : obj)
    (dependents : gmap string (list string))
    (queue : list descriptor) (keys : list string) : option (list descriptor) :=
  match n with
  | 0 => None
  | S n' =>
      addCachedDependents_loop (addCachedDependents n' this dependents)
        this dependents (reverse keys) queue
  end.

(** [_hub_kvo_computeCachedDependentsFor] *)
Definition computeCachedDependentsFor (key : string) (o : obj)
    : option (option (list descriptor) * obj) :=
  let cached := default ∅ (kvo_cachedep o) in
  let keys := match kvo_dependents o with
              | Some dependents => dependents !! key
              | None => None
              end in
  match keys with
  | None | Some [] =>
      Some (None, with_cachedep (Some (<[key := None]> cached)) o)
  | Some keys =>
      match addCachedDependents fuel o (default ∅ (kvo_dependents o)) [] keys with
      | None => None
      | Some [] => Some (None, with_cachedep (Some (<[key := None]> cached)) o)
      | Some queue =>
          Some (Some queue, with_cachedep (Some (<[key := Some queue]> cached)) o)
      end
  end.

(** [cache[dfunc.cacheKey] = cache[dfunc.lastSetValueKey] = undefined] *)
Definition clear_slots (ck lk : string) (c : gmap string value) : gmap string value :=
  <[ck := VUndefined]> (<[lk := VUndefined]> c).

(** The loop [while(--idx>=0)] over the cached dependents. *)
Definition clear_cached (cachedep : list descriptor) (c : gmap string value)
    : gmap string value :=
  foldl (fun c dfunc => clear_slots (jskey (cacheKey dfunc))
                                    (jskey (lastSetValueKey dfunc)) c)
        c (reverse cachedep).

(** The block shared by [set] and [propertyDidChange]: look the cached
    dependents of [key] up, compute them when there is no memo, and clear
    their cache slots.  [cache] is the object [_hub_kvo_cache] refers to. *)
Definition clear_dependents (key : string) (cache : gmap string value) (o : obj)
    : outcome :=
  let memo := match kvo_cachedep o with
              | Some cd => cd !! key
              | None => None
              end in
  let computed := match memo with
                  | Some cachedep => Some (cachedep, o)
                  | None => computeCachedDependentsFor key o
                  end in
  match computed with
  | None => Diverge
  | Some (Some cachedep, o1) =>
      Return (with_cache (Some (clear_cached cachedep cache)) o1)
  | Some (None, o1) => Return o1
  end.

(** [initObservable], for an object that declares no observers of its own
    ([_hub_observers] is absent): the flag and the computed properties. *)
Definition initObservable (o : obj) : obj :=
  if hub_observableInited o then o
  else
    let o := with_inited true o in
    match hub_properties o with
    | None => o
    | Some keys =>
        foldl (fun o key =>
                 let v := prop o key in
                 if truthy v then
                   match as_property v with
                   | Some d =>
                       let o := if isCacheable d then with_cacheable true o else o in
                       match dependentKeys d with
                       | [] => o
                       | deps => registerDependentKey key deps o
                       end
                   | None => o
                   end
                 else o)
              o keys
    end.

(** [method.call(thisArg, args...)]: a value that is not a function cannot
    be called. *)
Definition invoke (ph : phase) (method thisArg : value) (args : list value)
    (o : obj) : outcome :=
  if callable method then Return (emit (Fire ph method thisArg args) o)
  else Throw "TypeError" o.

(** *** _hub_notifyPropertyObservers *)

(** The arguments an observer of the ObserverSet receives: with a context
    [(this, key, null, context, rev)], without [(this, key, null, rev)]. *)
Definition observer_args (this : obj) (key : string) (context : value) (rev : nat)
    : list value :=
  if negb (strict_eq context VUndefined)
  then [VObj (self this); VStr key; VNull; context; rev_value rev]
  else [VObj (self this); VStr key; VNull; rev_value rev].

(** [member[0] || this] *)
Definition target_or_this (this : obj) (m : member) : value :=
  if truthy (m_target m) then m_target m else VObj (self this).

(** [member[3] = rev], in place in the member array of the set of [key]. *)
Definition mark_notified (key : string) (memberLoc rev : nat) (o : obj) : obj :=
  with_observers
    (alter (alter (fun m => Member (m_target m) (m_method m) (m_context m) (Some rev))
                  memberLoc) key) o.

(** The loop over [observers.getMembers()] of the changed key: a member
    whose slot holds [rev] is skipped, the others are marked and called. *)
Fixpoint notify_members (key : string) (rev : nat) (locs : list nat) (o : obj)
    : outcome :=
  match locs with
  | [] => Return o
  | memberLoc :: rest =>
      match default [] (kvo_observers o !! key) !! memberLoc with
      | None => Throw "TypeError" o
      | Some member =>
          if bool_decide (m_last member = Some rev)
          then notify_members key rev rest o
          else
            let target := target_or_this o member in
            let o1 := mark_notified key memberLoc rev o in
            do o2 <- invoke PMember (m_method member) target
                       (observer_args o key (m_context member) rev) o1;
            notify_members key rev rest o2
      end
  end.

(** The loop over the local observers of the changed key: method names,
    resolved on the receiver when they fire. *)
Fixpoint notify_locals (key : string) (rev : nat) (names : list string) (o : obj)
    : outcome :=
  match names with
  | [] => Return o
  | name :: rest =>
      let method := prop o name in
      if truthy method then
        do o1 <- invoke PLocal method (VObj (self o))
                   [VObj (self o); VStr key; VNull; rev_value rev] o;
        notify_locals key rev rest o1
      else notify_locals key rev rest o
  end.

(** The loop over the members of the star observers. *)
Fixpoint notify_star (key : string) (rev : nat) (members : list member) (o : obj)
    : outcome :=
  match members with
  | [] => Return o
  | member :: rest =>
      do o1 <- invoke PStar (m_method member) (target_or_this o member)
                 (observer_args o key (m_context member) rev) o;
      notify_star key rev rest o1
  end.

(** The body of [while(changes.length > 0)] for the key just popped. *)
Definition notify_key (starObservers : bool) (rev : nat) (key : string) (o : obj)
    : outcome :=
  do o1 <- match kvo_observers o !! key with
           | Some observers =>
               notify_members key rev
                 (seq 0 (length (ObserverSet.getMembers observers))) o
           | None => Return o
           end;
  do o2 <- match kvo_local o1 !! key with
           | Some members => notify_locals key rev members o1
           | None => Return o1
           end;
  do o3 <- (if starObservers && negb (bool_decide (key = "*"))
            then notify_star key rev
                   (ObserverSet.getMembers (default [] (kvo_observers o2 !! "*"))) o2
            else Return o2);
  if truthy (prop o3 "propertyObserver")
  then invoke PHook (prop o3 "propertyObserver") (VObj (self o3))
         [VObj (self o3); VStr key; rev_value rev] o3
  else Return o3.

(** [changes.pop()] until the set is empty: the keys in the order they are
    handed out. *)
Definition pop_order (changes : list string) : list string := reverse changes.

Fixpoint notify_keys (starObservers : bool) (rev : nat) (keys : list string) (o : obj)
    : outcome :=
  match keys with
  | [] => Return o
  | key :: rest =>
      do o1 <- notify_key starObservers rev key o;
      notify_keys starObservers rev rest o1
  end.

(** The inner [while(--loc >= 0)] of the dependent-key pass: add the
    dependent key, and clear what is cached for it. *)
Definition add_dependent (st : list string * obj) (key : string) : list string * obj :=
  let '(changes, o) := st in
  let changes := CoreSet.add key changes in
  let func := prop o key in
  if truthy func then
    let o := with_props (<[cacheKey_of func := VUndefined]>) o in
    (changes,
     with_cache (Some (clear_slots (cacheKey_of func) (lastSetValueKey_of func)
                                   (default ∅ (kvo_cache o)))) o)
  else (changes, o).

(** The pass [for(idx=0;idx<changes.length;idx++)] over the growing set. *)
Fixpoint expand (n : nat) (dependents : gmap string (list string)) (idx : nat)
    (changes : list string) (o : obj) : option (list string * obj) :=
  match n with
  | 0 => None
  | S n' =>
      match changes !! idx with
      | None => Some (changes, o)
      | Some key =>
          let '(changes', o') :=
            match dependents !! key with
            | Some (k :: ks) =>
                let o := with_cache (Some (default ∅ (kvo_cache o))) o in
                foldl add_dependent (changes, o) (reverse (k :: ks))
            | _ => (changes, o)
            end in
          expand n' dependents (S idx) changes' o'
      end
  end.

(** The head of one turn of the outer [while]: a new revision, the changes
    swapped out, the key passed in added (every observed key for ['*']). *)
Definition begin_pass (key : option string) (o : obj) : list string * obj :=
  let changes := default CoreSet.create (kvo_changes o) in
  let o := with_propertyRevision (S (propertyRevision o)) o in
  let o := with_changes None o in
  if bool_decide (key = Some "*") then
    let observed := default CoreSet.create (kvo_observed_keys o) in
    (CoreSet.addEach observed (CoreSet.add "*" changes),
     with_observed_keys (Some observed) o)
  else match key with
       | Some k => if key_truthy key then (CoreSet.add k changes, o) else (changes, o)
       | None => (changes, o)
       end.

(** "Now go through the set and add all dependent keys". *)
Definition add_dependents (st : list string * obj) : option (list string * obj) :=
  match kvo_dependents (snd st) with
  | Some dependents => expand fuel dependents 0 (fst st) (snd st)
  | None => Some st
  end.

(** One turn of the outer [while]. *)
Definition notify_pass (starObservers : bool) (key : option string) (o : obj)
    : outcome :=
  match add_dependents (begin_pass key o) with
  | None => Diverge
  | Some (changes, o') =>
      notify_keys starObservers (propertyRevision o') (pop_order changes) o'
  end.

(** [while(((changes = this._hub_kvo_changes) && (changes.length > 0)) || key)] *)
Fixpoint notify_loop (n : nat) (starObservers : bool) (key : option string) (o : obj)
    : outcome :=
  match n with
  | 0 => Diverge
  | S n' =>
      if has_pending o || key_truthy key then
        do o1 <- notify_pass starObservers key o;
        notify_loop n' starObservers None o1
      else Return o
  end.

(** [_hub_notifyPropertyObservers].  [hub.ObserverQueue.flush(this)] hooks
    deferred path observers up; none are pending on the object here. *)
Definition notifyPropertyObservers (key : option string) (o : obj) : outcome :=
  let o := if hub_observableInited o then o else initObservable o in
  let starObservers := bool_decide (is_Some (kvo_observers o !! "*")) in
  let o := with_changeLevel (kvo_changeLevel o + 1) o in
  do o1 <- notify_loop fuel starObservers key o;
  Return (with_changeLevel (Nat.pred (kvo_changeLevel o1)) o1).

(** *** Property changes *)

(** [hub.ObserverQueue.isObservingSuspended], as the call finds it. *)
Variable suspended : bool.

(** [propertyWillChange] *)
Definition propertyWillChange (key : string) (o : obj) : obj := o.

(** [propertyDidChange] *)
Definition propertyDidChange (key : string) (value : value) (keepCache : bool)
    (o : obj) : outcome :=
  let o := with_revision (kvo_revision o + 1) o in
  let level := kvo_changeLevel o in
  do o1 <- match kvo_cache o with
           | Some cache =>
               if kvo_cacheable o then
                 let func := prop o key in
                 let cache :=
                   if negb keepCache then
                     match as_property func with
                     | Some d => clear_slots (jskey (cacheKey d))
                                             (jskey (lastSetValueKey d)) cache
                     | None => cache
                     end
                   else cache in
                 clear_dependents key cache (with_cache (Some cache) o)
               else Return o
           | None => Return o
           end;
  if bool_decide (0 < level) || suspended then
    let changes := default CoreSet.create (kvo_changes o1) in
    let o2 := with_changes (Some (CoreSet.add key changes)) o1 in
    Return (if suspended then with_queue_pending true o2 else o2)
  else notifyPropertyObservers (Some key) o1.

(** The first block of [set]: when cacheable properties are in use and a
    cache exists, the caches of the cached dependents of [key] are
    cleared. *)
Definition invalidate_dependents (key : string) (o : obj) : outcome :=
  match kvo_cache o with
  | Some cache =>
      if kvo_cacheable o then clear_dependents key cache o else Return o
  | None => Return o
  end.

(** The descriptor's last-set value, as [set] reads it: nothing when there
    is no cache yet. *)
Definition last_set_value (d : descriptor) (o : obj) : option value :=
  match kvo_cache o with
  | Some cache => Some (cache_get cache (jskey (lastSetValueKey d)))
  | None => None
  end.

(** [func.isVolatile || !cache || (cache[func.lastSetValueKey] !== value)] *)
Definition must_call (d : descriptor) (value : value) (o : obj) : bool :=
  isVolatile d || negb (bool_decide (last_set_value d o = Some value)).

(** The second block of [set], "set the value", for the value [func] the
    key held when [set] was entered. *)
Definition assign (func : value) (key : string) (value : value) (o1 : obj) : outcome :=
  let notify := automaticallyNotifiesObserversFor key in
  match as_property func with
  | Some d =>
      if must_call d value o1 then
        let cache := <[jskey (lastSetValueKey d) := value]> (default ∅ (kvo_cache o1)) in
        let o2 := with_cache (Some cache) o1 in
        let o3 := if notify then propertyWillChange key o2 else o2 in
        let '(ret, o4) := call_property d key (Some value) o3 in
        let o5 := if isCacheable d
                  then with_cache (Some (<[jskey (cacheKey d) := ret]> cache)) o4
                  else o4 in
        if notify then propertyDidChange key ret true o5 else Return o5
      else Return o1
  | None =>
      if strict_eq func VUndefined then
        let o2 := if notify then propertyWillChange key o1 else o1 in
        let '(_, o3) := unknownProperty key value o2 in
        if notify then propertyDidChange key value false o3 else Return o3
      else if negb (strict_eq (prop o1 key) value) then
        let o2 := if notify then propertyWillChange key o1 else o1 in
        let o3 := with_props (<[key := value]>) o2 in
        if notify then propertyDidChange key value false o3 else Return o3
      else Return o1
  end.

(** [set] *)
Definition set (key : string) (value : value) (o : obj) : outcome :=
  let func := prop o key in
  do o1 <- invalidate_dependents key o;
  assign func key value o1.

(** [beginPropertyChanges] *)
Definition beginPropertyChanges (o : obj) : obj :=
  with_changeLevel (kvo_changeLevel o + 1) o.

(** [endPropertyChanges] *)
Definition endPropertyChanges (o : obj) : outcome :=
  let o := with_changeLevel (Nat.pred (kvo_changeLevel o)) o in
  let level := kvo_changeLevel o in
  if bool_decide (level <= 0) && has_pending o && negb suspended
  then notifyPropertyObservers None o
  else Return o.

(** [setIfChanged] *)
Definition setIfChanged (key : string) (value : value) (o : obj) : outcome :=
  let '(current, o1) := get key o in
  if negb (strict_eq current value) then set key value o1 else Return o1.

(** [notifyPropertyChange] *)
Definition notifyPropertyChange (key : string) (value : value) (o : obj) : outcome :=
  propertyDidChange key value false (propertyWillChange key o).

(** [allPropertiesDidChange] *)
Definition allPropertiesDidChange (o : obj) : outcome :=
  notifyPropertyObservers (Some "*") (with_cache None o).

End Observable.

(** *** Observers *)

Section Observers.

Variable body : nat -> gmap string value -> string -> value -> value.

(** The properties of the other objects of the heap, by identity: what
    [target[method]] finds when the target is not the receiver. *)
Variable others : gmap nat (gmap string value).

(** [target[name]]; a value that is not an object of the heap has no
    property of its own. *)
Definition property_of (this : obj) (target : value) (name : string) : value :=
  match target with
  | VObj id =>
      if bool_decide (id = self this) then prop this name
      else default VUndefined (others !! id ≫= fun ps => ps !! name)
  | _ => VUndefined
  end.

(** The first lines of [addObserver] and [removeObserver]: a function
    passed as target is the method, a missing target is the receiver, a
    method name is looked up on the target.  The result is the target and
    the method the call goes on with. *)
Definition normalize (this : obj) (target method : value) : value * value :=
  let '(target, method) :=
    if strict_eq method VUndefined then (VObj (self this), target)
    else (target, method) in
  let target := if negb (truthy target) then VObj (self this) else target in
  let method := match method with
                | VStr name => property_of this target name
                | _ => method
                end in
  (target, method).

Definition no_method : string := "You must pass a method to addObserver()".

(** [_hub_kvo_for('_kvo_observed_keys', hub.CoreSet)] *)
Definition observed_keys_for (o : obj) : list string :=
  default CoreSet.create (kvo_observed_keys o).

(** [if (target === this) target = null] *)
Definition null_if_this (this : obj) (target : value) : value :=
  if strict_eq target (VObj (self this)) then VNull else target.

(** [addObserver] *)
Definition addObserver (key : string) (target method context : value) (o : obj)
    : outcome :=
  let '(target, method) := normalize o target method in
  if negb (truthy method) then Throw no_method o
  else
      let '(target, o1) :=
        if has_char "." key then
          let chain := Chain key target method context in
          (target,
           with_chains (fun cs => <[key := default [] (cs !! key) ++ [Some chain]]> cs) o)
        else
          let o := if strict_eq (prop o key) VUndefined && starts_with_char "@" key
                   then snd (get body key o) else o in
          let target := null_if_this o target in
          let o := with_observers
                     (fun os => <[key := ObserverSet.add target method context
                                           (default ObserverSet.create (os !! key))]> os) o in
          (target,
           with_observed_keys (Some (CoreSet.add key (observed_keys_for o))) o) in
      if truthy (prop o1 "didAddObserver")
      then invoke PDidAdd (prop o1 "didAddObserver") (VObj (self o1))
             [VStr key; target; method] o1
      else Return o1.

(** [chains[idx] = chain.destroyChain()] for the chains of this master. *)
Definition destroy_matching (target method : value) (c : option chain) : option chain :=
  match c with
  | Some ch =>
      if strict_eq (masterTarget ch) target && strict_eq (masterMethod ch) method
      then None else Some ch
  | None => None
  end.

(** [removeObserver] *)
Definition removeObserver (key : string) (target method : value) (o : obj) : outcome :=
  let '(target, method) := normalize o target method in
  if negb (truthy method) then Throw no_method o
  else
      let '(target, o1) :=
        if has_char "." key then
          (target,
           match kvo_chains o !! key with
           | Some chains =>
               with_chains (<[key := map (destroy_matching target method) chains]>) o
           | None => o
           end)
        else
          let target := null_if_this o target in
          (target,
           match kvo_observers o !! key with
           | Some observers =>
               let observers := ObserverSet.remove target method observers in
               let o := with_observers (<[key := observers]>) o in
               if ObserverSet.no_targets observers
               then with_observed_keys
                      (Some (CoreSet.remove key (observed_keys_for o))) o
               else o
           | None => o
           end) in
      if truthy (prop o1 "didRemoveObserver")
      then invoke PDidRemove (prop o1 "didRemoveObserver") (VObj (self o1))
             [VStr key; target; method] o1
      else Return o1.

(** [hasObserverFor] *)
Definition hasObserverFor (key : string) (o : obj) : bool :=
  match kvo_local o !! key with
  | Some (_ :: _) => true
  | _ =>
      match kvo_observers o !! key with
      | Some (_ :: _) => true
      | _ => false
      end
  end.

(** What is registered on the object: the observer sets, the observed
    keys and the chains. *)
Definition registrations (o : obj)
    : gmap string (list member) * option (list string) * gmap string (list (option chain)) :=
  (kvo_observers o, kvo_observed_keys o, kvo_chains o).

(** *** Sequences of calls *)

Inductive op :=
| OGet (key : string)
| OSet (key : string) (v : value)
| OSetIfChanged (key : string) (v : value)
| OBeginPropertyChanges
| OEndPropertyChanges
| OPropertyWillChange (key : string)
| OPropertyDidChange (key : string) (v : value) (keepCache : bool)
| ONotifyPropertyChange (key : string) (v : value)
| OAllPropertiesDidChange
| ORegisterDependentKey (key : string) (deps : list string)
| OInitObservable
| OAddObserver (key : string) (target method context : value)
| ORemoveObserver (key : string) (target method : value).

Variable fuel : nat.

(** One call on the object; [suspended] is the state of the queue the
    call finds. *)
Definition run_op (suspended : bool) (c : op) (o : obj) : outcome :=
  match c with
  | OGet key => Return (snd (get body key o))
  | OSet key v => set body fuel suspended key v o
  | OSetIfChanged key v => setIfChanged body fuel suspended key v o
  | OBeginPropertyChanges => Return (beginPropertyChanges o)
  | OEndPropertyChanges => endPropertyChanges fuel suspended o
  | OPropertyWillChange key => Return (propertyWillChange key o)
  | OPropertyDidChange key v keep => propertyDidChange fuel suspended key v keep o
  | ONotifyPropertyChange key v => notifyPropertyChange fuel suspended key v o
  | OAllPropertiesDidChange => allPropertiesDidChange fuel o
  | ORegisterDependentKey key deps => Return (registerDependentKey key deps o)
  | OInitObservable => Return (initObservable o)
  | OAddObserver key target method context => addObserver key target method context o
  | ORemoveObserver key target method => removeObserver key target method o
  end.

(** A script runs until a call throws. *)
Fixpoint run_ops (cs : list (bool * op)) (o : obj) : outcome :=
  match cs with
  | [] => Return o
  | (suspended, c) :: rest =>
      do o1 <- run_op suspended c o;
      run_ops rest o1
  end.

End Observers.

(** ** hub.Store and its editing contexts *)

Module Store.

(** A data hash: the attributes of one record. *)
Abbreviation hash := (gmap string value).

(** Modelled from the spec: the record statuses ([hub.Record], in
    records/record.js, is not part of the sources at hand). *)
Inductive status :=
| EMPTY | READY_CLEAN | READY_NEW | READY_DIRTY
| DESTROYED_CLEAN | DESTROYED_DIRTY | BUSY (kind : nat) | ERROR.

Inductive editState := INHERITED | LOCKED | EDITABLE.

#[global] Instance status_eq_dec : EqDecision status.
Proof. solve_decision. Defined.

#[global] Instance editState_eq_dec : EqDecision editState.
Proof. solve_decision. Defined.

(** Modelled from the spec: a store (system/store.js, mixins/child_store.js
    and system/editing_context.js are not part of the sources at hand).
    The arrays are indexed by StoreKey; an editing context has a parent and
    shadows only the StoreKeys in [touched]; [editables] is absent after it
    has been cleared. *)
Record context := Context {
  parentStore : option nat;
  dataHashes : gmap nat hash;
  statuses : gmap nat status;
  revisions : gmap nat nat;
  touched : gset nat;
  editables : option (gset nat)
}.

(** The stores of the process, by identity; an editing context is created
    after its parent, so its identity is the larger one. *)
Abbreviation world := (list context).

Definition create : context := Context None ∅ ∅ ∅ ∅ None.

Definition is_editable (c : context) (sk : nat) : bool :=
  match editables c with
  | Some es => bool_decide (sk ∈ es)
  | None => false
  end.

(** Modelled from the spec: [storeKeyEditState].  A root store shares
    nothing with a parent, so a StoreKey it does not edit is [LOCKED]; in an
    editing context a StoreKey that was never touched is [INHERITED]. *)
Definition storeKeyEditState (c : context) (sk : nat) : editState :=
  if is_editable c sk then EDITABLE
  else match parentStore c with
       | None => LOCKED
       | Some _ => if bool_decide (sk ∈ touched c) then LOCKED else INHERITED
       end.

(** [store.storeKeyEditState(sk)] for the store [id] of the world. *)
Definition editStateOf (w : list context) (id sk : nat) : option editState :=
  (fun c => storeKeyEditState c sk) <$> w !! id.

(** Modelled from the spec: an [INHERITED] StoreKey resolves to the nearest
    ancestor where it is [LOCKED] or [EDITABLE].  [n] bounds the number of
    contexts visited. *)
Fixpoint owner (n : nat) (w : world) (id sk : nat) : option context :=
  match n with
  | 0 => None
  | S n' =>
      match w !! id with
      | None => None
      | Some c =>
          match storeKeyEditState c sk with
          | INHERITED =>
              match parentStore c with
              | Some p => owner n' w p sk
              | None => None
              end
          | _ => Some c
          end
      end
  end.

(** The context whose arrays answer for [sk] when read from [id]. *)
Definition resolve (w : world) (id sk : nat) : option context := owner (S id) w id sk.

(** [store.revisions[sk]] and [readStatus], read through the parents. *)
Definition revisionOf (w : world) (id sk : nat) : option nat :=
  resolve w id sk ≫= fun c => revisions c !! sk.

Definition readStatus (w : world) (id sk : nat) : option status :=
  resolve w id sk ≫= fun c => statuses c !! sk.

(** What the context sees for [sk] without touching it. *)
Definition peekDataHash (w : world) (id sk : nat) : option hash :=
  resolve w id sk ≫= fun c => dataHashes c !! sk.

Definition put {A} (sk : nat) (x : option A) (m : gmap nat A) : gmap nat A :=
  match x with
  | Some a => <[sk := a]> m
  | None => delete sk m
  end.

(** The context takes its own entries for [sk]: the hash, status and
    revision it sees now. *)
Definition snapshot (w : world) (id sk : nat) (c : context) : context :=
  Context (parentStore c)
          (put sk (peekDataHash w id sk) (dataHashes c))
          (put sk (readStatus w id sk) (statuses c))
          (put sk (revisionOf w id sk) (revisions c))
          ({[sk]} ∪ touched c)
          (editables c).

Definition mark_editable (sk : nat) (c : context) : context :=
  Context (parentStore c) (dataHashes c) (statuses c) (revisions c)
          ({[sk]} ∪ touched c)
          (Some ({[sk]} ∪ default ∅ (editables c))).

(** Modelled from the spec: [readDataHash].  In [INHERITED] it returns the
    parent's current hash and moves to [LOCKED], the revision snapshotted;
    otherwise it returns the context's own hash. *)
Definition readDataHash (w : world) (id sk : nat) : option hash * world :=
  match w !! id with
  | None => (None, w)
  | Some c =>
      match storeKeyEditState c sk with
      | INHERITED => (peekDataHash w id sk, <[id := snapshot w id sk c]> w)
      | _ => (dataHashes c !! sk, w)
      end
  end.

(** Modelled from the spec: [readEditableDataHash].  From [LOCKED] or
    [INHERITED] the context makes its own copy of the hash and records the
    StoreKey as editable. *)
Definition readEditableDataHash (w : world) (id sk : nat) : option hash * world :=
  match w !! id with
  | None => (None, w)
  | Some c =>
      match storeKeyEditState c sk with
      | EDITABLE => (dataHashes c !! sk, w)
      | _ => (peekDataHash w id sk,
              <[id := mark_editable sk (snapshot w id sk c)]> w)
      end
  end.

(** Modelled from the spec: [writeDataHash].  It sets the private hash,
    moves to [EDITABLE], updates the status when one is given, keeps the
    revision, and returns the receiver. *)
Definition writeDataHash (w : world) (id sk : nat) (h : hash) (st : option status)
    : nat * world :=
  match w !! id with
  | None => (id, w)
  | Some c =>
      let c1 := snapshot w id sk c in
      let c2 := Context (parentStore c1)
                        (<[sk := h]> (dataHashes c1))
                        (match st with
                         | Some s => <[sk := s]> (statuses c1)
                         | None => statuses c1
                         end)
                        (revisions c1) (touched c1) (editables c1) in
      (id, <[id := mark_editable sk c2]> w)
  end.

(** Modelled from the spec: [createEditingContext]. *)
Definition createEditingContext (w : world) (parent : nat) : nat * world :=
  (length w, w ++ [Context (Some parent) ∅ ∅ ∅ ∅ None]).

(** [store.editables = null], as the tests do to put a root store back in
    locked mode. *)
Definition clear_editables (w : world) (id : nat) : world :=
  match w !! id with
  | None => w
  | Some c =>
      <[id := Context (parentStore c) (dataHashes c) (statuses c) (revisions c)
                      (touched c) None]> w
  end.

End Store.

(** ** Vocabulary of the statements *)

Section Vocabulary.
Variable body : nat -> gmap string value -> string -> value -> value.

(** [n] successive calls of [get(key)]: the values returned and the state
    reached. *)
Fixpoint get_times (n : nat) (key : string) (o : obj) : list value * obj :=
  match n with
  | 0 => ([], o)
  | S n' =>
      let '(v, o1) := get body key o in
      let '(vs, o2) := get_times n' key o1 in
      (v :: vs, o2)
  end.

(** [cache[d.cacheKey]], [undefined] when there is no cache. *)
Definition cache_slot (d : descriptor) (o : obj) : value :=
  match kvo_cache o with
  | Some c => cache_get c (jskey (cacheKey d))
  | None => VUndefined
  end.

End Vocabulary.

(** The calls of computed-property functions in a trace. *)
Definition is_compute (e : event) : bool :=
  match e with Compute _ _ _ => true | Fire _ _ _ _ => false end.

Definition computes (tr : list event) : list event := filter (fun e => is_compute e = true) tr.

(** The state an outcome carries, when the call came back or threw. *)
Definition final (r : outcome) : option obj :=
  match r with
  | Return o | Throw _ o => Some o
  | Diverge => None
  end.

(** Wider vocabulary: what a run adds to the trace, and what the fan-out is
    expected to produce. *)

(** Several invocations recorded at once. *)
Definition emits (evs : list event) (o : obj) : obj :=
  Obj (self o) (props o) (hub_properties o) (hub_observableInited o)
      (kvo_cacheable o) (kvo_cache o) (kvo_cachedep o) (kvo_dependents o)
      (kvo_changeLevel o) (kvo_changes o) (kvo_revision o) (propertyRevision o)
      (kvo_observers o) (kvo_local o) (kvo_observed_keys o) (kvo_chains o)
      (queue_pending o) (trace o ++ evs).

(** A member after it was notified at [rev]. *)
Definition notified (rev : nat) (m : member) : member :=
  Member (m_target m) (m_method m) (m_context m) (Some rev).

(** The calls the members of an observer set receive for [key] at [rev], in
    the order of the snapshot: those whose slot already holds [rev] are
    left out. *)
Definition member_events (this : obj) (key : string) (rev : nat) (ms : list member)
    : list event :=
  map (fun m => Fire PMember (m_method m) (target_or_this this m)
                  (observer_args this key (m_context m) rev))
      (filter (fun m => m_last m ≠ Some rev) ms).

(** The calls of the local observers: the names whose method exists. *)
Definition local_events (this : obj) (key : string) (rev : nat) (names : list string)
    : list event :=
  map (fun name => Fire PLocal (prop this name) (VObj (self this))
                     [VObj (self this); VStr key; VNull; rev_value rev])
      (filter (fun name => truthy (prop this name) = true) names).

(** The calls of the star observers. *)
Definition star_events (this : obj) (key : string) (rev : nat) (ms : list member)
    : list event :=
  map (fun m => Fire PStar (m_method m) (target_or_this this m)
                  (observer_args this key (m_context m) rev)) ms.

(** The call of the [propertyObserver] hook. *)
Definition hook_events (this : obj) (key : string) (rev : nat) : list event :=
  if truthy (prop this "propertyObserver")
  then [Fire PHook (prop this "propertyObserver") (VObj (self this))
          [VObj (self this); VStr key; rev_value rev]]
  else [].

(** Everything one changed key sets off, in order. *)
Definition key_events (starObservers : bool) (rev : nat) (this : obj) (key : string)
    : list event :=
  member_events this key rev (default [] (kvo_observers this !! key))
  ++ local_events this key rev (default [] (kvo_local this !! key))
  ++ (if starObservers && negb (bool_decide (key = "*"))
      then star_events this key rev (default [] (kvo_observers this !! "*"))
      else [])
  ++ hook_events this key rev.

(** The observer sets after the keys of [keys] were notified at [rev]. *)
Definition mark_keys (rev : nat) (keys : list string)
    (os : gmap string (list member)) : gmap string (list member) :=
  foldl (fun os key => alter (map (notified rev)) key os) os keys.

(** Every method the fan-out may call is a function. *)
Definition observers_callable (o : obj) : Prop :=
  (forall key ms m, kvo_observers o !! key = Some ms -> m ∈ ms -> callable (m_method m) = true)
  /\ (forall key names name, kvo_local o !! key = Some names -> name ∈ names ->
        truthy (prop o name) = true -> callable (prop o name) = true)
  /\ (truthy (prop o "propertyObserver") = true -> callable (prop o "propertyObserver") = true).

(** What the pass over the dependent keys leaves alone: a property is kept
    or reset to [undefined], the cache may change, the rest stays. *)
Definition expand_frame (o o' : obj) : Prop :=
  self o' = self o
  /\ (forall k, prop o' k = prop o k \/ prop o' k = VUndefined)
  /\ kvo_observers o' = kvo_observers o
  /\ kvo_local o' = kvo_local o
  /\ trace o' = trace o
  /\ kvo_revision o' = kvo_revision o
  /\ propertyRevision o' = propertyRevision o
  /\ kvo_changeLevel o' = kvo_changeLevel o
  /\ kvo_changes o' = kvo_changes o
  /\ kvo_dependents o' = kvo_dependents o
  /\ kvo_observed_keys o' = kvo_observed_keys o
  /\ hub_observableInited o' = hub_observableInited o.

(** Every key that occurs as a dependent of some key. *)
Definition dependent_keys_of (o : obj) : list string :=
  match kvo_dependents o with
  | Some dm => concat (snd <$> map_to_list dm)
  | None => []
  end.

(** Enough turns for the loops of one notification. *)
Definition pass_budget (o : obj) : nat :=
  length (default [] (kvo_changes o)) + length (default [] (kvo_observed_keys o))
  + length (dependent_keys_of o) + 3.

(** The change set is a set. *)
Definition changes_wf (o : obj) : Prop :=
  NoDup (default [] (kvo_changes o)).

(** [this['_kvo_observers_*']], as the notification finds it. *)
Definition star_present (o : obj) : bool :=
  bool_decide (is_Some (kvo_observers o !! "*")).

(** A call made to the method [me] on the target [tg] as a member of the
    observer set of [key]. *)
Definition is_member_call (key : string) (tg me : value) (e : event) : bool :=
  match e with
  | Fire PMember m t (_ :: VStr k :: _) => bool_decide (m = me /\ t = tg /\ k = key)
  | _ => false
  end.

Definition member_calls (key : string) (tg me : value) (evs : list event) : nat :=
  length (filter (fun e => is_member_call key tg me e = true) evs).

(** The revision a call was made for: the last argument. *)
Definition event_rev (e : event) : option value :=
  match e with
  | Fire _ _ _ args => last args
  | Compute _ _ _ => None
  end.

(** The members of an observer set are distinct observers: no two of them
    have the same receiver and method. *)
Definition observer_sets_wf (o : obj) : Prop :=
  forall key ms, kvo_observers o !! key = Some ms ->
    NoDup (map (fun m => (target_or_this o m, m_method m)) ms).

(** [P] holds of the state a call ends in, when it ends. *)
Definition post (P : obj -> Prop) (r : outcome) : Prop :=
  match final r with
  | Some o' => P o'
  | None => True
  end.

(** What a notification leaves alone: the revision counted by
    [propertyDidChange] and the calls of computed properties; the revision
    handed to the observers only grows. *)
Definition notify_keeps (o o' : obj) : Prop :=
  kvo_revision o' = kvo_revision o
  /\ propertyRevision o <= propertyRevision o'
  /\ computes (trace o') = computes (trace o).

(** Only the cache and the memo of the cached dependents differ. *)
Definition cache_only (o o' : obj) : Prop :=
  exists c cd, o' = with_cachedep cd (with_cache c o).


(** The dependent keys are layered: each key ranks above the keys declared
    as its dependents, so no key depends on itself. *)
Definition dependents_ranked (rank : string -> nat) (o : obj) : Prop :=
  forall dm k deps d,
    kvo_dependents o = Some dm -> dm !! k = Some deps -> d ∈ deps -> rank d < rank k.

(** The state [propertyDidChange] reaches before it queues the key or
    notifies: the revision is counted, caches are cleared. *)
Definition counted (o o1 : obj) : Prop :=
  cache_only (with_revision (kvo_revision o + 1) o) o1.

(** The calls of observers and hooks in a trace. *)
Definition fires (tr : list event) : list event :=
  filter (fun e => is_compute e = false) tr.

(** The keys waiting in the change set. *)
Definition pending_keys (o : obj) : list string := default [] (kvo_changes o).

(** What calls made inside a group of property changes leave alone: the
    observers, the level of the group, the revision handed to observers; no
    observer is called, and the change set only grows, by at most [n]
    keys. *)
Definition deferred (n : nat) (o o' : obj) : Prop :=
  self o' = self o
  /\ kvo_observers o' = kvo_observers o
  /\ hub_observableInited o' = hub_observableInited o
  /\ kvo_dependents o' = kvo_dependents o
  /\ kvo_observed_keys o' = kvo_observed_keys o
  /\ kvo_changeLevel o' = kvo_changeLevel o
  /\ propertyRevision o' = propertyRevision o
  /\ fires (trace o') = fires (trace o)
  /\ (forall x, x ∈ pending_keys o -> x ∈ pending_keys o')
  /\ (NoDup (pending_keys o) -> NoDup (pending_keys o'))
  /\ length (pending_keys o') <= length (pending_keys o) + n.

(** [set(key, v)] changes what the key holds: the property is unknown, or it
    holds a plain value other than [v]. *)
Definition changes_value (o : obj) (key : string) (v : value) : Prop :=
  prop o key = VUndefined \/ (as_property (prop o key) = None /\ prop o key <> v).

(** A group of property changes: [beginPropertyChanges], the calls of
    [set], [endPropertyChanges], with the queue not suspended. *)
Definition set_calls (sets : list (string * value)) : list (bool * op) :=
  map (fun kv => (false, OSet (fst kv) (snd kv))) sets.

Definition bracket (sets : list (string * value)) : list (bool * op) :=
  (false, OBeginPropertyChanges) :: set_calls sets ++ [(false, OEndPropertyChanges)].

(** ** Sample objects *)

Module Sample.

(** Function 1 joins the first name with a blank; function 2 returns
    nothing; any other function hands the value passed back. *)
Definition body (f : nat) (ps : gmap string value) (key : string) (v : value) : value :=
  match f with
  | 1 => match ps !! "first" with
         | Some (VStr s) => VStr (s ++ " ")
         | _ => VStr " "
         end
  | 2 => VUndefined
  | _ => v
  end.

Definition fullName : descriptor :=
  Descriptor 1 true false (Some "__cache__fullName") (Some "__lastValue__fullName")
             ["first"].

Definition nothing : descriptor :=
  Descriptor 2 true false (Some "__cache__nothing") (Some "__lastValue__nothing") [].

Definition echo : descriptor :=
  Descriptor 3 false false None None [].

(** An object with a plain property, three computed properties, two
    observers and a local observer of [value], and a star observer. *)
Definition person : obj :=
  Obj 7
      (<["value" := VNum 1]>
       (<["first" := VStr "A"]>
        (<["fullName" := VProp fullName]>
         (<["nothing" := VProp nothing]>
          (<["echo" := VProp echo]>
           (<["valueDidChange" := VFunc 30]> ∅))))))
      (Some ["fullName"; "nothing"; "echo"])
      true true None None
      (Some (<["first" := ["fullName"]]> ∅))
      0 None 0 1
      (<["value" := [Member VNull (VFunc 10) VUndefined None;
                     Member (VObj 8) (VFunc 11) (VStr "ctx") None]]>
       (<["*" := [Member VNull (VFunc 12) VUndefined None]]> ∅))
      (<["value" := ["valueDidChange"]]> ∅)
      (Some ["value"])
      ∅ false [].

(** Keys ranked so that a computed property ranks below what it depends
    on. *)
Definition rank (key : string) : nat :=
  if bool_decide (key = "first") then 1 else 0.

(** Another object of the heap: [foo] is a number, [bar] a function. *)
Definition heap : gmap nat (gmap string value) :=
  <[8 := <["foo" := VNum 5]> (<["bar" := VFunc 11]> ∅)]> ∅.

(** A root store with the hash [json] written clean and put back in locked
    mode, and an editing context of it, as the tests of [writeDataHash]
    set them up. *)
Definition json : gmap string value :=
  <["string" := VStr "string"]> (<["number" := VNum 23]> (<["bool" := VBool true]> ∅)).

Definition json2 : gmap string value := <["version" := VNum 2]> ∅.

Definition storeKey : nat := 4.

Definition stores : list Store.context :=
  snd (Store.createEditingContext
         (Store.clear_editables
            (snd (Store.writeDataHash [Store.create] 0 storeKey json
                    (Some Store.READY_CLEAN))) 0) 0).

Definition root : Store.context := default Store.create (stores !! 0).

Definition child : Store.context := default Store.create (stores !! 1).

(** The three calls of [set] of the grouped-notification scenario. *)
Definition three_sets : list (string * value) :=
  [("value", VNum 2); ("value", VNum 3); ("value", VNum 4)].

End Sample.

(** ** hub.Observable: counting, toggling, [didChangeFor] *)

(** How a call that hands a value back ends. *)
Inductive answer :=
| Answer (v : value) (o : obj)
| Raised (exn : string) (o : obj)
| Endless.

(** [r; return k()]: the value [k] computes in the state the call [r]
    returned. *)
Definition answering (r : outcome) (k : obj -> value * obj) : answer :=
  match r with
  | Return o => let '(v, o') := k o in Answer v o'
  | Throw e o => Raised e o
  | Diverge => Endless
  end.

(** [a || b] *)
Definition js_or (a b : value) : value := if truthy a then a else b.

(** The integers a double holds exactly. *)
Definition exact (n : Z) : bool := (Z.abs n <=? 2 ^ 53)%Z.

(** ToNumber of a number, a boolean and [null], where it is such an
    integer. *)
Definition to_integer (v : value) : option Z :=
  match v with
  | VNum n => if exact n then Some n else None
  | VBool b => Some (if b then 1 else 0)%Z
  | VNull => Some 0%Z
  | _ => None
  end.

Section Operators.

(** What [a + b], [a - b] and [a == b] give where the development does not
    compute them: when an operand is a string or is turned into one,
    [undefined] in arithmetic, results outside the exact integers, an
    object compared with a number, a string or a boolean. *)
Variable add_other sub_other : value -> value -> value.
Variable loose_other : value -> value -> bool.

(** [a + b] *)
Definition js_add (a b : value) : value :=
  match to_integer a, to_integer b with
  | Some x, Some y => if exact (x + y) then VNum (x + y) else add_other a b
  | _, _ => add_other a b
  end.

(** [a - b] *)
Definition js_sub (a b : value) : value :=
  match to_integer a, to_integer b with
  | Some x, Some y => if exact (x - y) then VNum (x - y) else sub_other a b
  | _, _ => sub_other a b
  end.

(** [a == b] *)
Definition loose_eq (a b : value) : bool :=
  match a, b with
  | (VUndefined | VNull), (VUndefined | VNull) => true
  | (VUndefined | VNull), _ | _, (VUndefined | VNull) => false
  | VBool x, VBool y => bool_decide (x = y)
  | VNum x, VNum y => bool_decide (x = y)
  | VStr x, VStr y => bool_decide (x = y)
  | VBool x, VNum n | VNum n, VBool x => bool_decide (n = if x then 1 else 0)%Z
  | (VObj _ | VFunc _ | VProp _), (VObj _ | VFunc _ | VProp _) => strict_eq a b
  | _, _ => loose_other a b
  end.

Variable body : nat -> gmap string value -> string -> value -> value.
Variable fuel : nat.
Variable suspended : bool.

(** [incrementProperty] *)
Definition incrementProperty (key : string) (o : obj) : answer :=
  let '(current, o1) := get body key o in
  answering (set body fuel suspended key (js_add (js_or current (VNum 0)) (VNum 1)) o1)
            (get body key).

(** [decrementProperty] *)
Definition decrementProperty (key : string) (o : obj) : answer :=
  let '(current, o1) := get body key o in
  answering (set body fuel suspended key (js_sub (js_or current (VNum 0)) (VNum 1)) o1)
            (get body key).

(** [toggleProperty]; an argument left out is [undefined]. *)
Definition toggleProperty (key : string) (value alt : value) (o : obj) : answer :=
  let value := if strict_eq value VUndefined then VBool true else value in
  let alt := if strict_eq alt VUndefined then VBool false else alt in
  let '(current, o1) := get body key o in
  let value := if loose_eq current value then alt else value in
  answering (set body fuel suspended key value o1) (get body key).

End Operators.

(** The two caches of [didChangeFor], [_hub_kvo_didChange_valueCache] and
    [_hub_kvo_didChange_revisionCache]: by context, the value and the
    revision last seen for each key.  No other method reads them. *)
Record seen := Seen {
  valueCache : gmap string (gmap string value);
  revisionCache : gmap string (gmap string nat)
}.

Section DidChangeFor.

Variable body : nat -> gmap string value -> string -> value -> value.

(** [hub.hashFor] (core.js is not part of the sources at hand): the name
    under which a context is filed. *)
Variable hashFor : value -> string.

(** The body of the loop over the keys: [ret], the values and revisions
    seen in this context, the object. *)
Definition didChange_step (currentRevision : nat)
    (st : bool * gmap string value * gmap string nat * obj) (key : string)
    : bool * gmap string value * gmap string nat * obj :=
  let '(ret, seenValues, seenRevisions, o) := st in
  let '(ret, seenValues, o) :=
    if negb (bool_decide (seenRevisions !! key = Some currentRevision)) then
      let '(value, o1) := get body key o in
      if negb (strict_eq (default VUndefined (seenValues !! key)) value)
      then (true, <[key := value]> seenValues, o1)
      else (ret, seenValues, o1)
    else (ret, seenValues, o) in
  (ret, seenValues, <[key := currentRevision]> seenRevisions, o).

(** [didChangeFor(context, key...)]: the keys are gone through from the
    last to the first. *)
Definition didChangeFor (context : value) (keys : list string) (s : seen) (o : obj)
    : bool * seen * obj :=
  let context := hashFor context in
  let seenValues := default ∅ (valueCache s !! context) in
  let seenRevisions := default ∅ (revisionCache s !! context) in
  let currentRevision := kvo_revision o in
  let '(ret, seenValues, seenRevisions, o') :=
    foldl (didChange_step currentRevision)
          (false, seenValues, seenRevisions, o) (reverse keys) in
  (ret,
   Seen (<[context := seenValues]> (valueCache s))
        (<[context := seenRevisions]> (revisionCache s)),
   o').

End DidChangeFor.

(** ** Vocabulary of the further statements *)

(** [k'] is [k] or one of the keys registered, directly or through other
    keys, as depending on [k]. *)
Inductive reaches (dm : gmap string (list string)) : string -> string -> Prop :=
| reaches_here k : reaches dm k k
| reaches_step k deps d k' :
    dm !! k = Some deps -> d ∈ deps -> reaches dm d k' -> reaches dm k k'.

(** The body of the pass over the dependent keys for the key at hand: its
    dependents are added to the set, last one first. *)
Definition expand_step (dm : gmap string (list string)) (key : string)
    (st : list string * obj) : list string * obj :=
  match dm !! key with
  | Some (k :: ks) =>
      foldl add_dependent
        (fst st, with_cache (Some (default ∅ (kvo_cache (snd st)))) (snd st))
        (reverse (k :: ks))
  | _ => st
  end.

(** [cache[k]] of the object, [undefined] when it has no cache. *)
Definition cached (o : obj) (k : string) : value :=
  cache_get (default ∅ (kvo_cache o)) k.

(** No dependent key of the object keeps its cached value under the name
    [k]: the notification, which resets the property named like the cache
    key of each dependent key, leaves the property [k] alone. *)
Definition keeps_name (o : obj) (k : string) : Prop :=
  forall d, d ∈ dependent_keys_of o -> truthy (prop o d) = true ->
            cacheKey_of (prop o d) <> k.

(** The dependent keys as a map, empty when none was registered. *)
Definition dependents_of (o : obj) : gmap string (list string) :=
  default ∅ (kvo_dependents o).



(** The memo of the cached dependents of [key], when there is one. *)
Definition cachedep_memo (o : obj) (key : string) : option (option (list descriptor)) :=
  match kvo_cachedep o with
  | Some cd => cd !! key
  | None => None
  end.

(** What [initObservable] does for one key of [_hub_properties]. *)
Definition init_property (o : obj) (key : string) : obj :=
  let v := prop o key in
  if truthy v then
    match as_property v with
    | Some d =>
        let o := if isCacheable d then with_cacheable true o else o in
        match dependentKeys d with
        | [] => o
        | deps => registerDependentKey key deps o
        end
    | None => o
    end
  else o.

(** How often [x] occurs in [l]. *)
Definition occurrences (x : string) (l : list string) : nat :=
  length (filter (fun y => y = x) l).

(** A member as [addObserver] stores it: the receiver itself is stored as
    [null], any other target as it is; the slot holds a revision that was
    handed out. *)
Definition member_ok (o : obj) (m : member) : Prop :=
  (m_target m = VNull \/ (truthy (m_target m) = true /\ m_target m <> VObj (self o)))
  /\ (forall r, m_last m = Some r -> r <= propertyRevision o).

Definition member_okb (o : obj) (m : member) : bool :=
  (bool_decide (m_target m = VNull)
   || (truthy (m_target m) && negb (bool_decide (m_target m = VObj (self o)))))
  && match m_last m with
     | Some r => bool_decide (r <= propertyRevision o)
     | None => true
     end.

(** The observer sets as [addObserver] and [removeObserver] keep them: no
    pair of target and method twice, every member as [addObserver] stores
    it. *)
Definition observer_sets_ok (o : obj) : Prop :=
  forall key ms, kvo_observers o !! key = Some ms ->
    NoDup (ObserverSet.pairs ms) /\ Forall (member_ok o) ms.

(** What [addObserver] and [removeObserver] leave alone on a key without
    a dot: everything but the observer sets, the observed keys and the
    trace. *)
Definition reregistered (o o1 : obj) : Prop :=
  self o1 = self o
  /\ props o1 = props o
  /\ kvo_local o1 = kvo_local o
  /\ hub_observableInited o1 = hub_observableInited o
  /\ kvo_changeLevel o1 = kvo_changeLevel o
  /\ kvo_changes o1 = kvo_changes o
  /\ kvo_revision o1 = kvo_revision o
  /\ propertyRevision o1 = propertyRevision o
  /\ kvo_dependents o1 = kvo_dependents o
  /\ kvo_cache o1 = kvo_cache o
  /\ kvo_cacheable o1 = kvo_cacheable o.

(** The key a call was made for: the second argument an observer
    receives. *)
Definition event_key (e : event) : option string :=
  match e with
  | Fire _ _ _ (_ :: VStr k :: _) => Some k
  | _ => None
  end.

(** ** Further sample objects *)

Module Fixture.

(** The sample person with an observer of the computed property
    [fullName], whose value is in the cache. *)
Definition family : obj :=
  with_cache (Some (<["__cache__fullName" := VStr "A "]> ∅))
    (with_observers (<["fullName" := [Member VNull (VFunc 13) VUndefined None]]>)
       Sample.person).




(** The sample person before [initObservable] has run: no dependent key
    is registered yet. *)
Definition fresh : obj :=
  with_cacheable false (with_dependents None (with_inited false Sample.person)).


(** The sample person after [fullName] was declared to depend on [value]
    as well, which [set] had looked at before: the memo of the cached
    dependents of [value] says there are none.  A group is open. *)
Definition belated : obj :=
  with_changeLevel 1
    (with_cachedep (Some (<["value" := None]> ∅))
       (with_cache (Some (<["__cache__fullName" := VStr "A "]> ∅))
          (registerDependentKey "fullName" ["value"] Sample.person))).

End Fixture.


(** * Properties *)

Lemma strict_eq_true a b : strict_eq a b = true <-> a = b.
Proof. unfold strict_eq. apply bool_decide_eq_true. Qed.

Lemma strict_eq_false a b : strict_eq a b = false <-> a <> b.
Proof. unfold strict_eq. apply bool_decide_eq_false. Qed.

Lemma strict_eq_refl a : strict_eq a a = true.
Proof. by apply strict_eq_true. Qed.

(** ** Reading a computed property *)

Section GetFacts.
Variable body : nat -> gmap string value -> string -> value -> value.

Lemma get_miss key d o :
  prop o key = VProp d -> isCacheable d = true -> cache_slot d o = VUndefined ->
  get body key o =
    (body (fn d) (props o) key VUndefined,
     with_cache (Some (<[jskey (cacheKey d) := body (fn d) (props o) key VUndefined]>
                         (default ∅ (kvo_cache o))))
                (emit (Compute d key None) (with_cache (Some (default ∅ (kvo_cache o))) o))).
Proof.
  intros Hp Hc Hs. unfold get. rewrite Hp. simpl. rewrite Hc.
  assert (cache_get (default ∅ (kvo_cache o)) (jskey (cacheKey d)) = VUndefined) as ->.
  { unfold cache_slot in Hs. destruct (kvo_cache o); simpl; [done|].
    unfold cache_get. by rewrite lookup_empty. }
  reflexivity.
Qed.

Lemma get_hit key d o v :
  prop o key = VProp d -> isCacheable d = true -> cache_slot d o = v -> v <> VUndefined ->
  get body key o = (v, with_cache (Some (default ∅ (kvo_cache o))) o).
Proof.
  intros Hp Hc Hs Hv. unfold get. rewrite Hp. simpl. rewrite Hc.
  assert (cache_get (default ∅ (kvo_cache o)) (jskey (cacheKey d)) = v) as ->.
  { unfold cache_slot in Hs. destruct (kvo_cache o); simpl; [done|].
    unfold cache_get in *. rewrite lookup_empty. done. }
  apply strict_eq_false in Hv. rewrite Hv. reflexivity.
Qed.

(** Once a defined value sits in the slot, every further [get] returns it
    and calls nothing. *)
Lemma get_times_hit n key d o v :
  prop o key = VProp d -> isCacheable d = true -> cache_slot d o = v -> v <> VUndefined ->
  fst (get_times body n key o) = replicate n v /\
  trace (snd (get_times body n key o)) = trace o /\
  cache_slot d (snd (get_times body n key o)) = v.
Proof.
  revert o. induction n as [|n IH]; intros o Hp Hc Hs Hv; [done|].
  simpl. rewrite (get_hit key d o v) by done.
  set (o1 := with_cache _ o).
  destruct (IH o1) as (Hvs & Htr & Hslot); try done.
  { unfold cache_slot, o1 in *. simpl. by destruct (kvo_cache o). }
  destruct (get_times body n key o1) as [vs o2]. simpl in *.
  by rewrite Hvs.
Qed.

(** As long as the function returns [undefined], every [get] calls it. *)
Lemma get_times_undefined n key d o :
  prop o key = VProp d -> isCacheable d = true -> cache_slot d o = VUndefined ->
  body (fn d) (props o) key VUndefined = VUndefined ->
  fst (get_times body n key o) = replicate n VUndefined /\
  trace (snd (get_times body n key o)) = trace o ++ replicate n (Compute d key None) /\
  cache_slot d (snd (get_times body n key o)) = VUndefined.
Proof.
  revert o. induction n as [|n IH]; intros o Hp Hc Hs Hb.
  { simpl. by rewrite app_nil_r. }
  simpl. rewrite (get_miss key d o) by done. rewrite Hb.
  set (o1 := with_cache _ (emit _ _)).
  destruct (IH o1) as (Hvs & Htr & Hslot); try done.
  { unfold cache_slot, o1. simpl. unfold cache_get. by rewrite lookup_insert_eq. }
  destruct (get_times body n key o1) as [vs o2]. simpl in *.
  rewrite Hvs, Htr. split; [done|]. split; [|done].
  unfold o1. simpl. by rewrite <- app_assoc.
Qed.

(** C10.  A cacheable computed property whose slot is empty: [get] calls
    the function.  When the function returns [undefined] nothing is
    memoized, and each of the following calls of [get] invokes it again;
    when it returns a defined value, that value is cached, and the
    following calls return it without invoking the function. *)
Theorem get_caches_only_defined (n : nat) (key : string) (d : descriptor) (o : obj) :
  prop o key = VProp d -> isCacheable d = true -> cache_slot d o = VUndefined ->
  let v := body (fn d) (props o) key VUndefined in
  let calls := if decide (v = VUndefined) then S n else 1 in
  fst (get_times body (S n) key o) = replicate (S n) v /\
  trace (snd (get_times body (S n) key o)) = trace o ++ replicate calls (Compute d key None) /\
  cache_slot d (snd (get_times body (S n) key o)) = v.
Proof.
  intros Hp Hc Hs v calls. subst calls.
  destruct (decide (v = VUndefined)) as [Hv|Hv].
  - rewrite Hv. by apply get_times_undefined.
  - simpl. rewrite (get_miss key d o) by done. fold v.
    set (o1 := with_cache _ (emit _ _)).
    destruct (get_times_hit n key d o1 v) as (Hvs & Htr & Hslot); try done.
    { unfold cache_slot, o1. simpl. unfold cache_get. by rewrite lookup_insert_eq. }
    destruct (get_times body n key o1) as [vs o2]. simpl in *.
    by rewrite Hvs, Htr.
Qed.

End GetFacts.

(** ** The fan-out of one key *)

Lemma obj_eta o :
  o = Obj (self o) (props o) (hub_properties o) (hub_observableInited o)
      (kvo_cacheable o) (kvo_cache o) (kvo_cachedep o) (kvo_dependents o)
      (kvo_changeLevel o) (kvo_changes o) (kvo_revision o) (propertyRevision o)
      (kvo_observers o) (kvo_local o) (kvo_observed_keys o) (kvo_chains o)
      (queue_pending o) (trace o).
Proof. by destruct o. Qed.

Lemma emits_nil o : emits [] o = o.
Proof. destruct o. unfold emits. simpl. by rewrite app_nil_r. Qed.

Lemma emit_emits e evs o : emit e (emits evs o) = emits (evs ++ [e]) o.
Proof. unfold emit, emits. simpl. by rewrite <- app_assoc. Qed.

Lemma emits_emits e1 e2 o : emits e2 (emits e1 o) = emits (e1 ++ e2) o.
Proof. unfold emits. simpl. by rewrite <- app_assoc. Qed.

Lemma emits_with_observers evs f o :
  emits evs (with_observers f o) = with_observers f (emits evs o).
Proof. reflexivity. Qed.

Lemma notified_idem rev m : m_last m = Some rev -> notified rev m = m.
Proof. destruct m. simpl. unfold notified. simpl. by intros ->. Qed.

Lemma invoke_callable ph m t args o :
  callable m = true -> invoke ph m t args o = Return (emit (Fire ph m t args) o).
Proof. unfold invoke. by intros ->. Qed.

(** The loop over the members, started at any position of the snapshot. *)
Lemma notify_members_from key rev (done todo : list member) evs o :
  kvo_observers o !! key = Some (done ++ todo) ->
  (forall m, m ∈ todo -> callable (m_method m) = true) ->
  notify_members key rev (seq (length done) (length todo)) (emits evs o) =
  Return (emits (evs ++ member_events o key rev todo)
            (with_observers (<[key := done ++ map (notified rev) todo]>) o)).
Proof.
  revert done evs o. induction todo as [|m rest IH]; intros done evs o Hk Hc.
  - simpl. rewrite !app_nil_r. f_equal. f_equal.
    rewrite app_nil_r in Hk. rewrite (obj_eta o) at 1.
    unfold with_observers. f_equal. by rewrite insert_id.
  - simpl. rewrite Hk. simpl.
    rewrite list_lookup_middle by done. 
    unfold member_events. rewrite filter_cons.
    case_bool_decide as Hlast.
    + destruct (decide (m_last m ≠ Some rev)) as [?|_]; [done|].
      specialize (IH (done ++ [m]) evs o).
      rewrite length_app in IH. simpl in IH. rewrite Nat.add_1_r in IH.
      rewrite IH.
      * rewrite <- app_assoc. simpl. by rewrite (notified_idem rev m).
      * by rewrite <- app_assoc.
      * intros. apply Hc. by right.
    + destruct (decide (m_last m ≠ Some rev)) as [_|?]; [|done].
      rewrite invoke_callable by (apply Hc; by left).
      set (o1 := mark_notified key (length done) rev o).
      assert (mark_notified key (length done) rev (emits evs o) = emits evs o1) as -> by done.
      rewrite emit_emits.
      assert (Hk1 : kvo_observers o1 !! key = Some ((done ++ [notified rev m]) ++ rest)).
      { unfold o1, mark_notified. simpl. rewrite lookup_alter_eq, Hk. simpl.
        f_equal. rewrite <- app_assoc. simpl.
        rewrite alter_app_r_alt by done. by rewrite Nat.sub_diag. }
      specialize (IH (done ++ [notified rev m]) (evs ++ [Fire PMember (m_method m)
         (target_or_this (emits evs o) m) (observer_args (emits evs o) key (m_context m) rev)]) o1 Hk1).
      rewrite length_app in IH. simpl in IH. rewrite Nat.add_1_r in IH.
      cbn [bind]. rewrite IH by (intros; apply Hc; by right).
      f_equal. unfold emits, with_observers, o1, mark_notified. simpl.
      rewrite <- !app_assoc. simpl. f_equal.
      apply map_eq. intros k. destruct (decide (k = key)) as [->|Hne].
      * by rewrite !lookup_insert_eq.
      * by rewrite !lookup_insert_ne, lookup_alter_ne.
Qed.

Lemma notify_members_all key rev ms evs o :
  kvo_observers o !! key = Some ms ->
  (forall m, m ∈ ms -> callable (m_method m) = true) ->
  notify_members key rev (seq 0 (length ms)) (emits evs o) =
  Return (emits (evs ++ member_events o key rev ms)
            (with_observers (alter (map (notified rev)) key) o)).
Proof.
  intros Hk Hc.
  pose proof (notify_members_from key rev [] ms evs o Hk Hc) as H.
  simpl in H. rewrite H.
  do 2 f_equal. unfold with_observers. f_equal.
  apply map_eq. intros k. destruct (decide (k = key)) as [->|Hne].
  - by rewrite lookup_insert_eq, lookup_alter_eq, Hk.
  - by rewrite lookup_insert_ne, lookup_alter_ne.
Qed.

Lemma notify_locals_all key rev names evs o :
  (forall name, name ∈ names -> truthy (prop o name) = true ->
                callable (prop o name) = true) ->
  notify_locals key rev names (emits evs o) =
  Return (emits (evs ++ local_events o key rev names) o).
Proof.
  revert evs. induction names as [|name rest IH]; intros evs Hc.
  - simpl. by rewrite app_nil_r.
  - simpl. unfold local_events. rewrite filter_cons.
    change (prop (emits evs o) name) with (prop o name).
    destruct (truthy (prop o name)) eqn:Ht.
    + destruct (decide (true = true)) as [_|?]; [|done].
      rewrite invoke_callable by (apply Hc; [by left|done]).
      cbn [bind]. rewrite emit_emits, IH by (intros; apply Hc; [by right|done]).
      simpl. by rewrite <- app_assoc.
    + destruct (decide (false = true)) as [?|_]; [done|].
      apply IH. intros; apply Hc; [by right|done].
Qed.

Lemma notify_star_all key rev ms evs o :
  (forall m, m ∈ ms -> callable (m_method m) = true) ->
  notify_star key rev ms (emits evs o) =
  Return (emits (evs ++ star_events o key rev ms) o).
Proof.
  revert evs. induction ms as [|m rest IH]; intros evs Hc.
  - simpl. by rewrite app_nil_r.
  - simpl. rewrite invoke_callable by (apply Hc; by left).
    cbn [bind]. rewrite emit_emits, IH by (intros; apply Hc; by right).
    simpl. by rewrite <- app_assoc.
Qed.

Lemma star_events_notified o key rev rev' ms :
  star_events o key rev (map (notified rev') ms) = star_events o key rev ms.
Proof. unfold star_events. rewrite map_map. reflexivity. Qed.

Lemma alter_absent {A} (f : A -> A) (k : string) (m : gmap string A) :
  m !! k = None -> alter f k m = m.
Proof.
  intros H. apply map_eq. intros j. destruct (decide (j = k)) as [->|Hne].
  - by rewrite lookup_alter_eq, H.
  - by rewrite lookup_alter_ne.
Qed.

Lemma with_observers_id o : with_observers (fun os => os) o = o.
Proof. by destruct o. Qed.

(** What one changed key sets off: the members of its observer set, then
    its local observers, then the star observers, then the hook. *)
Lemma notify_key_all starObservers rev key evs o :
  observers_callable o ->
  notify_key starObservers rev key (emits evs o) =
  Return (emits (evs ++ key_events starObservers rev o key)
            (with_observers (alter (map (notified rev)) key) o)).
Proof.
  intros (Hm & Hl & Hh). unfold notify_key, key_events.
  change (kvo_observers (emits evs o) !! key) with (kvo_observers o !! key).
  set (o' := with_observers (alter (map (notified rev)) key) o).
  match goal with |- bind ?r _ = _ =>
    assert (Hmem : r = Return (emits (evs ++ member_events o key rev
                                        (default [] (kvo_observers o !! key))) o')) end.
  { destruct (kvo_observers o !! key) as [ms|] eqn:Hk.
    - unfold ObserverSet.getMembers. simpl.
      apply notify_members_all; [done|]. intros m Hin. by eapply Hm.
    - simpl. rewrite app_nil_r. unfold o', with_observers.
      rewrite (alter_absent _ _ _ Hk). by rewrite <- obj_eta. }
  rewrite Hmem. cbn [bind]. clear Hmem.
  set (ev1 := evs ++ member_events o key rev _).
  match goal with |- bind ?r _ = _ =>
    assert (Hloc : r = Return (emits (ev1 ++ local_events o key rev
                                        (default [] (kvo_local o !! key))) o')) end.
  { change (kvo_local (emits ev1 o') !! key) with (kvo_local o !! key).
    destruct (kvo_local o !! key) as [names|] eqn:Hk.
    - simpl. rewrite (notify_locals_all key rev names ev1 o'); [done|].
      intros name Hin. apply (Hl key names name Hk Hin).
    - simpl. by rewrite app_nil_r. }
  rewrite Hloc. cbn [bind]. clear Hloc.
  set (ev2 := ev1 ++ local_events o key rev _).
  match goal with |- bind ?r _ = _ =>
    assert (Hstar : r = Return (emits (ev2 ++
                       (if starObservers && negb (bool_decide (key = "*"))
                        then star_events o key rev (default [] (kvo_observers o !! "*"))
                        else [])) o')) end.
  { destruct (starObservers && negb (bool_decide (key = "*"))) eqn:Hs.
    - apply andb_true_iff in Hs as [_ Hs]. apply negb_true_iff in Hs.
      apply bool_decide_eq_false in Hs.
      assert (kvo_observers (emits ev2 o') !! "*" = kvo_observers o !! "*") as ->.
      { unfold o'. simpl. by rewrite lookup_alter_ne. }
      unfold ObserverSet.getMembers.
      rewrite (notify_star_all key rev _ ev2 o'); [done|].
      intros m Hin. destruct (kvo_observers o !! "*") as [ms|] eqn:Hk.
      + by eapply Hm.
      + simpl in Hin. by apply elem_of_nil in Hin.
    - by rewrite app_nil_r. }
  rewrite Hstar. cbn [bind]. clear Hstar.
  set (ev3 := ev2 ++ _).
  change (prop (emits ev3 o') "propertyObserver") with (prop o "propertyObserver").
  unfold hook_events.
  destruct (truthy (prop o "propertyObserver")) eqn:Ht.
  - rewrite invoke_callable by by apply Hh.
    rewrite emit_emits. unfold ev3, ev2, ev1. by rewrite <- !app_assoc.
  - unfold ev3, ev2, ev1. by rewrite <- !app_assoc, !app_nil_r.
Qed.

Lemma observers_callable_marked rev k o :
  observers_callable o ->
  observers_callable (with_observers (alter (map (notified rev)) k) o).
Proof.
  intros (Hm & Hl & Hh). split; [|split; [exact Hl|exact Hh]].
  intros key ms m Hk Hin. simpl in Hk.
  destruct (decide (key = k)) as [->|Hne].
  - rewrite lookup_alter_eq in Hk.
    destruct (kvo_observers o !! k) as [ms0|] eqn:Hk0; [|done].
    simpl in Hk. injection Hk as <-.
    apply list_elem_of_fmap in Hin as (m0 & -> & Hin0). simpl. by eapply Hm.
  - rewrite lookup_alter_ne in Hk by done. by eapply Hm.
Qed.

Lemma member_events_notified_other o key rev rev' ms :
  member_events o key rev (map (notified rev') ms) =
  map (fun m => Fire PMember (m_method m) (target_or_this o m)
                  (observer_args o key (m_context m) rev))
      (filter (fun m => Some rev' ≠ Some rev) ms).
Proof.
  unfold member_events. induction ms as [|m rest IH]; [done|].
  simpl. rewrite !filter_cons. simpl.
  destruct (decide (Some rev' ≠ Some rev)); simpl; by rewrite IH.
Qed.

Lemma key_events_marked starObservers rev k k' o :
  k ≠ k' ->
  key_events starObservers rev (with_observers (alter (map (notified rev)) k) o) k' =
  key_events starObservers rev o k'.
Proof.
  intros Hne. unfold key_events. simpl.
  rewrite lookup_alter_ne by done.
  f_equal. f_equal. f_equal.
  destruct (starObservers && negb (bool_decide (k' = "*"))); [|done].
  destruct (decide (k = "*")) as [->|Hs].
  - rewrite lookup_alter_eq. destruct (kvo_observers o !! "*"); [|done].
    simpl. exact (star_events_notified o k' rev rev _).
  - by rewrite lookup_alter_ne.
Qed.

(** The fan-out over the keys of a pass, in the order they are popped. *)
Lemma notify_keys_all starObservers rev keys evs o :
  NoDup keys -> observers_callable o ->
  notify_keys starObservers rev keys (emits evs o) =
  Return (emits (evs ++ concat (map (key_events starObservers rev o) keys))
            (with_observers (mark_keys rev keys) o)).
Proof.
  revert evs o. induction keys as [|k rest IH]; intros evs o Hnd Hc.
  - simpl. rewrite app_nil_r. by rewrite with_observers_id.
  - apply NoDup_cons in Hnd as [Hk Hnd]. simpl.
    rewrite notify_key_all by done. cbn [bind].
    rewrite IH by (try done; by apply observers_callable_marked).
    do 2 f_equal. rewrite <- app_assoc. do 3 f_equal.
    apply map_ext_in. intros k' Hin. apply key_events_marked.
    intros ->. apply Hk. by apply list_elem_of_In.
Qed.

(** ** The pass over the dependent keys *)

Lemma expand_frame_refl o : expand_frame o o.
Proof. repeat split; try done. intros; by left. Qed.

Lemma expand_frame_trans o1 o2 o3 :
  expand_frame o1 o2 -> expand_frame o2 o3 -> expand_frame o1 o3.
Proof.
  intros (?&Hp1&?&?&?&?&?&?&?&?&?&?) (?&Hp2&?&?&?&?&?&?&?&?&?&?).
  repeat split; try congruence.
  intros k. destruct (Hp2 k) as [Hk|Hk]; rewrite Hk; [apply Hp1|by right].
Qed.

Lemma CoreSet_add_NoDup k s : NoDup s -> NoDup (CoreSet.add k s).
Proof.
  intros H. unfold CoreSet.add, CoreSet.contains. case_bool_decide; [done|].
  apply NoDup_app. split; [done|]. split; [|apply NoDup_singleton].
  intros x Hx Hx'. apply list_elem_of_singleton in Hx'. by subst.
Qed.

Lemma CoreSet_add_elem k s x : x ∈ CoreSet.add k s <-> x ∈ s \/ x = k.
Proof.
  unfold CoreSet.add, CoreSet.contains. case_bool_decide as Hk.
  - split; [by left|]. intros [?|Heq]; [done|by subst].
  - rewrite elem_of_app, list_elem_of_singleton. done.
Qed.

Lemma CoreSet_addEach_NoDup ks s : NoDup s -> NoDup (CoreSet.addEach ks s).
Proof.
  revert s. induction ks as [|k ks IH]; intros s H; [done|].
  simpl. apply IH. by apply CoreSet_add_NoDup.
Qed.

Lemma CoreSet_addEach_elem ks s x : x ∈ CoreSet.addEach ks s <-> x ∈ s \/ x ∈ ks.
Proof.
  revert s. induction ks as [|k ks IH]; intros s.
  - simpl. split; [by left|]. intros [?|H]; [done|]. by apply elem_of_nil in H.
  - simpl. rewrite IH, CoreSet_add_elem, elem_of_cons. tauto.
Qed.

Lemma CoreSet_add_length k s : length (CoreSet.add k s) <= S (length s).
Proof.
  unfold CoreSet.add. destruct (CoreSet.contains k s); [lia|].
  rewrite length_app. simpl. lia.
Qed.

Lemma add_dependent_frame changes o key :
  expand_frame o (snd (add_dependent (changes, o) key)).
Proof.
  unfold add_dependent. destruct (truthy (prop o key)); simpl; [|apply expand_frame_refl].
  repeat split; try done. intros k. unfold prop. simpl.
  destruct (decide (k = cacheKey_of (default VUndefined (props o !! key)))) as [->|Hne].
  - right. by rewrite lookup_insert_eq.
  - left. by rewrite lookup_insert_ne.
Qed.

Lemma add_dependent_changes changes o key :
  fst (add_dependent (changes, o) key) = CoreSet.add key changes.
Proof. unfold add_dependent. by destruct (truthy (prop o key)). Qed.

Lemma add_dependents_fold keys changes o :
  let st := foldl add_dependent (changes, o) keys in
  expand_frame o (snd st)
  /\ (NoDup changes -> NoDup (fst st))
  /\ (forall x, x ∈ fst st <-> x ∈ changes \/ x ∈ keys).
Proof.
  revert changes o. induction keys as [|k keys IH]; intros changes o; cbn [foldl].
  - split; [apply expand_frame_refl|]. split; [done|].
    intros x. split; [by left|]. intros [?|H]; [done|]. by apply elem_of_nil in H.
  - pose proof (add_dependent_frame changes o k) as Hf.
    pose proof (add_dependent_changes changes o k) as Hc.
    destruct (add_dependent (changes, o) k) as [c1 o1]. simpl in *. subst c1.
    destruct (IH (CoreSet.add k changes) o1) as (Hf' & Hnd & Hel).
    split; [exact (expand_frame_trans _ _ _ Hf Hf')|].
    split; [intros; by apply Hnd, CoreSet_add_NoDup|].
    intros x. rewrite Hel, CoreSet_add_elem, elem_of_cons. tauto.
Qed.

(** The pass comes to an end within the budget, and it only adds dependent
    keys to the set. *)
Lemma expand_terminates n dm (U within : list string) idx changes o :
  (forall k deps d, dm !! k = Some deps -> d ∈ deps -> d ∈ U) ->
  NoDup changes ->
  (forall x, x ∈ changes -> x ∈ within ++ U) ->
  length (within ++ U) - idx < n ->
  exists changes' o',
    expand n dm idx changes o = Some (changes', o')
    /\ expand_frame o o'
    /\ NoDup changes'
    /\ (forall x, x ∈ changes -> x ∈ changes')
    /\ (forall x, x ∈ changes' -> x ∈ changes \/ x ∈ U).
Proof.
  intros HU. revert idx changes o. induction n as [|n IH]; intros idx changes o Hnd Hin Hn; [lia|].
  simpl. destruct (changes !! idx) as [key|] eqn:Hidx.
  - set (st := match dm !! key with
               | Some (k :: ks) =>
                   foldl add_dependent
                     (changes, with_cache (Some (default ∅ (kvo_cache o))) o)
                     (reverse (k :: ks))
               | _ => (changes, o)
               end).
    assert (Hst : expand_frame o (snd st) /\ NoDup (fst st)
                  /\ (forall x, x ∈ changes -> x ∈ fst st)
                  /\ (forall x, x ∈ fst st -> x ∈ changes \/ x ∈ U)).
    { unfold st. destruct (dm !! key) as [[|k ks]|] eqn:Hdm; simpl.
      - split; [apply expand_frame_refl|]. repeat split; [done|done|by left].
      - destruct (add_dependents_fold (reverse (k :: ks)) changes
                    (with_cache (Some (default ∅ (kvo_cache o))) o)) as (Hf & Hnd' & Hel).
        split. { eapply expand_frame_trans; [|exact Hf]. repeat split; try done. by left. }
        split; [by apply Hnd'|]. split.
        + intros x Hx. apply Hel. by left.
        + intros x Hx. apply Hel in Hx as [?|Hx]; [by left|right].
          rewrite elem_of_reverse in Hx. exact (HU _ _ _ Hdm Hx).
      - split; [apply expand_frame_refl|]. repeat split; [done|done|by left]. }
    destruct st as [changes1 o1]. simpl in Hst. destruct Hst as (Hf & Hnd1 & Hsub & Hsup).
    assert (Hlen : idx < length (within ++ U)).
    { apply lookup_lt_Some in Hidx.
      assert (length changes <= length (within ++ U)); [|lia].
      apply submseteq_length, NoDup_submseteq; done. }
    destruct (IH (S idx) changes1 o1) as (c' & o' & He & Hf' & Hnd' & Hsub' & Hsup'); try done.
    + intros x Hx. apply Hsup in Hx as [?|?]; [by apply Hin|].
      apply elem_of_app. by right.
    + lia.
    + exists c', o'. split; [done|]. split; [exact (expand_frame_trans _ _ _ Hf Hf')|].
      split; [done|]. split; [naive_solver|].
      intros x Hx. apply Hsup' in Hx as [Hx|?]; [|by right]. by apply Hsup.
  - exists changes, o. split; [done|]. split; [apply expand_frame_refl|].
    repeat split; try done. by left.
Qed.

Lemma dependent_keys_of_spec o dm k deps d :
  kvo_dependents o = Some dm -> dm !! k = Some deps -> d ∈ deps ->
  d ∈ dependent_keys_of o.
Proof.
  intros Hd Hk Hin. unfold dependent_keys_of. rewrite Hd.
  apply list_elem_of_In, in_concat. exists deps.
  split; [|by apply list_elem_of_In].
  apply list_elem_of_In, list_elem_of_fmap. exists (k, deps). split; [done|].
  by apply elem_of_map_to_list.
Qed.

(** ** One notification *)

Lemma CoreSet_addEach_length ks s :
  length (CoreSet.addEach ks s) <= length s + length ks.
Proof.
  revert s. induction ks as [|k ks IH]; intros s; simpl; [lia|].
  specialize (IH (CoreSet.add k s)). pose proof (CoreSet_add_length k s). lia.
Qed.

Lemma begin_pass_facts key o :
  changes_wf o ->
  let st := begin_pass key o in
  NoDup (fst st)
  /\ length (fst st) <= length (default [] (kvo_changes o))
                        + length (default [] (kvo_observed_keys o)) + 1
  /\ self (snd st) = self o
  /\ props (snd st) = props o
  /\ kvo_observers (snd st) = kvo_observers o
  /\ kvo_local (snd st) = kvo_local o
  /\ trace (snd st) = trace o
  /\ kvo_revision (snd st) = kvo_revision o
  /\ propertyRevision (snd st) = S (propertyRevision o)
  /\ kvo_changeLevel (snd st) = kvo_changeLevel o
  /\ kvo_changes (snd st) = None
  /\ kvo_dependents (snd st) = kvo_dependents o
  /\ hub_observableInited (snd st) = hub_observableInited o.
Proof.
  intros Hwf. unfold begin_pass, changes_wf, CoreSet.create in *.
  case_bool_decide as Hstar.
  - simpl. split; [by apply CoreSet_addEach_NoDup, CoreSet_add_NoDup|].
    split; [|done].
    pose proof (CoreSet_addEach_length (default [] (kvo_observed_keys o))
                  (CoreSet.add "*" (default [] (kvo_changes o)))).
    pose proof (CoreSet_add_length "*" (default [] (kvo_changes o))). lia.
  - destruct key as [k|]; [destruct (key_truthy (Some k))|]; simpl.
    + split; [by apply CoreSet_add_NoDup|]. split; [|done].
      pose proof (CoreSet_add_length k (default [] (kvo_changes o))). lia.
    + split; [done|]. split; [lia|done].
    + split; [done|]. split; [lia|done].
Qed.

(** The keys of a pass, and the state the fan-out starts from. *)
Lemma add_dependents_terminates fuel key o :
  changes_wf o -> pass_budget o <= fuel ->
  exists changes o',
    add_dependents fuel (begin_pass key o) = Some (changes, o')
    /\ expand_frame (snd (begin_pass key o)) o'
    /\ NoDup changes
    /\ (forall x, x ∈ fst (begin_pass key o) -> x ∈ changes)
    /\ (forall x, x ∈ changes -> x ∈ fst (begin_pass key o) \/ x ∈ dependent_keys_of o).
Proof.
  intros Hwf Hfuel.
  destruct (begin_pass_facts key o Hwf) as (Hnd & Hlen & _ & _ & _ & _ & _ & _ & _ & _ & _ & Hdep & _).
  unfold add_dependents. destruct (begin_pass key o) as [c0 o0] eqn:Hb. simpl in *.
  rewrite Hdep. destruct (kvo_dependents o) as [dm|] eqn:Hdm.
  - apply (expand_terminates fuel dm (dependent_keys_of o) c0); try done.
    + intros k deps d. by apply dependent_keys_of_spec.
    + intros x Hx. apply elem_of_app. by left.
    + rewrite length_app. unfold pass_budget in Hfuel. lia.
  - exists c0, o0. split; [done|]. split; [apply expand_frame_refl|]. split; [done|].
    split; [done|]. intros; by left.
Qed.

Lemma observers_callable_frame o o' :
  expand_frame o o' -> observers_callable o -> observers_callable o'.
Proof.
  intros (_ & Hp & Ho & Hl & _) (Hm & Hn & Hh). split; [|split].
  - intros key ms m. rewrite Ho. apply Hm.
  - intros key names name. rewrite Hl. intros Hk Hin Ht.
    destruct (Hp name) as [E|E]; rewrite E in *; [by eapply Hn|done].
  - intros Ht. destruct (Hp "propertyObserver") as [E|E]; rewrite E in *; [by apply Hh|done].
Qed.

Lemma observers_callable_begin key o :
  observers_callable o -> observers_callable (snd (begin_pass key o)).
Proof.
  intros H. unfold begin_pass. case_bool_decide; [exact H|].
  destruct key as [k|]; [destruct (key_truthy (Some k))|]; exact H.
Qed.

Lemma observers_callable_level n o :
  observers_callable o -> observers_callable (with_changeLevel n o).
Proof. intros H. exact H. Qed.

Lemma changes_wf_level n o : changes_wf o -> changes_wf (with_changeLevel n o).
Proof. intros H. exact H. Qed.

Lemma pop_order_NoDup changes : NoDup changes -> NoDup (pop_order changes).
Proof. unfold pop_order. by rewrite reverse_Permutation. Qed.

(** [pop] hands the keys out from the end of the set. *)
Lemma pop_order_pop changes k rest :
  CoreSet.pop changes = Some (k, rest) -> pop_order changes = k :: pop_order rest.
Proof.
  unfold CoreSet.pop, pop_order. destruct (reverse changes) as [|x r] eqn:E; [done|].
  intros [= -> <-]. by rewrite reverse_involutive.
Qed.

Lemma pop_order_snoc changes k : pop_order (changes ++ [k]) = k :: pop_order changes.
Proof. unfold pop_order. by rewrite reverse_app. Qed.

(** The closed form of one notification: the state it returns. *)
Lemma notify_closed_form (fuel : nat) (key : option string) (o : obj) :
  hub_observableInited o = true ->
  observers_callable o -> changes_wf o -> pass_budget o <= fuel ->
  has_pending o || key_truthy key = true ->
  exists changes o',
    add_dependents fuel
      (begin_pass key (with_changeLevel (kvo_changeLevel o + 1) o)) = Some (changes, o')
    /\ expand_frame (snd (begin_pass key (with_changeLevel (kvo_changeLevel o + 1) o))) o'
    /\ NoDup changes
    /\ (forall x, x ∈ fst (begin_pass key o) -> x ∈ changes)
    /\ notifyPropertyObservers fuel key o =
       Return (with_changeLevel (kvo_changeLevel o)
                 (emits (concat (map (key_events (star_present o) (S (propertyRevision o)) o')
                                     (pop_order changes)))
                    (with_observers (mark_keys (S (propertyRevision o)) (pop_order changes))
                       o'))).
Proof.
  intros Hinit Hcall Hwf Hfuel Hgo.
  set (o1 := with_changeLevel (kvo_changeLevel o + 1) o).
  destruct (add_dependents_terminates fuel key o1) as (changes & o' & Hadd & Hf & Hnd & Hsub & _);
    [done|done|].
  destruct (begin_pass_facts key o1 Hwf)
    as (_ & _ & Hself & Hprops & Hobs & Hloc & Htr & Hrev & Hprev & Hlev & Hch & _ & _).
  pose proof Hf as (Hself' & Hp' & Hobs' & Hloc' & Htr' & Hrev' & Hprev' & Hlev' & Hch' & _).
  exists changes, o'. split; [done|]. split; [done|]. split; [done|].
  split. { intros x Hx. apply Hsub. revert Hx. unfold begin_pass. simpl.
           case_bool_decide; [done|]. destruct key as [k|]; [|done].
           by destruct (key_truthy (Some k)). }
  unfold notifyPropertyObservers. rewrite Hinit. fold o1. fold (star_present o).
  assert (Hfuel3 : 3 <= fuel) by (unfold pass_budget in Hfuel; lia).
  destruct fuel as [|[|n]]; [lia|lia|].
  cbn [notify_loop].
  change (has_pending o1) with (has_pending o). rewrite Hgo.
  unfold notify_pass. rewrite Hadd.
  assert (Hc' : observers_callable o').
  { eapply observers_callable_frame; [exact Hf|by apply (observers_callable_begin key o1)]. }
  rewrite <- (emits_nil o') at 2.
  rewrite notify_keys_all by (try done; by apply pop_order_NoDup).
  cbn [bind app].
  assert (Hrev1 : propertyRevision o' = S (propertyRevision o)) by (by rewrite Hprev', Hprev).
  rewrite Hrev1.
  set (o2 := emits _ _).
  assert (has_pending o2 = false) as ->.
  { unfold has_pending, o2. simpl. by rewrite Hch', Hch. }
  simpl. f_equal.
  assert (kvo_changeLevel o' = kvo_changeLevel o + 1) as Hl by (by rewrite Hlev', Hlev).
  unfold with_changeLevel, o2. simpl. rewrite Hl.
  by replace (Nat.pred (kvo_changeLevel o + 1)) with (kvo_changeLevel o) by lia.
Qed.

(** With nothing pending and no key, a notification calls nobody. *)
Lemma notify_idle (fuel : nat) (key : option string) (o : obj) :
  hub_observableInited o = true -> 1 <= fuel ->
  has_pending o || key_truthy key = false ->
  notifyPropertyObservers fuel key o = Return o.
Proof.
  intros Hinit Hfuel Hgo. unfold notifyPropertyObservers. rewrite Hinit.
  destruct fuel as [|n]; [lia|]. cbn [notify_loop].
  change (has_pending (with_changeLevel _ o)) with (has_pending o). rewrite Hgo.
  simpl. f_equal. destruct o. unfold with_changeLevel. simpl. f_equal. lia.
Qed.

(** C4.  The calls one notification makes.  The keys of the pass are taken
    in the order [pop] hands them out, the last one added first; for each
    key the members of its observer set are called in the order of the
    snapshot, then its local observers, then the star observers (not for the
    key ['*']), then the [propertyObserver] hook. *)
Theorem fan_out_order (fuel : nat) (key : option string) (o : obj) :
  hub_observableInited o = true ->
  observers_callable o -> changes_wf o -> pass_budget o <= fuel ->
  has_pending o || key_truthy key = true ->
  exists changes o' o'',
    add_dependents fuel
      (begin_pass key (with_changeLevel (kvo_changeLevel o + 1) o)) = Some (changes, o')
    /\ notifyPropertyObservers fuel key o = Return o''
    /\ trace o'' =
       trace o ++
       concat (map (fun k =>
                      member_events o' k (S (propertyRevision o))
                        (default [] (kvo_observers o !! k))
                      ++ local_events o' k (S (propertyRevision o))
                           (default [] (kvo_local o !! k))
                      ++ (if star_present o && negb (bool_decide (k = "*"))
                          then star_events o' k (S (propertyRevision o))
                                 (default [] (kvo_observers o !! "*"))
                          else [])
                      ++ hook_events o' k (S (propertyRevision o)))
                   (pop_order changes)).
Proof.
  intros Hinit Hcall Hwf Hfuel Hgo.
  destruct (notify_closed_form fuel key o) as (changes & o' & Hadd & Hf & Hnd & _ & Hret);
    try done.
  eexists changes, o', _. split; [done|]. split; [exact Hret|].
  destruct (begin_pass_facts key (with_changeLevel (kvo_changeLevel o + 1) o) Hwf)
    as (_ & _ & _ & _ & Hobs & Hloc & Htr & _).
  destruct Hf as (_ & _ & Hobs' & Hloc' & Htr' & _).
  simpl. rewrite Htr', Htr. simpl. f_equal. f_equal.
  apply map_ext. intros k. unfold key_events.
  by rewrite Hobs', Hobs, Hloc', Hloc.
Qed.

(** ** Counting the calls of an observer *)

Lemma member_calls_app key tg me a b :
  member_calls key tg me (a ++ b) = member_calls key tg me a + member_calls key tg me b.
Proof. unfold member_calls. by rewrite filter_app, length_app. Qed.

Lemma member_calls_none key tg me evs :
  Forall (fun e => is_member_call key tg me e = false) evs ->
  member_calls key tg me evs = 0.
Proof.
  unfold member_calls. induction 1 as [|e evs He _ IH]; [done|].
  rewrite filter_cons. destruct (decide (is_member_call key tg me e = true)); [congruence|done].
Qed.

Lemma Forall_map_intro {A B} (P : B -> Prop) (f : A -> B) (l : list A) :
  (forall x, P (f x)) -> Forall P (map f l).
Proof. intros H. induction l; constructor; auto. Qed.

Lemma observer_args_key o key ctx rev :
  exists a rest, observer_args o key ctx rev = a :: VStr key :: rest.
Proof. unfold observer_args. destruct (negb _); eauto. Qed.


Lemma key_events_other_key starObservers rev o key K tg me :
  key ≠ K -> member_calls K tg me (key_events starObservers rev o key) = 0.
Proof.
  intros Hne. apply member_calls_none. unfold key_events.
  repeat apply Forall_app_2.
  - apply Forall_map_intro. intros m. simpl.
    destruct (observer_args_key o key (m_context m) rev) as (a & rest & ->).
    apply bool_decide_eq_false. intros (_ & _ & ?). done.
  - by apply Forall_map_intro.
  - destruct (starObservers && _); [|constructor].
    by apply Forall_map_intro.
  - unfold hook_events. destruct (truthy _); repeat constructor.
Qed.

Lemma key_events_same_key starObservers rev o K tg me :
  member_calls K tg me (key_events starObservers rev o K) =
  member_calls K tg me (member_events o K rev (default [] (kvo_observers o !! K))).
Proof.
  unfold key_events. rewrite !member_calls_app.
  set (L := local_events _ _ _ _).
  set (S := if starObservers && _ then _ else _).
  set (H := hook_events _ _ _).
  rewrite (member_calls_none K tg me L) by by apply Forall_map_intro.
  rewrite (member_calls_none K tg me S).
  2: { unfold S. destruct (starObservers && _); [|constructor]. by apply Forall_map_intro. }
  rewrite (member_calls_none K tg me H).
  2: { unfold H, hook_events. destruct (truthy _); repeat constructor. }
  lia.
Qed.

Lemma member_events_calls o K rev tg me ms :
  member_calls K tg me (member_events o K rev ms) =
  length (filter (fun m => (target_or_this o m, m_method m) = (tg, me))
                 (filter (fun m => m_last m ≠ Some rev) ms)).
Proof.
  unfold member_calls, member_events.
  induction (filter (fun m => m_last m ≠ Some rev) ms) as [|m l IH]; [done|].
  simpl. rewrite !filter_cons. simpl.
  destruct (observer_args_key o K (m_context m) rev) as (a & rest & ->).
  destruct (decide ((target_or_this o m, m_method m) = (tg, me))) as [E|E].
  - injection E as E1 E2.
    rewrite decide_True; [simpl; by rewrite IH|].
    apply bool_decide_eq_true. done.
  - rewrite decide_False; [done|].
    rewrite bool_decide_eq_true. intros (? & ? & _). apply E. congruence.
Qed.

Lemma NoDup_map_inj {A B} (f : A -> B) (l : list A) x y :
  NoDup (map f l) -> x ∈ l -> y ∈ l -> f x = f y -> x = y.
Proof.
  induction l as [|a l IH]; intros Hnd Hx Hy Hf; [by apply elem_of_nil in Hx|].
  simpl in Hnd. apply NoDup_cons in Hnd as [Ha Hnd].
  apply elem_of_cons in Hx as [->|Hx]; apply elem_of_cons in Hy as [->|Hy]; try done.
  - exfalso. apply Ha. rewrite Hf. apply list_elem_of_fmap. eauto.
  - exfalso. apply Ha. rewrite <- Hf. apply list_elem_of_fmap. eauto.
  - by apply IH.
Qed.

Lemma filter_none {A} (P : A -> Prop) `{forall x, Decision (P x)} (l : list A) :
  (forall x, x ∈ l -> ~ P x) -> filter P l = [].
Proof.
  induction l as [|a l IH]; intros Hl; [done|].
  rewrite filter_cons_False by (apply Hl; by left).
  apply IH. intros x Hx. apply Hl. by right.
Qed.

Lemma NoDup_map_count {A B} `{EqDecision B} (f : A -> B) (l : list A) (b : B) :
  NoDup (map f l) -> length (filter (fun x => f x = b) l) <= 1.
Proof.
  induction l as [|a l IH]; intros Hnd; [simpl; lia|].
  simpl in Hnd. apply NoDup_cons in Hnd as [Ha Hnd].
  rewrite filter_cons. destruct (decide (f a = b)) as [E|E]; [|by apply IH].
  simpl. assert (filter (fun x => f x = b) l = []) as ->; [|simpl; lia].
  apply filter_none.
  intros x Hx Hfx. apply Ha. rewrite E, <- Hfx. apply list_elem_of_fmap. eauto.
Qed.

Lemma NoDup_filter_sub {A} (P : A -> Prop) `{forall x, Decision (P x)} {B} (f : A -> B)
    (l : list A) :
  NoDup (map f l) -> NoDup (map f (filter P l)).
Proof.
  induction l as [|a l IH]; intros Hnd; [done|].
  simpl in Hnd. apply NoDup_cons in Hnd as [Ha Hnd].
  rewrite filter_cons. destruct (decide (P a)); [|by apply IH].
  simpl. apply NoDup_cons. split; [|by apply IH].
  intros Hin. apply Ha. apply list_elem_of_fmap in Hin as (x & -> & Hx).
  apply list_elem_of_fmap. exists x. split; [done|].
  by apply list_elem_of_filter in Hx as [_ ?].
Qed.

(** Within the calls of one pass, an observer of a key is called at most
    once. *)
Lemma pass_calls_at_most_once starObservers rev o keys K tg me :
  NoDup keys -> observer_sets_wf o ->
  member_calls K tg me (concat (map (key_events starObservers rev o) keys)) <= 1.
Proof.
  intros Hnd Hwf.
  assert (Hone : member_calls K tg me (key_events starObservers rev o K) <= 1).
  { rewrite key_events_same_key, member_events_calls.
    destruct (kvo_observers o !! K) as [ms|] eqn:Hk; [|simpl; lia]. simpl.
    apply (NoDup_map_count (fun m => (target_or_this o m, m_method m))).
    apply NoDup_filter_sub. by eapply Hwf. }
  induction keys as [|k keys IH]; [simpl; unfold member_calls; simpl; lia|].
  apply NoDup_cons in Hnd as [Hk Hnd]. simpl. rewrite member_calls_app.
  destruct (decide (k = K)) as [->|Hne].
  - assert (member_calls K tg me (concat (map (key_events starObservers rev o) keys)) = 0) as ->;
      [|lia].
    clear IH. induction keys as [|k' keys IH']; [done|].
    simpl. rewrite member_calls_app.
    apply not_elem_of_cons in Hk as [Hk Hk'].
    apply NoDup_cons in Hnd as [_ Hnd].
    rewrite key_events_other_key by done. by rewrite IH'.
  - rewrite key_events_other_key by done. by apply IH.
Qed.



Lemma member_calls_found key tg me e evs :
  e ∈ evs -> is_member_call key tg me e = true -> 1 <= member_calls key tg me evs.
Proof.
  intros Hin He. unfold member_calls.
  assert (e ∈ filter (fun e => is_member_call key tg me e = true) evs) as Hf
    by by apply list_elem_of_filter.
  destruct (filter _ evs); [by apply elem_of_nil in Hf|simpl; lia].
Qed.

(** A member that has not seen the revision, of a key of the pass, is
    called exactly once. *)
Lemma pass_calls_exactly_once starObservers rev o keys K ms m :
  NoDup keys -> observer_sets_wf o -> K ∈ keys ->
  kvo_observers o !! K = Some ms -> m ∈ ms -> m_last m ≠ Some rev ->
  member_calls K (target_or_this o m) (m_method m)
    (concat (map (key_events starObservers rev o) keys)) = 1.
Proof.
  intros Hnd Hwf HK Hk Hin Hlast.
  pose proof (pass_calls_at_most_once starObservers rev o keys K
                (target_or_this o m) (m_method m) Hnd Hwf) as Hle.
  assert (1 <= member_calls K (target_or_this o m) (m_method m)
                 (concat (map (key_events starObservers rev o) keys))); [|lia].
  apply (member_calls_found _ _ _
           (Fire PMember (m_method m) (target_or_this o m)
              (observer_args o K (m_context m) rev))).
  - apply list_elem_of_In, in_concat. exists (key_events starObservers rev o K).
    split.
    + apply list_elem_of_In, list_elem_of_fmap. by exists K.
    + apply list_elem_of_In. unfold key_events. apply elem_of_app. left.
      rewrite Hk. simpl. unfold member_events. apply list_elem_of_fmap.
      exists m. split; [done|]. by apply list_elem_of_filter.
  - simpl. destruct (observer_args_key o K (m_context m) rev) as (a & rest & ->).
    by apply bool_decide_eq_true.
Qed.

Lemma observer_sets_wf_frame o o' :
  self o' = self o -> kvo_observers o' = kvo_observers o ->
  observer_sets_wf o -> observer_sets_wf o'.
Proof.
  intros Hs Ho Hwf key ms. rewrite Ho. intros Hk.
  specialize (Hwf key ms Hk).
  erewrite map_ext; [exact Hwf|].
  intros m. unfold target_or_this. by rewrite Hs.
Qed.



(** ** What a notification leaves alone *)

Lemma post_bind (R : obj -> obj -> Prop) o r k :
  (forall a b c, R a b -> R b c -> R a c) ->
  post (R o) r -> (forall o1, R o o1 -> post (R o1) (k o1)) ->
  post (R o) (bind r k).
Proof.
  intros Htrans Hr Hk. unfold post in *.
  destruct r as [o1|e o1|]; simpl in *; [|done|done].
  specialize (Hk o1 Hr).
  destruct (final (k o1)); [|done]. by eapply Htrans.
Qed.

Lemma notify_keeps_refl o : notify_keeps o o.
Proof. by split. Qed.

Lemma notify_keeps_trans a b c : notify_keeps a b -> notify_keeps b c -> notify_keeps a c.
Proof. intros (?&?&?) (?&?&?). split; [congruence|]. split; [lia|congruence]. Qed.

Lemma computes_snoc_fire tr ph m t args :
  computes (tr ++ [Fire ph m t args]) = computes tr.
Proof. unfold computes. rewrite filter_app. simpl. by rewrite app_nil_r. Qed.

Lemma invoke_keeps ph m t args o : post (notify_keeps o) (invoke ph m t args o).
Proof.
  unfold invoke. destruct (callable m); simpl; [|apply notify_keeps_refl].
  split; [done|]. split; [done|]. apply computes_snoc_fire.
Qed.

Ltac keeps_step :=
  eapply post_bind; [exact notify_keeps_trans| |].

Lemma post_weaken (P Q : obj -> Prop) r : (forall o, P o -> Q o) -> post P r -> post Q r.
Proof. unfold post. destruct (final r); auto. Qed.

Lemma post_keeps_from o o1 r :
  notify_keeps o o1 -> post (notify_keeps o1) r -> post (notify_keeps o) r.
Proof. intros H. apply post_weaken. intros o2. by apply notify_keeps_trans. Qed.

Lemma notify_members_keeps key rev locs o :
  post (notify_keeps o) (notify_members key rev locs o).
Proof.
  revert o. induction locs as [|i locs IH]; intros o; simpl; [apply notify_keeps_refl|].
  destruct (default [] (kvo_observers o !! key) !! i) as [m|]; [|apply notify_keeps_refl].
  case_bool_decide; [apply IH|].
  keeps_step.
  - eapply post_keeps_from; [|apply invoke_keeps]. by split.
  - intros o1 _. apply IH.
Qed.

Lemma notify_locals_keeps key rev names o :
  post (notify_keeps o) (notify_locals key rev names o).
Proof.
  revert o. induction names as [|name names IH]; intros o; simpl; [apply notify_keeps_refl|].
  destruct (truthy (prop o name)); [|apply IH].
  keeps_step; [apply invoke_keeps|]. intros o1 _. apply IH.
Qed.

Lemma notify_star_keeps key rev ms o :
  post (notify_keeps o) (notify_star key rev ms o).
Proof.
  revert o. induction ms as [|m ms IH]; intros o; simpl; [apply notify_keeps_refl|].
  keeps_step; [apply invoke_keeps|]. intros o1 _. apply IH.
Qed.

Lemma notify_key_keeps starObservers rev key o :
  post (notify_keeps o) (notify_key starObservers rev key o).
Proof.
  unfold notify_key.
  keeps_step.
  { destruct (kvo_observers o !! key); [apply notify_members_keeps|apply notify_keeps_refl]. }
  intros o1 _. keeps_step.
  { destruct (kvo_local o1 !! key); [apply notify_locals_keeps|apply notify_keeps_refl]. }
  intros o2 _. keeps_step.
  { destruct (starObservers && _); [apply notify_star_keeps|apply notify_keeps_refl]. }
  intros o3 _. destruct (truthy _); [apply invoke_keeps|apply notify_keeps_refl].
Qed.

Lemma notify_keys_keeps starObservers rev keys o :
  post (notify_keeps o) (notify_keys starObservers rev keys o).
Proof.
  revert o. induction keys as [|k keys IH]; intros o; simpl; [apply notify_keeps_refl|].
  keeps_step; [apply notify_key_keeps|]. intros o1 _. apply IH.
Qed.

Lemma expand_frame_of n dm idx changes o changes' o' :
  expand n dm idx changes o = Some (changes', o') -> expand_frame o o'.
Proof.
  revert idx changes o. induction n as [|n IH]; intros idx changes o; [done|].
  simpl. destruct (changes !! idx) as [key|]; [|intros [= <- <-]; apply expand_frame_refl].
  destruct (dm !! key) as [[|k ks]|]; try apply IH.
  destruct (add_dependents_fold (reverse (k :: ks)) changes
              (with_cache (Some (default ∅ (kvo_cache o))) o)) as (Hf & _).
  destruct (foldl add_dependent _ _) as [c1 o1]. simpl in Hf.
  intros He. apply IH in He.
  eapply expand_frame_trans; [|exact He].
  eapply expand_frame_trans; [|exact Hf].
  repeat split; try done. by left.
Qed.

Lemma begin_pass_keeps key o : notify_keeps o (snd (begin_pass key o)).
Proof.
  unfold begin_pass, notify_keeps. case_bool_decide; simpl.
  - split; [done|]. split; [lia|done].
  - destruct key as [k|]; [destruct (key_truthy (Some k))|]; simpl;
      (split; [done|]; split; [lia|done]).
Qed.

Lemma notify_pass_keeps fuel starObservers key o :
  post (notify_keeps o) (notify_pass fuel starObservers key o).
Proof.
  unfold notify_pass, add_dependents.
  pose proof (begin_pass_keeps key o) as Hb.
  destruct (begin_pass key o) as [c0 o0]. simpl in *.
  destruct (kvo_dependents o0) as [dm|].
  - destruct (expand fuel dm 0 c0 o0) as [[c1 o1]|] eqn:He; [|done].
    apply expand_frame_of in He as (_ & _ & _ & _ & Htr & Hrev & Hprev & _).
    eapply post_keeps_from; [|apply notify_keys_keeps].
    destruct Hb as (?&?&?). split; [congruence|]. split; [lia|congruence].
  - eapply post_keeps_from; [exact Hb|apply notify_keys_keeps].
Qed.

Lemma notify_loop_keeps fuel n starObservers key o :
  post (notify_keeps o) (notify_loop fuel n starObservers key o).
Proof.
  revert key o. induction n as [|n IH]; intros key o; simpl; [done|].
  destruct (has_pending o || key_truthy key); [|apply notify_keeps_refl].
  keeps_step; [apply notify_pass_keeps|]. intros o1 _. apply IH.
Qed.

Lemma registerDependentKey_fields key deps o :
  kvo_revision (registerDependentKey key deps o) = kvo_revision o
  /\ propertyRevision (registerDependentKey key deps o) = propertyRevision o
  /\ trace (registerDependentKey key deps o) = trace o.
Proof. done. Qed.

Lemma initObservable_keeps o : notify_keeps o (initObservable o).
Proof.
  unfold initObservable. destruct (hub_observableInited o); [apply notify_keeps_refl|].
  destruct (hub_properties (with_inited true o)) as [keys|]; [|by split].
  assert (H : notify_keeps o (with_inited true o)) by by split.
  revert H. generalize (with_inited true o). induction keys as [|k keys IH]; intros o1 H; [done|].
  simpl. apply IH. eapply notify_keeps_trans; [exact H|].
  destruct (truthy (prop o1 k)); [|apply notify_keeps_refl].
  destruct (as_property (prop o1 k)) as [d|]; [|apply notify_keeps_refl].
  destruct (dependentKeys d); destruct (isCacheable d); by split.
Qed.

(** A notification keeps the revision of [propertyDidChange], calls no
    computed property, and never lowers the revision it hands out. *)
Lemma notifyPropertyObservers_keeps fuel key o :
  post (notify_keeps o) (notifyPropertyObservers fuel key o).
Proof.
  unfold notifyPropertyObservers.
  set (o1 := if hub_observableInited o then o else initObservable o).
  assert (H1 : notify_keeps o o1).
  { unfold o1. destruct (hub_observableInited o); [apply notify_keeps_refl|apply initObservable_keeps]. }
  eapply post_keeps_from; [exact H1|].
  keeps_step.
  - eapply post_keeps_from; [|apply notify_loop_keeps]. by split.
  - intros o2 _. simpl. by split.
Qed.

(** ** Cached dependents *)

Lemma addCachedDependents_loop_terminates recur this dm ks queue :
  (forall key dep deps q, key ∈ ks -> dm !! key = Some (dep :: deps) ->
                          is_Some (recur q (dep :: deps))) ->
  is_Some (addCachedDependents_loop recur this dm ks queue).
Proof.
  revert queue. induction ks as [|key ks IH]; intros queue Hrec; [by eexists|].
  cbn [addCachedDependents_loop].
  assert (Hrest : forall key0 dep deps q, key0 ∈ ks -> dm !! key0 = Some (dep :: deps) ->
                    is_Some (recur q (dep :: deps))).
  { intros key0 dep deps q Hin. apply Hrec. by right. }
  destruct (as_property (prop this key)) as [d|]; [|by apply IH].
  destruct (dm !! key) as [[|dep deps]|] eqn:Hd; [by apply IH| |by apply IH].
  destruct (Hrec key dep deps (if isCacheable d then queue ++ [d] else queue)) as [q Hq];
    [by left|done|].
  rewrite Hq. by apply IH.
Qed.

Lemma addCachedDependents_terminates (rank : string -> nat) n this dm queue keys :
  (forall k deps d, dm !! k = Some deps -> d ∈ deps -> rank d < rank k) ->
  (forall k, k ∈ keys -> rank k <= n) ->
  is_Some (addCachedDependents (S n) this dm queue keys).
Proof.
  intros Hrank. revert queue keys. induction n as [|n IH]; intros queue keys Hkeys;
    cbn [addCachedDependents]; apply addCachedDependents_loop_terminates;
    intros key dep deps q Hin Hd; rewrite elem_of_reverse in Hin;
    assert (rank dep < rank key) by (eapply Hrank; [exact Hd|by left]);
    specialize (Hkeys key Hin).
  - lia.
  - apply IH. intros k Hk. specialize (Hrank key _ k Hd Hk). lia.
Qed.

Lemma computeCachedDependentsFor_terminates (rank : string -> nat) fuel key o :
  dependents_ranked rank o -> rank key <= fuel ->
  is_Some (computeCachedDependentsFor fuel key o).
Proof.
  intros Hrank Hfuel. unfold computeCachedDependentsFor.
  destruct (kvo_dependents o) as [dm|] eqn:Hdm; [|by eexists].
  destruct (dm !! key) as [[|k ks]|] eqn:Hk; [by eexists| |by eexists].
  destruct fuel as [|n].
  { assert (rank k < rank key) by (eapply Hrank; [done|exact Hk|by left]). lia. }
  destruct (addCachedDependents_terminates rank n o dm [] (k :: ks)) as [q Hq].
  - intros a deps d. by apply Hrank.
  - intros a Ha. assert (rank a < rank key) by (eapply Hrank; [done|exact Hk|done]). lia.
  - cbn [from_option id]. rewrite Hq. destruct q; by eexists.
Qed.

Lemma computeCachedDependentsFor_state fuel key o r o1 :
  computeCachedDependentsFor fuel key o = Some (r, o1) ->
  exists cd, o1 = with_cachedep cd o.
Proof.
  unfold computeCachedDependentsFor.
  destruct (kvo_dependents o) as [dm|]; [|intros [= <- <-]; by eexists].
  destruct (dm !! key) as [[|k ks]|]; [intros [= <- <-]; by eexists| |intros [= <- <-]; by eexists].
  destruct (addCachedDependents _ _ _ _ _) as [[|q qs]|]; [| |done];
    intros [= <- <-]; by eexists.
Qed.

Lemma with_cachedep_cache c cd o :
  with_cache c (with_cachedep cd o) = with_cachedep cd (with_cache c o).
Proof. done. Qed.

(** Looking the cached dependents up and clearing them touches the cache and
    the memo, nothing else, and throws nothing. *)
Lemma clear_dependents_cache_only fuel key cache o :
  match clear_dependents fuel key cache o with
  | Return o1 => cache_only o o1
  | Throw _ _ => False
  | Diverge => True
  end.
Proof.
  unfold clear_dependents.
  destruct (match kvo_cachedep o with Some cd => cd !! key | None => None end) as [memo|].
  - destruct memo as [cachedep|].
    + exists (Some (clear_cached cachedep cache)), (kvo_cachedep o). by destruct o.
    + exists (kvo_cache o), (kvo_cachedep o). by destruct o.
  - destruct (computeCachedDependentsFor fuel key o) as [[r o1]|] eqn:Hc; [|done].
    apply computeCachedDependentsFor_state in Hc as [cd ->].
    destruct r as [cachedep|].
    + by exists (Some (clear_cached cachedep cache)), cd.
    + exists (kvo_cache o), cd. by destruct o.
Qed.

Lemma clear_dependents_terminates (rank : string -> nat) fuel key cache o :
  dependents_ranked rank o -> rank key <= fuel ->
  exists o1, clear_dependents fuel key cache o = Return o1.
Proof.
  intros Hrank Hfuel. unfold clear_dependents.
  destruct (match kvo_cachedep o with Some cd => cd !! key | None => None end) as [memo|].
  - destruct memo; by eexists.
  - destruct (computeCachedDependentsFor_terminates rank fuel key o) as [[r o1] ->]; [done..|].
    destruct r; by eexists.
Qed.

Lemma invalidate_dependents_cache_only fuel key o :
  match invalidate_dependents fuel key o with
  | Return o1 => cache_only o o1
  | Throw _ _ => False
  | Diverge => True
  end.
Proof.
  unfold invalidate_dependents.
  destruct (kvo_cache o) as [cache|] eqn:Hc.
  - destruct (kvo_cacheable o); [apply clear_dependents_cache_only|].
    exists (kvo_cache o), (kvo_cachedep o). by destruct o.
  - exists (kvo_cache o), (kvo_cachedep o). by destruct o.
Qed.

Lemma invalidate_dependents_terminates (rank : string -> nat) fuel key o :
  dependents_ranked rank o -> rank key <= fuel ->
  exists o1, invalidate_dependents fuel key o = Return o1.
Proof.
  intros Hrank Hfuel. unfold invalidate_dependents.
  destruct (kvo_cache o) as [cache|]; [|by eexists].
  destruct (kvo_cacheable o); [|by eexists].
  by eapply clear_dependents_terminates.
Qed.

(** ** propertyDidChange *)

Lemma cache_only_refl o : cache_only o o.
Proof. exists (kvo_cache o), (kvo_cachedep o). by destruct o. Qed.

Lemma cache_only_with_cache c o o1 : cache_only (with_cache c o) o1 -> cache_only o o1.
Proof. intros (c' & cd & ->). by exists c', cd. Qed.

Lemma propertyDidChange_unfold fuel suspended key v keep o :
  exists r,
    (match r with
     | Return o1 => counted o o1
     | Throw _ _ => False
     | Diverge => True
     end)
    /\ propertyDidChange fuel suspended key v keep o =
       bind r (fun o1 =>
         if bool_decide (0 < kvo_changeLevel o) || suspended then
           let o2 := with_changes
                       (Some (CoreSet.add key (default CoreSet.create (kvo_changes o1)))) o1 in
           Return (if suspended then with_queue_pending true o2 else o2)
         else notifyPropertyObservers fuel (Some key) o1).
Proof.
  unfold propertyDidChange.
  match goal with |- context [bind ?r _] => exists r end.
  split; [|done]. unfold counted.
  set (o0 := with_revision (kvo_revision o + 1) o).
  destruct (kvo_cache o0) as [cache|]; [|apply cache_only_refl].
  destruct (kvo_cacheable o0); [|apply cache_only_refl].
  match goal with |- context [clear_dependents fuel key ?c ?x] =>
    pose proof (clear_dependents_cache_only fuel key c x) as H;
    destruct (clear_dependents fuel key c x) end; [|done|done].
  by eapply cache_only_with_cache.
Qed.

(** [propertyDidChange] counts one revision, whatever follows. *)
Lemma propertyDidChange_counts fuel suspended key v keep o :
  post (fun o' => kvo_revision o' = kvo_revision o + 1
                  /\ propertyRevision o <= propertyRevision o'
                  /\ computes (trace o') = computes (trace o))
       (propertyDidChange fuel suspended key v keep o).
Proof.
  destruct (propertyDidChange_unfold fuel suspended key v keep o) as (r & Hr & ->).
  destruct r as [o1|e o1|]; [|done|done]. cbn [bind].
  destruct Hr as (c & cd & ->).
  destruct (bool_decide (0 < kvo_changeLevel o) || suspended).
  - unfold post. simpl. destruct suspended; simpl; (split; [done|]; split; [lia|done]).
  - eapply post_weaken; [|apply notifyPropertyObservers_keeps].
    intros o' (H1 & H2 & H3). simpl in *. done.
Qed.

(** ** set *)

Section SetFacts.
Variable body : nat -> gmap string value -> string -> value -> value.
Variable fuel : nat.
Variable suspended : bool.

Lemma get_plain key o :
  as_property (prop o key) = None -> get body key o = (prop o key, o).
Proof.
  intros Hp. unfold get, unknownProperty. rewrite Hp.
  destruct (strict_eq (prop o key) VUndefined) eqn:E; [|done].
  apply strict_eq_true in E. rewrite E. by rewrite strict_eq_refl.
Qed.




End SetFacts.

(** ** The revision counters *)



Lemma post_return (P : obj -> Prop) o : P o -> post P (Return o).
Proof. done. Qed.



Section RevisionFacts.
Variable body : nat -> gmap string value -> string -> value -> value.
Variable others : gmap nat (gmap string value).
Variable fuel : nat.












End RevisionFacts.

(** ** Grouped property changes *)

Lemma deferred_refl o : deferred 0 o o.
Proof. repeat split; try done. lia. Qed.

Lemma deferred_trans n m a b c : deferred n a b -> deferred m b c -> deferred (n + m) a c.
Proof.
  intros (?&?&?&?&?&?&?&?&Hs1&Hn1&?) (?&?&?&?&?&?&?&?&Hs2&Hn2&?).
  repeat split; try congruence; [auto|auto|lia].
Qed.

Lemma deferred_weaken n m a b : n <= m -> deferred n a b -> deferred m a b.
Proof. intros ? (?&?&?&?&?&?&?&?&?&?&?). repeat split; try done. lia. Qed.

Lemma fires_snoc_compute tr d key arg : fires (tr ++ [Compute d key arg]) = fires tr.
Proof. unfold fires. rewrite filter_app. simpl. by rewrite app_nil_r. Qed.

Lemma dependents_ranked_frame rank o o' :
  kvo_dependents o' = kvo_dependents o -> dependents_ranked rank o -> dependents_ranked rank o'.
Proof. intros H Hr dm k deps d. rewrite H. apply Hr. Qed.

Lemma propertyDidChange_block_returns fuel (rank : string -> nat) key keep o :
  dependents_ranked rank o -> rank key <= fuel ->
  exists o1,
    counted o o1
    /\ forall suspended v,
         propertyDidChange fuel suspended key v keep o =
         (if bool_decide (0 < kvo_changeLevel o) || suspended then
            let o2 := with_changes
                        (Some (CoreSet.add key (default CoreSet.create (kvo_changes o1)))) o1 in
            Return (if suspended then with_queue_pending true o2 else o2)
          else notifyPropertyObservers fuel (Some key) o1).
Proof.
  intros Hrank Hfuel. unfold propertyDidChange, counted.
  set (o0 := with_revision (kvo_revision o + 1) o).
  destruct (kvo_cache o0) as [cache|] eqn:Hc;
    [|exists o0; split; [apply cache_only_refl|done]].
  destruct (kvo_cacheable o0) eqn:Hcb;
    [|exists o0; split; [apply cache_only_refl|done]].
  match goal with |- context [clear_dependents fuel key ?c ?x] =>
    pose proof (clear_dependents_cache_only fuel key c x) as H;
    destruct (clear_dependents_terminates rank fuel key c x) as [o1 Ho1]; [done|done|];
    rewrite Ho1 in H end.
  exists o1. split; [by eapply cache_only_with_cache|].
  intros suspended v. by rewrite Ho1.
Qed.

Lemma propertyDidChange_deferred fuel (rank : string -> nat) key v keep o :
  0 < kvo_changeLevel o -> dependents_ranked rank o -> rank key <= fuel ->
  exists o',
    propertyDidChange fuel false key v keep o = Return o'
    /\ deferred 1 o o'
    /\ key ∈ pending_keys o'.
Proof.
  intros Hlevel Hrank Hfuel.
  destruct (propertyDidChange_block_returns fuel rank key keep o Hrank Hfuel)
    as (o1 & (c & cd & ->) & Heq).
  rewrite Heq. rewrite bool_decide_eq_true_2 by done. simpl.
  eexists. split; [done|]. unfold deferred, pending_keys, CoreSet.create. simpl. split.
  - repeat split; try done.
    + intros x Hx. apply CoreSet_add_elem. by left.
    + apply CoreSet_add_NoDup.
    + pose proof (CoreSet_add_length key (default [] (kvo_changes o))). lia.
  - apply CoreSet_add_elem. by right.
Qed.

Ltac deferred_done :=
  unfold deferred, pending_keys; simpl; repeat split;
  try done; try (by rewrite fires_snoc_compute); try lia.

Section BracketFacts.
Variable body : nat -> gmap string value -> string -> value -> value.
Variable others : gmap nat (gmap string value).
Variable fuel : nat.
Variable rank : string -> nat.

(** Inside a group, [set] queues the key it changes and calls no
    observer. *)
Lemma set_deferred key v o :
  0 < kvo_changeLevel o -> dependents_ranked rank o -> rank key <= fuel ->
  exists o',
    set body fuel false key v o = Return o'
    /\ deferred 1 o o'
    /\ (changes_value o key v -> key ∈ pending_keys o').
Proof.
  intros Hlevel Hrank Hfuel. unfold set.
  pose proof (invalidate_dependents_cache_only fuel key o) as Hi.
  destruct (invalidate_dependents_terminates rank fuel key o Hrank Hfuel) as [o1 Ho1].
  rewrite Ho1 in *. destruct Hi as (c & cd & ->). cbn [bind]. clear Ho1.
  set (o1 := with_cachedep cd (with_cache c o)).
  assert (H01 : deferred 0 o o1) by deferred_done.
  unfold assign, automaticallyNotifiesObserversFor, propertyWillChange,
    call_property, unknownProperty.
  destruct (as_property (prop o key)) as [d|] eqn:Hd.
  - destruct (must_call d v o1).
    + set (o5 := if isCacheable d then _ else _).
      assert (H15 : deferred 0 o1 o5).
      { unfold o5. destruct (isCacheable d); deferred_done. }
      destruct (propertyDidChange_deferred fuel rank key
                  (body (fn d) (props (with_cache
                     (Some (<[jskey (lastSetValueKey d):=v]> (default ∅ (kvo_cache o1)))) o1))
                     key (default VUndefined (Some v))) true o5)
        as (o' & Hret & Hdef & Hin).
      { unfold o5. by destruct (isCacheable d). }
      { unfold o5. by destruct (isCacheable d). }
      { done. }
      exists o'. split; [exact Hret|]. split.
      * apply (deferred_trans 0 1 o o5 o'); [|done].
        apply (deferred_trans 0 0 o o1 o5); done.
      * intros _. exact Hin.
    + exists o1. split; [done|]. split; [by eapply deferred_weaken; [|exact H01]; lia|].
      intros [Hu|[Hn _]]; [|congruence].
      rewrite Hu in Hd. done.
  - destruct (strict_eq (prop o key) VUndefined) eqn:Hundef.
    + set (o3 := if negb (strict_eq v VUndefined) then _ else o1).
      assert (H13 : deferred 0 o1 o3).
      { unfold o3. destruct (negb _); deferred_done. }
      destruct (propertyDidChange_deferred fuel rank key v false o3) as (o' & Hret & Hdef & Hin).
      { unfold o3. by destruct (negb _). }
      { unfold o3. by destruct (negb _). }
      { done. }
      exists o'. split; [exact Hret|]. split.
      * apply (deferred_trans 0 1 o o3 o'); [|done].
        apply (deferred_trans 0 0 o o1 o3); done.
      * intros _. exact Hin.
    + change (prop o1 key) with (prop o key).
      destruct (strict_eq (prop o key) v) eqn:Hsame; simpl.
      * exists o1. split; [done|]. split; [by eapply deferred_weaken; [|exact H01]; lia|].
        apply strict_eq_true in Hsame. apply strict_eq_false in Hundef.
        intros [Hu|[_ Hn]]; done.
      * destruct (propertyDidChange_deferred fuel rank key v false
                    (with_props <[key:=v]> o1)) as (o' & Hret & Hdef & Hin); [done..|].
        exists o'. split; [exact Hret|]. split.
        -- apply (deferred_trans 0 1 o (with_props <[key:=v]> o1) o'); [|done].
           deferred_done.
        -- intros _. exact Hin.
Qed.

(** The calls of [set] of a group, one after the other. *)
Lemma sets_deferred sets o :
  0 < kvo_changeLevel o -> dependents_ranked rank o ->
  (forall kv, kv ∈ sets -> rank (fst kv) <= fuel) ->
  exists o',
    run_ops body others fuel (set_calls sets) o = Return o'
    /\ deferred (length sets) o o'
    /\ (forall K v rest, sets = (K, v) :: rest -> changes_value o K v ->
          K ∈ pending_keys o').
Proof.
  revert o. induction sets as [|[k v] sets IH]; intros o Hlevel Hrank Hfuel.
  - exists o. split; [done|]. split; [apply deferred_refl|]. intros; done.
  - destruct (set_deferred k v o) as (o1 & Hret & Hdef & Hin); [done|done|..].
    { apply (Hfuel (k, v)). by left. }
    pose proof Hdef as (_ & _ & _ & Hdm & _ & Hl & _ & _ & Hsub & _).
    destruct (IH o1) as (o' & Hret' & Hdef' & _).
    { by rewrite Hl. }
    { by eapply dependents_ranked_frame. }
    { intros kv Hkv. apply Hfuel. by right. }
    exists o'. split; [|split].
    + simpl. change (run_op body others fuel false (OSet k v) o)
        with (set body fuel false k v o).
      rewrite Hret. exact Hret'.
    + apply (deferred_trans 1 (length sets) o o1 o'); done.
    + intros K v0 rest [= -> -> ->] Hch.
      destruct Hdef' as (_ & _ & _ & _ & _ & _ & _ & _ & Hsub' & _).
      by apply Hsub', Hin.
Qed.

End BracketFacts.

Lemma bind_return r : bind r Return = r.
Proof. by destruct r. Qed.

Lemma bind_assoc r k1 k2 : bind (bind r k1) k2 = bind r (fun o => bind (k1 o) k2).
Proof. by destruct r. Qed.

Lemma run_ops_app body others fuel cs1 cs2 o :
  run_ops body others fuel (cs1 ++ cs2) o =
  bind (run_ops body others fuel cs1 o) (run_ops body others fuel cs2).
Proof.
  revert o. induction cs1 as [|[s c] cs1 IH]; intros o; [done|].
  simpl. rewrite bind_assoc. destruct (run_op body others fuel s c o); simpl; auto.
Qed.


Lemma dependent_keys_of_frame o o' :
  kvo_dependents o' = kvo_dependents o -> dependent_keys_of o' = dependent_keys_of o.
Proof. unfold dependent_keys_of. by intros ->. Qed.

Section Coalescence.
Variable body : nat -> gmap string value -> string -> value -> value.
Variable others : gmap nat (gmap string value).
Variable fuel : nat.
Variable rank : string -> nat.


End Coalescence.




(** ** Observers *)

Section ObserverFacts.
Variable body : nat -> gmap string value -> string -> value -> value.
Variable others : gmap nat (gmap string value).


(** A method that is present is not refused, function or not. *)
Lemma present_method_accepted key target method context o :
  truthy (snd (normalize others o target method)) = true ->
  addObserver body others key target method context o <> Throw no_method o
  /\ removeObserver others key target method o <> Throw no_method o.
Proof.
  intros Hm. unfold addObserver, removeObserver.
  destruct (normalize others o target method) as [tg me]. simpl in Hm.
  rewrite Hm. cbn [negb]. unfold no_method, invoke.
  split; cbv zeta; repeat case_match; by intros [=].
Qed.

End ObserverFacts.

(** ** The store and its editing contexts *)

Section StoreFacts.
Import Store.

Lemma put_lookup {A} sk (x : option A) (m : gmap nat A) : put sk x m !! sk = x.
Proof.
  unfold put. destruct x; [apply lookup_insert_eq|apply lookup_delete_eq].
Qed.

Lemma mark_editable_state sk c : storeKeyEditState (mark_editable sk c) sk = EDITABLE.
Proof.
  unfold storeKeyEditState, is_editable, mark_editable. simpl.
  rewrite bool_decide_eq_true_2; [done|]. set_solver.
Qed.

Lemma owner_here n w id sk c :
  w !! id = Some c -> storeKeyEditState c sk <> INHERITED ->
  owner (S n) w id sk = Some c.
Proof.
  intros Hc Hs. simpl. rewrite Hc. by destruct (storeKeyEditState c sk).
Qed.

Lemma owner_up n w id sk c p :
  w !! id = Some c -> storeKeyEditState c sk = INHERITED -> parentStore c = Some p ->
  owner (S n) w id sk = owner n w p sk.
Proof. intros Hc Hs Hp. simpl. by rewrite Hc, Hs, Hp. Qed.

Lemma written_context w id sk h st c :
  w !! id = Some c ->
  exists c',
    snd (writeDataHash w id sk h st) !! id = Some c'
    /\ (forall j, j <> id -> snd (writeDataHash w id sk h st) !! j = w !! j)
    /\ storeKeyEditState c' sk = EDITABLE
    /\ dataHashes c' !! sk = Some h
    /\ statuses c' !! sk = match st with Some s => Some s | None => readStatus w id sk end
    /\ revisions c' !! sk = revisionOf w id sk.
Proof.
  intros Hc. unfold writeDataHash. rewrite Hc. simpl.
  eexists. split.
  { apply list_lookup_insert_eq. by eapply lookup_lt_Some. }
  split. { intros j Hj. by apply list_lookup_insert_ne. }
  split; [apply mark_editable_state|]. simpl.
  split; [apply lookup_insert_eq|].
  split; [|apply put_lookup].
  destruct st; [apply lookup_insert_eq|apply put_lookup].
Qed.

(** C8.  [writeDataHash] returns the receiver; afterwards [readDataHash]
    gives the hash written, the edit state is [EDITABLE], the status is the
    one given when one is given and the former one otherwise, and the
    revision of the StoreKey is what it was. *)
Theorem writeDataHash_effect (w : list context) (id sk : nat) (h : gmap string value)
    (st : option status) (c : context) :
  w !! id = Some c ->
  fst (writeDataHash w id sk h st) = id
  /\ fst (readDataHash (snd (writeDataHash w id sk h st)) id sk) = Some h
  /\ (exists c', snd (writeDataHash w id sk h st) !! id = Some c'
                 /\ storeKeyEditState c' sk = EDITABLE)
  /\ readStatus (snd (writeDataHash w id sk h st)) id sk =
     match st with Some s => Some s | None => readStatus w id sk end
  /\ revisionOf (snd (writeDataHash w id sk h st)) id sk = revisionOf w id sk.
Proof.
  intros Hc.
  destruct (written_context w id sk h st c Hc) as (c' & Hc' & _ & Hst & Hh & Hs & Hr).
  split. { unfold writeDataHash. by rewrite Hc. }
  split. { unfold readDataHash. rewrite Hc', Hst. exact Hh. }
  split. { by exists c'. }
  assert (Hres : resolve (snd (writeDataHash w id sk h st)) id sk = Some c').
  { unfold resolve. apply owner_here; [done|]. by rewrite Hst. }
  unfold readStatus, revisionOf. rewrite Hres. simpl. by split.
Qed.

(** C1.  A write in a parent store and what a child editing context reads
    afterwards: a child whose edit state for the StoreKey is [INHERITED]
    reads the hash just written; a child whose state is [LOCKED] or
    [EDITABLE] reads what it read before.  So the write changes what the
    child reads only if the child's state is [INHERITED], and it does
    change it then, unless the hash written is the one the child saw. *)
Theorem parent_write_reaches_inherited_child (w : list context) (p c sk : nat)
    (h : gmap string value) (st : option status) (pc cc : context) :
  w !! p = Some pc -> w !! c = Some cc -> parentStore cc = Some p -> p < c ->
  let w' := snd (writeDataHash w p sk h st) in
  (storeKeyEditState cc sk = INHERITED -> fst (readDataHash w' c sk) = Some h)
  /\ (storeKeyEditState cc sk <> INHERITED ->
      fst (readDataHash w' c sk) = fst (readDataHash w c sk))
  /\ (fst (readDataHash w' c sk) <> fst (readDataHash w c sk) <->
      storeKeyEditState cc sk = INHERITED /\ fst (readDataHash w c sk) <> Some h).
Proof.
  intros Hp Hc Hparent Hlt w'.
  destruct (written_context w p sk h st pc Hp) as (pc' & Hp' & Hother & Hst & Hh & _).
  fold w' in Hp', Hother.
  assert (Hc' : w' !! c = Some cc) by (rewrite Hother; [done|lia]).
  assert (Hinh : storeKeyEditState cc sk = INHERITED -> fst (readDataHash w' c sk) = Some h).
  { intros Hs. unfold readDataHash. rewrite Hc', Hs. simpl.
    unfold peekDataHash, resolve. destruct c as [|c0]; [lia|].
    rewrite (owner_up (S c0) w' (S c0) sk cc p) by done.
    rewrite (owner_here c0 w' p sk pc'); [done|done|]. by rewrite Hst. }
  assert (Hkeep : storeKeyEditState cc sk <> INHERITED ->
                  fst (readDataHash w' c sk) = fst (readDataHash w c sk)).
  { intros Hs. unfold readDataHash. rewrite Hc', Hc.
    by destruct (storeKeyEditState cc sk). }
  split; [exact Hinh|]. split; [exact Hkeep|]. split.
  - intros Hne. destruct (decide (storeKeyEditState cc sk = INHERITED)) as [Hs|Hs].
    + split; [done|]. intros Heq. apply Hne. by rewrite Hinh, Heq.
    + exfalso. apply Hne. by apply Hkeep.
  - intros [Hs Hne]. rewrite Hinh by done. intros Heq. apply Hne. by rewrite <- Heq.
Qed.

End StoreFacts.

(** * The sample objects *)

Lemma observers_callable_intro o :
  map_Forall (fun _ ms => Forall (fun m => callable (m_method m) = true) ms)
             (kvo_observers o) ->
  map_Forall (fun _ names =>
                Forall (fun name => implb (truthy (prop o name))
                                          (callable (prop o name)) = true) names)
             (kvo_local o) ->
  (truthy (prop o "propertyObserver") = true ->
   callable (prop o "propertyObserver") = true) ->
  observers_callable o.
Proof.
  intros Hm Hl Hh. split; [|split; [|exact Hh]].
  - intros key ms m Hk Hin. specialize (Hm key ms Hk). simpl in Hm.
    rewrite Forall_forall in Hm. by apply Hm.
  - intros key names name Hk Hin Ht. specialize (Hl key names Hk). simpl in Hl.
    rewrite Forall_forall in Hl. specialize (Hl name Hin). by rewrite Ht in Hl.
Defined.

Lemma observer_sets_wf_intro o :
  map_Forall (fun _ ms => NoDup (map (fun m => (target_or_this o m, m_method m)) ms))
             (kvo_observers o) ->
  observer_sets_wf o.
Proof. intros H key ms Hk. exact (H key ms Hk). Defined.

Lemma dependents_ranked_intro (rank : string -> nat) o :
  (forall dm, kvo_dependents o = Some dm ->
     map_Forall (fun k deps => Forall (fun d => rank d < rank k) deps) dm) ->
  dependents_ranked rank o.
Proof.
  intros H dm k deps d Hdm Hk Hin. specialize (H dm Hdm k deps Hk). simpl in H.
  rewrite Forall_forall in H. by apply H.
Defined.

Lemma person_callable : observers_callable Sample.person.
Proof.
  apply observers_callable_intro.
  - apply (bool_decide_unpack _). vm_compute. exact I.
  - apply (bool_decide_unpack _). vm_compute. exact I.
  - vm_compute. discriminate.
Defined.


Lemma person_changes_wf : changes_wf Sample.person.
Proof. apply (bool_decide_unpack _). vm_compute. exact I. Defined.

Lemma person_ranked : dependents_ranked Sample.rank Sample.person.
Proof.
  apply dependents_ranked_intro. intros dm [= <-].
  apply (bool_decide_unpack _). vm_compute. exact I.
Defined.

(** ** The statements at the sample objects *)

Lemma get_caches_only_defined_witness :
  (prop Sample.person "nothing" = VProp Sample.nothing
   /\ isCacheable Sample.nothing = true
   /\ cache_slot Sample.nothing Sample.person = VUndefined)
  /\ fst (get_times Sample.body 3 "nothing" Sample.person) = replicate 3 VUndefined
  /\ trace (snd (get_times Sample.body 3 "nothing" Sample.person)) =
     trace Sample.person ++ replicate 3 (Compute Sample.nothing "nothing" None).
Proof.
  split; [repeat split; reflexivity|].
  destruct (get_caches_only_defined Sample.body 2 "nothing" Sample.nothing Sample.person)
    as (Hv & Ht & _); [reflexivity..|].
  split; [exact Hv|exact Ht].
Defined.







Lemma fan_out_order_witness :
  (hub_observableInited Sample.person = true
   /\ observers_callable Sample.person /\ changes_wf Sample.person
   /\ pass_budget Sample.person <= 50
   /\ has_pending Sample.person || key_truthy (Some "first") = true)
  /\ exists o'',
       notifyPropertyObservers 50 (Some "first") Sample.person = Return o''
       /\ trace o'' =
          [Fire PStar (VFunc 12) (VObj 7) [VObj 7; VStr "fullName"; VNull; VNum 2];
           Fire PStar (VFunc 12) (VObj 7) [VObj 7; VStr "first"; VNull; VNum 2]].
Proof.
  assert (Hb : pass_budget Sample.person <= 50) by (vm_compute; lia).
  split.
  - split; [reflexivity|]. split; [exact person_callable|].
    split; [exact person_changes_wf|]. split; [exact Hb|reflexivity].
  - destruct (fan_out_order 50 (Some "first") Sample.person)
      as (changes & o' & o'' & Hadd & Hret & Htr).
    + reflexivity.
    + exact person_callable.
    + exact person_changes_wf.
    + exact Hb.
    + reflexivity.
    + exists o''. split; [exact Hret|]. rewrite Htr.
      vm_compute in Hadd. injection Hadd as <- <-. vm_compute. reflexivity.
Defined.



Lemma writeDataHash_effect_witness :
  Sample.stores !! 0 = Some Sample.root
  /\ fst (Store.writeDataHash Sample.stores 0 Sample.storeKey Sample.json2
            (Some Store.READY_NEW)) = 0
  /\ fst (Store.readDataHash
            (snd (Store.writeDataHash Sample.stores 0 Sample.storeKey Sample.json2
                    (Some Store.READY_NEW))) 0 Sample.storeKey) = Some Sample.json2
  /\ Store.revisionOf
       (snd (Store.writeDataHash Sample.stores 0 Sample.storeKey Sample.json2
               (Some Store.READY_NEW))) 0 Sample.storeKey
     = Store.revisionOf Sample.stores 0 Sample.storeKey.
Proof.
  split; [reflexivity|].
  destruct (writeDataHash_effect Sample.stores 0 Sample.storeKey Sample.json2
              (Some Store.READY_NEW) Sample.root) as (H1 & H2 & _ & _ & H5);
    [reflexivity|].
  split; [exact H1|]. split; [exact H2|exact H5].
Defined.

Lemma parent_write_reaches_inherited_child_witness :
  (Sample.stores !! 0 = Some Sample.root /\ Sample.stores !! 1 = Some Sample.child
   /\ Store.parentStore Sample.child = Some 0 /\ 0 < 1
   /\ Store.storeKeyEditState Sample.child Sample.storeKey = Store.INHERITED)
  /\ fst (Store.readDataHash
            (snd (Store.writeDataHash Sample.stores 0 Sample.storeKey Sample.json2
                    (Some Store.READY_NEW))) 1 Sample.storeKey) = Some Sample.json2.
Proof.
  split; [repeat split; try reflexivity; lia|].
  destruct (parent_write_reaches_inherited_child Sample.stores 0 1 Sample.storeKey
              Sample.json2 (Some Store.READY_NEW) Sample.root Sample.child)
    as (Hinh & _); [reflexivity|reflexivity|reflexivity|lia|].
  apply Hinh. reflexivity.
Defined.

(** ** The tests of [writeDataHash], replayed on the model *)

(** "edit state=LOCKED - also writes a NEW hash", on a fresh root store. *)
Example store_write_from_locked :
  let w0 := [Store.create] in
  let w1 := snd (Store.writeDataHash w0 0 Sample.storeKey Sample.json2
                   (Some Store.READY_NEW)) in
  Store.editStateOf w0 0 Sample.storeKey = Some Store.LOCKED
  /\ Store.editStateOf w1 0 Sample.storeKey = Some Store.EDITABLE
  /\ fst (Store.readDataHash w1 0 Sample.storeKey) = Some Sample.json2
  /\ Store.readStatus w1 0 Sample.storeKey = Some Store.READY_NEW
  /\ Store.revisionOf w1 0 Sample.storeKey = Store.revisionOf w0 0 Sample.storeKey.
Proof. repeat split; reflexivity. Qed.

(** "change should propogate to child if child edit state = INHERITED" *)
Example store_child_inherited :
  let '(child, w0) := Store.createEditingContext [Store.create] 0 in
  let w1 := snd (Store.writeDataHash w0 0 Sample.storeKey Sample.json2
                   (Some Store.READY_NEW)) in
  Store.editStateOf w0 child Sample.storeKey = Some Store.INHERITED
  /\ fst (Store.readDataHash w1 child Sample.storeKey) = Some Sample.json2
  /\ Store.readStatus w1 child Sample.storeKey = Some Store.READY_NEW.
Proof. repeat split; reflexivity. Qed.

(** "change should not propogate to child if child edit state = LOCKED" *)
Example store_child_locked :
  let w1 := snd (Store.readDataHash Sample.stores 1 Sample.storeKey) in
  let w2 := snd (Store.writeDataHash w1 0 Sample.storeKey Sample.json2
                   (Some Store.READY_NEW)) in
  Store.editStateOf w1 1 Sample.storeKey = Some Store.LOCKED
  /\ fst (Store.readDataHash w2 1 Sample.storeKey) = Some Sample.json
  /\ Store.readStatus w2 1 Sample.storeKey = Some Store.READY_CLEAN
  /\ fst (Store.readDataHash w2 0 Sample.storeKey) = Some Sample.json2.
Proof. repeat split; reflexivity. Qed.

(** "change should not propogate to child if child edit state = EDITABLE" *)
Example store_child_editable :
  let w1 := snd (Store.readEditableDataHash Sample.stores 1 Sample.storeKey) in
  let w2 := snd (Store.writeDataHash w1 0 Sample.storeKey Sample.json2
                   (Some Store.READY_NEW)) in
  Store.editStateOf w1 1 Sample.storeKey = Some Store.EDITABLE
  /\ fst (Store.readDataHash w2 1 Sample.storeKey) = Some Sample.json
  /\ Store.readStatus w2 1 Sample.storeKey = Some Store.READY_CLEAN
  /\ fst (Store.readDataHash w2 0 Sample.storeKey) = Some Sample.json2.
Proof. repeat split; reflexivity. Qed.

(** ** The edges of the statements *)

(** On a key the object does not hold, [set] goes through
    [unknownProperty] and announces the change, even for [undefined]. *)
Example set_unknown_property_notifies :
  prop Sample.person "size" = VUndefined
  /\ exists o',
       set Sample.body 50 false "size" VUndefined Sample.person = Return o'
       /\ kvo_revision o' = kvo_revision Sample.person + 1
       /\ trace o' = [Fire PStar (VFunc 12) (VObj 7) [VObj 7; VStr "size"; VNull; VNum 2]].
Proof.
  split; [reflexivity|]. eexists. split; [vm_compute; reflexivity|].
  split; reflexivity.
Qed.

(** A method that observes two keys is called once for each of them, at
    the same revision. *)
Example same_method_two_keys :
  exists o1 o2,
    addObserver Sample.body Sample.heap "first" (VObj 8) (VFunc 11) VUndefined
      Sample.person = Return o1
    /\ run_ops Sample.body Sample.heap 50
         (bracket [("value", VNum 2); ("first", VStr "B")]) o1 = Return o2
    /\ member_calls "first" (VObj 8) (VFunc 11) (trace o2) = 1
    /\ member_calls "value" (VObj 8) (VFunc 11) (trace o2) = 1
    /\ Forall (fun e => event_rev e = Some (VNum 2)) (trace o2).
Proof.
  eexists. eexists. split; [vm_compute; reflexivity|].
  split; [vm_compute; reflexivity|].
  split; [reflexivity|]. split; [reflexivity|].
  apply (bool_decide_unpack _). vm_compute. exact I.
Qed.

(** The grouped notification of the scenario: three calls of [set], one
    call of each observer, made when the group ends, the value then [4]. *)
Example grouped_notification :
  exists o',
    run_ops Sample.body Sample.heap 50 (bracket Sample.three_sets) Sample.person = Return o'
    /\ prop o' "value" = VNum 4
    /\ trace o' =
       [Fire PMember (VFunc 10) (VObj 7) [VObj 7; VStr "value"; VNull; VNum 2];
        Fire PMember (VFunc 11) (VObj 8) [VObj 7; VStr "value"; VNull; VStr "ctx"; VNum 2];
        Fire PLocal (VFunc 30) (VObj 7) [VObj 7; VStr "value"; VNull; VNum 2];
        Fire PStar (VFunc 12) (VObj 7) [VObj 7; VStr "value"; VNull; VNum 2]].
Proof. eexists. split; [vm_compute; reflexivity|]. split; reflexivity. Qed.

(** * Further properties of hub.Observable *)

(** ** Reading *)

Section ReadFacts.
Variable body : nat -> gmap string value -> string -> value -> value.

(** What [get] leaves alone, whatever the key holds. *)
Lemma get_frame key o :
  let o' := snd (get body key o) in
  self o' = self o
  /\ props o' = props o
  /\ hub_properties o' = hub_properties o
  /\ hub_observableInited o' = hub_observableInited o
  /\ kvo_cacheable o' = kvo_cacheable o
  /\ kvo_cachedep o' = kvo_cachedep o
  /\ kvo_dependents o' = kvo_dependents o
  /\ kvo_changeLevel o' = kvo_changeLevel o
  /\ kvo_changes o' = kvo_changes o
  /\ kvo_revision o' = kvo_revision o
  /\ propertyRevision o' = propertyRevision o
  /\ kvo_observers o' = kvo_observers o
  /\ kvo_local o' = kvo_local o
  /\ kvo_observed_keys o' = kvo_observed_keys o
  /\ kvo_chains o' = kvo_chains o
  /\ queue_pending o' = queue_pending o
  /\ fires (trace o') = fires (trace o).
Proof.
  unfold get, unknownProperty, call_property. cbn zeta.
  destruct (strict_eq (prop o key) VUndefined); [done|].
  destruct (as_property (prop o key)) as [d|]; [|done].
  destruct (isCacheable d).
  - destruct (negb _); [done|]. simpl. by rewrite fires_snoc_compute.
  - simpl. by rewrite fires_snoc_compute.
Qed.

(** X1.  [get] reads: it writes no property, registers and calls no
    observer, counts no revision and queues no change, whatever the key
    holds; on a key that holds no computed property, a missing key
    included, it hands back what is stored and leaves the object as it
    was. *)
Theorem get_reads_only (key : string) (o : obj) :
  props (snd (get body key o)) = props o
  /\ kvo_observers (snd (get body key o)) = kvo_observers o
  /\ kvo_revision (snd (get body key o)) = kvo_revision o
  /\ propertyRevision (snd (get body key o)) = propertyRevision o
  /\ kvo_changes (snd (get body key o)) = kvo_changes o
  /\ kvo_changeLevel (snd (get body key o)) = kvo_changeLevel o
  /\ fires (trace (snd (get body key o))) = fires (trace o)
  /\ (as_property (prop o key) = None -> get body key o = (prop o key, o)).
Proof.
  pose proof (get_frame key o) as H. cbn zeta in H.
  destruct H as (_ & ? & _ & _ & _ & _ & _ & ? & ? & ? & ? & ? & _ & _ & _ & _ & ?).
  repeat split; try done. apply get_plain.
Qed.

End ReadFacts.

(** ** The pass over the dependent keys *)

Lemma expand_unfold n dm idx changes o :
  expand (S n) dm idx changes o =
  match changes !! idx with
  | None => Some (changes, o)
  | Some key =>
      expand n dm (S idx) (fst (expand_step dm key (changes, o)))
        (snd (expand_step dm key (changes, o)))
  end.
Proof.
  simpl. destruct (changes !! idx) as [key|]; [|done].
  unfold expand_step. simpl.
  destruct (dm !! key) as [[|k ks]|]; try done.
  by destruct (foldl _ _ _).
Qed.

(** What holds before the pass and is kept by each of its steps holds when
    it ends, and every key of the set has then been handled. *)
Lemma expand_inv dm (I : nat -> list string -> obj -> Prop) n idx changes o changes' o' :
  expand n dm idx changes o = Some (changes', o') ->
  I idx changes o ->
  (forall idx c o key, I idx c o -> c !! idx = Some key ->
     I (S idx) (fst (expand_step dm key (c, o))) (snd (expand_step dm key (c, o)))) ->
  exists idx', I idx' changes' o' /\ changes' !! idx' = None.
Proof.
  intros He HI Hstep. revert idx changes o He HI.
  induction n as [|n IH]; intros idx changes o He HI; [done|].
  rewrite expand_unfold in He. destruct (changes !! idx) as [key|] eqn:Hidx.
  - eapply IH; [exact He|]. by apply Hstep.
  - injection He as <- <-. by exists idx.
Qed.

Lemma fold_add_dependent_inv (I : list string -> obj -> Prop) keys changes o :
  I changes o ->
  (forall c o k, k ∈ keys -> I c o ->
     I (fst (add_dependent (c, o) k)) (snd (add_dependent (c, o) k))) ->
  I (fst (foldl add_dependent (changes, o) keys))
    (snd (foldl add_dependent (changes, o) keys)).
Proof.
  revert changes o. induction keys as [|k keys IH]; intros changes o HI Hstep; [done|].
  cbn [foldl]. destruct (add_dependent (changes, o) k) as [c1 o1] eqn:Ha.
  apply IH.
  - specialize (Hstep changes o k). rewrite Ha in Hstep. apply Hstep; [by left|done].
  - intros c o2 k' Hk'. apply Hstep. by right.
Qed.

Lemma CoreSet_add_prefix k s : exists l, CoreSet.add k s = s ++ l.
Proof.
  unfold CoreSet.add. destruct (CoreSet.contains k s).
  - exists []. by rewrite app_nil_r.
  - by exists [k].
Qed.

Lemma expand_step_changes dm key changes o :
  (exists l, fst (expand_step dm key (changes, o)) = changes ++ l)
  /\ (forall deps d, dm !! key = Some deps -> d ∈ deps ->
        d ∈ fst (expand_step dm key (changes, o))).
Proof.
  unfold expand_step. destruct (dm !! key) as [[|k ks]|] eqn:Hdm; simpl.
  - split; [exists []; by rewrite app_nil_r|]. intros deps d [= <-] Hd.
    by apply elem_of_nil in Hd.
  - split.
    + apply (fold_add_dependent_inv (fun c _ => exists l, c = changes ++ l)).
      * exists []. by rewrite app_nil_r.
      * intros c o1 k' _ [l ->]. rewrite add_dependent_changes.
        destruct (CoreSet_add_prefix k' (changes ++ l)) as [l' ->].
        exists (l ++ l'). by rewrite app_assoc.
    + intros deps d [= <-] Hd.
      destruct (add_dependents_fold (reverse (k :: ks)) changes
                  (with_cache (Some (default ∅ (kvo_cache o))) o)) as (_ & _ & Hel).
      apply Hel. right. by rewrite elem_of_reverse.
  - split; [exists []; by rewrite app_nil_r|]. intros deps d [=].
Qed.

(** When the pass ends, the set holds the dependents of each of its
    keys. *)
Lemma expand_closed n dm changes o changes' o' :
  expand n dm 0 changes o = Some (changes', o') ->
  forall k deps d, k ∈ changes' -> dm !! k = Some deps -> d ∈ deps -> d ∈ changes'.
Proof.
  intros He.
  destruct (expand_inv dm
              (fun idx c _ => forall i k deps d, i < idx -> c !! i = Some k ->
                                dm !! k = Some deps -> d ∈ deps -> d ∈ c)
              n 0 changes o changes' o' He) as (idx' & HI & Hend).
  - intros i k deps d Hi. lia.
  - intros idx c o1 key HI Hidx i k deps d Hi Hk Hdm Hd.
    destruct (expand_step_changes dm key c o1) as ([l Hl] & Hall).
    rewrite Hl in Hk |- *.
    destruct (decide (i = idx)) as [->|Hne].
    + rewrite lookup_app_l in Hk by (by eapply lookup_lt_Some).
      assert (k = key) as -> by congruence.
      rewrite <- Hl. by eapply Hall.
    + assert (Hlt : i < idx) by lia.
      assert (Hil : i < length c).
      { apply lookup_lt_Some in Hidx. lia. }
      rewrite lookup_app_l in Hk by done.
      apply elem_of_app. left. by eapply HI.
  - intros k deps d Hk Hdm Hd.
    apply list_elem_of_lookup in Hk as [i Hi].
    apply (HI i k deps d); [|done..].
    apply lookup_lt_Some in Hi. apply lookup_ge_None in Hend. lia.
Qed.

Lemma expand_reaches n dm changes o changes' o' k k' :
  expand n dm 0 changes o = Some (changes', o') ->
  k ∈ changes' -> reaches dm k k' -> k' ∈ changes'.
Proof.
  intros He Hk Hr. induction Hr as [|k deps d k' Hdm Hd _ IH]; [done|].
  apply IH. by eapply expand_closed.
Qed.

Lemma expand_frame_prop o o' d :
  expand_frame o o' -> truthy (prop o' d) = true -> prop o' d = prop o d.
Proof.
  intros (_ & Hp & _) Ht. destruct (Hp d) as [H|H]; [done|].
  by rewrite H in Ht.
Qed.

Lemma add_dependent_prop o0 c oc d key :
  expand_frame o0 oc -> prop oc key = prop o0 key ->
  (truthy (prop o0 d) = true -> cacheKey_of (prop o0 d) <> key) ->
  prop (snd (add_dependent (c, oc) d)) key = prop o0 key.
Proof.
  intros Hf Hk Hne. unfold add_dependent.
  destruct (truthy (prop oc d)) eqn:Ht; [|done].
  pose proof (expand_frame_prop _ _ _ Hf Ht) as Hd. rewrite Hd in Ht |- *.
  simpl. unfold prop in *. simpl. rewrite lookup_insert_ne; [done|]. by apply Hne.
Qed.

(** A property whose name is not the cache key of a dependent key holds
    after the pass what it held before. *)
Lemma expand_keeps_prop n dm idx changes o changes' o' key :
  expand n dm idx changes o = Some (changes', o') ->
  (forall k deps d, dm !! k = Some deps -> d ∈ deps ->
     truthy (prop o d) = true -> cacheKey_of (prop o d) <> key) ->
  prop o' key = prop o key.
Proof.
  intros He Hne.
  destruct (expand_inv dm (fun _ _ oc => expand_frame o oc /\ prop oc key = prop o key)
              n idx changes o changes' o' He) as (idx' & [_ HI] & _); [| |done].
  - split; [apply expand_frame_refl|done].
  - intros i c oc k [Hf Hk] Hi. unfold expand_step.
    destruct (dm !! k) as [[|k0 ks]|] eqn:Hdm; [done| |done]. cbn [fst snd].
    apply (fold_add_dependent_inv (fun _ o1 => expand_frame o o1 /\ prop o1 key = prop o key)).
    + split; [|done]. eapply expand_frame_trans; [exact Hf|].
      repeat split; try done. by left.
    + intros c1 o1 d Hd [Hf1 Hk1]. split.
      * eapply expand_frame_trans; [exact Hf1|apply add_dependent_frame].
      * apply add_dependent_prop; [done..|].
        apply (Hne k (k0 :: ks)); [done|]. by rewrite elem_of_reverse in Hd.
Qed.

(** The pass writes nothing but [undefined] into the cache. *)
Lemma add_dependent_cached c oc d ck :
  cached oc ck = VUndefined -> cached (snd (add_dependent (c, oc) d)) ck = VUndefined.
Proof.
  intros H. unfold add_dependent. destruct (truthy (prop oc d)); [|done].
  unfold cached, cache_get, clear_slots in *. simpl.
  destruct (decide (ck = cacheKey_of (prop oc d))) as [->|?];
    [by rewrite lookup_insert_eq|rewrite lookup_insert_ne by done].
  destruct (decide (ck = lastSetValueKey_of (prop oc d))) as [->|?];
    [by rewrite lookup_insert_eq|by rewrite lookup_insert_ne by done].
Qed.

Lemma expand_step_cached dm key c oc ck :
  cached oc ck = VUndefined -> cached (snd (expand_step dm key (c, oc))) ck = VUndefined.
Proof.
  intros H. unfold expand_step. destruct (dm !! key) as [[|k ks]|]; [done| |done].
  cbn [fst snd].
  apply (fold_add_dependent_inv (fun _ o1 => cached o1 ck = VUndefined)).
  - unfold cached in *. simpl. by destruct (kvo_cache oc).
  - intros c1 o1 d _. apply add_dependent_cached.
Qed.

Lemma expand_cached n dm idx changes o changes' o' ck :
  expand n dm idx changes o = Some (changes', o') ->
  cached o ck = VUndefined -> cached o' ck = VUndefined.
Proof.
  intros He H.
  destruct (expand_inv dm (fun _ _ oc => cached oc ck = VUndefined)
              n idx changes o changes' o' He) as (idx' & HI & _); [done| |done].
  intros i c oc k Hc _. by apply expand_step_cached.
Qed.

(** Adding a dependent key that holds a value clears its cache slot. *)
Lemma add_dependent_clears c oc d :
  truthy (prop oc d) = true ->
  cached (snd (add_dependent (c, oc) d)) (cacheKey_of (prop oc d)) = VUndefined.
Proof.
  intros Ht. unfold add_dependent. rewrite Ht.
  unfold cached, cache_get, clear_slots. simpl. by rewrite lookup_insert_eq.
Qed.

(** The cache slot of a dependent key is empty once a key it depends on
    has been handled by the pass. *)
Lemma expand_clears n dm changes o changes' o' k deps K :
  expand n dm 0 changes o = Some (changes', o') ->
  (forall k deps d, dm !! k = Some deps -> d ∈ deps ->
     truthy (prop o d) = true -> cacheKey_of (prop o d) <> K) ->
  k ∈ changes' -> dm !! k = Some deps -> K ∈ deps ->
  truthy (prop o K) = true ->
  cached o' (cacheKey_of (prop o K)) = VUndefined.
Proof.
  intros He Hne Hk Hdm HK Ht.
  set (ck := cacheKey_of (prop o K)).
  destruct (expand_inv dm
              (fun idx c oc =>
                 expand_frame o oc /\ prop oc K = prop o K
                 /\ (forall i, i < idx -> c !! i = Some k -> cached oc ck = VUndefined))
              n 0 changes o changes' o' He) as (idx' & (_ & _ & HI) & Hend).
  - split; [apply expand_frame_refl|]. split; [done|]. intros; lia.
  - intros idx c oc key (Hf & HKp & HI) Hidx.
    assert (Hf' : expand_frame o (snd (expand_step dm key (c, oc)))
                  /\ prop (snd (expand_step dm key (c, oc))) K = prop o K).
    { unfold expand_step.
      destruct (dm !! key) as [[|k0 ks]|] eqn:Hdm'; [done| |done]. cbn [fst snd].
      apply (fold_add_dependent_inv (fun _ o1 => expand_frame o o1 /\ prop o1 K = prop o K)).
      + split; [|done]. eapply expand_frame_trans; [exact Hf|].
        repeat split; try done. by left.
      + intros c1 o1 d Hd [Hf1 Hk1]. split.
        * eapply expand_frame_trans; [exact Hf1|apply add_dependent_frame].
        * apply add_dependent_prop; [done..|].
          apply (Hne key (k0 :: ks)); [done|]. by rewrite elem_of_reverse in Hd. }
    destruct Hf' as [Hf' HKp']. split; [done|]. split; [done|].
    destruct (expand_step_changes dm key c oc) as ([l1 Hl1] & _).
    intros i Hi Hik. rewrite Hl1 in Hik.
    assert (Hil : i < length c) by (apply lookup_lt_Some in Hidx; lia).
    rewrite lookup_app_l in Hik by done.
    destruct (decide (i = idx)) as [->|Hne'].
    + assert (key = k) as -> by congruence.
      unfold expand_step. rewrite Hdm.
      destruct deps as [|k0 ks]; [by apply elem_of_nil in HK|]. cbn [fst snd].
      assert (HK' : K ∈ reverse (k0 :: ks)) by (by rewrite elem_of_reverse).
      apply list_elem_of_split in HK' as (l2 & l3 & Hsplit). rewrite Hsplit.
      rewrite foldl_app. cbn [foldl].
      set (st1 := foldl add_dependent _ l2).
      assert (Hst1 : expand_frame o (snd st1) /\ prop (snd st1) K = prop o K).
      { apply (fold_add_dependent_inv (fun _ o1 => expand_frame o o1 /\ prop o1 K = prop o K)).
        + split; [|done]. eapply expand_frame_trans; [exact Hf|].
          repeat split; try done. by left.
        + intros c1 o1 d Hd [Hf1 Hk1]. split.
          * eapply expand_frame_trans; [exact Hf1|apply add_dependent_frame].
          * apply add_dependent_prop; [done..|].
            apply (Hne k (k0 :: ks)); [done|].
            rewrite <- elem_of_reverse, Hsplit. apply elem_of_app. by left. }
      destruct st1 as [c1 o1]. simpl in Hst1. destruct Hst1 as [_ HK1].
      pose proof (add_dependent_clears c1 o1 K) as Hclr. rewrite HK1 in Hclr.
      specialize (Hclr Ht). fold ck in Hclr.
      destruct (add_dependent (c1, o1) K) as [c2 o2]. simpl in Hclr.
      apply (fold_add_dependent_inv (fun _ o3 => cached o3 ck = VUndefined)); [done|].
      intros c3 o3 d _. apply add_dependent_cached.
    + apply expand_step_cached. apply (HI i); [lia|done].
  - apply list_elem_of_lookup in Hk as [i Hi].
    apply (HI i); [|done].
    apply lookup_lt_Some in Hi. apply lookup_ge_None in Hend. lia.
Qed.

(** ** What one notification does *)

Lemma begin_pass_cache key o : kvo_cache (snd (begin_pass key o)) = kvo_cache o.
Proof.
  unfold begin_pass. case_bool_decide; [done|].
  destruct key as [k|]; [|done]. by destruct (key_truthy (Some k)).
Qed.

Lemma begin_pass_level key n o :
  fst (begin_pass key (with_changeLevel n o)) = fst (begin_pass key o).
Proof.
  unfold begin_pass. case_bool_decide; [done|].
  destruct key as [k|]; [|done]. by destruct (key_truthy (Some k)).
Qed.

Lemma reaches_empty k K : reaches ∅ k K -> K = k.
Proof. intros H. destruct H as [|k deps d k' Hdm]; [done|]. by rewrite lookup_empty in Hdm. Qed.

(** A method that is no member of the observer set of a key is not called
    for it. *)
Lemma pass_calls_absent starObservers rev o keys K tg me :
  (forall m, m ∈ default [] (kvo_observers o !! K) ->
             (target_or_this o m, m_method m) <> (tg, me)) ->
  member_calls K tg me (concat (map (key_events starObservers rev o) keys)) = 0.
Proof.
  intros Habs. induction keys as [|k keys IH]; [done|].
  simpl. rewrite member_calls_app, IH.
  destruct (decide (k = K)) as [->|Hne]; [|by rewrite key_events_other_key].
  rewrite key_events_same_key, member_events_calls.
  rewrite filter_none; [done|].
  intros m Hm. apply list_elem_of_filter in Hm as [_ Hm]. by apply Habs.
Qed.

(** The state one notification returns, the calls it makes, and what it
    does to the properties and to the cache. *)
Lemma notification_effect (fuel : nat) (key : option string) (o : obj) :
  hub_observableInited o = true ->
  observers_callable o -> changes_wf o -> pass_budget o <= fuel ->
  has_pending o || key_truthy key = true ->
  exists o' evs,
    notifyPropertyObservers fuel key o = Return o'
    /\ trace o' = trace o ++ evs
    /\ computes evs = []
    /\ (kvo_changes o' = None
        /\ kvo_changeLevel o' = kvo_changeLevel o
        /\ kvo_revision o' = kvo_revision o
        /\ propertyRevision o' = S (propertyRevision o)
        /\ kvo_dependents o' = kvo_dependents o
        /\ self o' = self o)
    /\ (forall k, keeps_name o k -> prop o' k = prop o k)
    /\ (forall ck, cached o ck = VUndefined -> cached o' ck = VUndefined)
    /\ (forall k k1 deps K,
          k ∈ fst (begin_pass key o) -> reaches (dependents_of o) k k1 ->
          dependents_of o !! k1 = Some deps -> K ∈ deps ->
          truthy (prop o K) = true -> keeps_name o K ->
          cached o' (cacheKey_of (prop o K)) = VUndefined)
    /\ (forall K tg me,
          (forall m, m ∈ default [] (kvo_observers o !! K) ->
                     (target_or_this o m, m_method m) <> (tg, me)) ->
          member_calls K tg me evs = 0)
    /\ (observer_sets_wf o ->
        (forall K tg me, member_calls K tg me evs <= 1)
        /\ (forall k K ms m,
              k ∈ fst (begin_pass key o) -> reaches (dependents_of o) k K ->
              kvo_observers o !! K = Some ms -> m ∈ ms ->
              m_last m <> Some (S (propertyRevision o)) ->
              member_calls K (target_or_this o m) (m_method m) evs = 1)).
Proof.
  intros Hinit Hcall Hwf Hfuel Hgo.
  destruct (notify_closed_form fuel key o) as (changes & o' & Hadd & Hf & Hnd & Hsub & Hret);
    try done.
  set (o1 := with_changeLevel (kvo_changeLevel o + 1) o) in *.
  destruct (begin_pass_facts key o1 Hwf)
    as (_ & _ & Hself & Hprops & Hobs & Hloc & Htr & Hrev & Hprev & Hlev & Hch & Hdep & _).
  pose proof Hf as (Hself' & _ & Hobs' & Hloc' & Htr' & Hrev' & Hprev' & Hlev' & Hch' & Hdep' & _).
  assert (Hp0 : forall k, prop (snd (begin_pass key o1)) k = prop o k).
  { intros k. unfold prop. by rewrite Hprops. }
  assert (Hs : self o' = self o) by (by rewrite Hself', Hself).
  assert (Ho : kvo_observers o' = kvo_observers o) by (by rewrite Hobs', Hobs).
  assert (Htg : forall m, target_or_this o' m = target_or_this o m).
  { intros m. unfold target_or_this. by rewrite Hs. }
  (* the pass over the dependent keys, as a run of [expand] *)
  assert (Hexp : forall dm, kvo_dependents o = Some dm ->
                   expand fuel dm 0 (fst (begin_pass key o1)) (snd (begin_pass key o1))
                   = Some (changes, o')).
  { intros dm Hdm. unfold add_dependents in Hadd. rewrite Hdep in Hadd.
    change (kvo_dependents o1) with (kvo_dependents o) in Hadd. by rewrite Hdm in Hadd. }
  assert (Hnone : kvo_dependents o = None -> changes = fst (begin_pass key o1)
                                             /\ o' = snd (begin_pass key o1)).
  { intros Hdm. unfold add_dependents in Hadd. rewrite Hdep in Hadd.
    change (kvo_dependents o1) with (kvo_dependents o) in Hadd. rewrite Hdm in Hadd.
    destruct (begin_pass key o1). by injection Hadd as <- <-. }
  assert (Hreach : forall k K, k ∈ fst (begin_pass key o) ->
                     reaches (dependents_of o) k K -> K ∈ changes).
  { intros k K Hk Hr. unfold dependents_of in Hr.
    destruct (kvo_dependents o) as [dm|] eqn:Hdm; simpl in Hr.
    - eapply expand_reaches; [by apply Hexp|by apply Hsub|done].
    - apply reaches_empty in Hr as ->. by apply Hsub. }
  eexists _, _. split; [exact Hret|].
  split. { simpl. rewrite Htr', Htr. reflexivity. }
  split.
  { unfold computes. apply filter_none. intros e He.
    apply list_elem_of_In, in_concat in He as (l & Hl & He).
    apply list_elem_of_In, list_elem_of_fmap in Hl as (k & -> & _).
    apply list_elem_of_In in He. unfold key_events in He.
    rewrite !elem_of_app in He. unfold member_events, local_events in He.
    destruct He as [He|[He|[He|He]]].
    - apply list_elem_of_fmap in He as (? & -> & _). done.
    - apply list_elem_of_fmap in He as (? & -> & _). done.
    - destruct (_ && _); [|by apply elem_of_nil in He].
      apply list_elem_of_fmap in He as (? & -> & _). done.
    - unfold hook_events in He. destruct (truthy _); [|by apply elem_of_nil in He].
      apply list_elem_of_singleton in He as ->. done. }
  split.
  { simpl. rewrite Hch', Hch, Hrev', Hrev, Hprev', Hprev, Hdep', Hdep.
    repeat split; try done. }
  split.
  { intros k Hk. change (prop o' k = prop o k).
    destruct (kvo_dependents o) as [dm|] eqn:Hdm.
    - rewrite <- Hp0.
      apply (expand_keeps_prop fuel dm 0 (fst (begin_pass key o1))
               (snd (begin_pass key o1)) changes); [by apply Hexp|].
      intros k0 deps d Hk0 Hd. rewrite Hp0. apply Hk.
      by eapply dependent_keys_of_spec.
    - destruct (Hnone eq_refl) as [_ ->]. apply Hp0. }
  split.
  { intros ck Hck. change (cached o' ck = VUndefined).
    assert (Hc0 : cached (snd (begin_pass key o1)) ck = VUndefined).
    { unfold cached. by rewrite begin_pass_cache. }
    destruct (kvo_dependents o) as [dm|] eqn:Hdm.
    - by apply (expand_cached fuel dm 0 (fst (begin_pass key o1))
                  (snd (begin_pass key o1)) changes o'); [apply Hexp|].
    - by destruct (Hnone eq_refl) as [_ ->]. }
  split.
  { intros k k1 deps K Hk Hr Hdeps HK Ht Hname.
    change (cached o' (cacheKey_of (prop o K)) = VUndefined).
    pose proof (Hreach k k1 Hk Hr) as Hin. unfold dependents_of in Hdeps.
    destruct (kvo_dependents o) as [dm|] eqn:Hdm; simpl in Hdeps;
      [|by rewrite lookup_empty in Hdeps].
    rewrite <- (Hp0 K).
    apply (expand_clears fuel dm (fst (begin_pass key o1))
             (snd (begin_pass key o1)) changes o' k1 deps);
      try done; [by apply Hexp| |by rewrite Hp0].
    intros k0 deps0 d Hk0 Hd. rewrite Hp0. apply Hname.
    by eapply dependent_keys_of_spec. }
  split.
  { intros K tg me Habs. apply pass_calls_absent.
    intros m. rewrite Ho, Htg. apply Habs. }
  intros Hsets.
  assert (Hsets' : observer_sets_wf o') by by eapply observer_sets_wf_frame.
  split.
  - intros K tg me. apply pass_calls_at_most_once; [by apply pop_order_NoDup|done].
  - intros k K ms m Hk Hr HK Hin Hlast. rewrite <- Htg.
    eapply pass_calls_exactly_once; [by apply pop_order_NoDup|done| | |done..].
    + unfold pop_order. apply elem_of_reverse. by eapply Hreach.
    + by rewrite Ho.
Qed.

Lemma key_truthy_nonempty key : key <> "" -> key_truthy (Some key) = true.
Proof. intros H. unfold key_truthy. by rewrite bool_decide_eq_false_2. Qed.

Lemma begin_pass_key key o : key <> "" -> key ∈ fst (begin_pass (Some key) o).
Proof.
  intros H. unfold begin_pass. case_bool_decide as Hstar.
  - injection Hstar as ->. simpl. apply CoreSet_addEach_elem. left.
    apply CoreSet_add_elem. by right.
  - rewrite key_truthy_nonempty by done. simpl. apply CoreSet_add_elem. by right.
Qed.

Lemma begin_pass_pending key o k : k ∈ pending_keys o -> k ∈ fst (begin_pass key o).
Proof.
  intros H. unfold begin_pass, pending_keys, CoreSet.create in *. case_bool_decide.
  - simpl. apply CoreSet_addEach_elem. left. apply CoreSet_add_elem. by left.
  - destruct key as [k0|]; [|done]. destruct (key_truthy (Some k0)); [|done].
    simpl. apply CoreSet_add_elem. by left.
Qed.

(** A change announced outside of any group, the queue not suspended: the
    revision is counted and the notification runs at once. *)
Lemma change_effect fuel (rank : string -> nat) key v keep o :
  hub_observableInited o = true ->
  observers_callable o -> changes_wf o ->
  dependents_ranked rank o -> rank key <= fuel -> pass_budget o <= fuel ->
  kvo_changeLevel o = 0 -> key <> "" ->
  exists o' evs,
    propertyDidChange fuel false key v keep o = Return o'
    /\ trace o' = trace o ++ evs
    /\ computes evs = []
    /\ (kvo_changes o' = None
        /\ kvo_changeLevel o' = 0
        /\ kvo_revision o' = kvo_revision o + 1
        /\ propertyRevision o' = S (propertyRevision o)
        /\ kvo_dependents o' = kvo_dependents o
        /\ self o' = self o)
    /\ (forall k, keeps_name o k -> prop o' k = prop o k)
    /\ (forall k k1 deps K,
          k = key \/ k ∈ pending_keys o -> reaches (dependents_of o) k k1 ->
          dependents_of o !! k1 = Some deps -> K ∈ deps ->
          truthy (prop o K) = true -> keeps_name o K ->
          cached o' (cacheKey_of (prop o K)) = VUndefined)
    /\ (forall K tg me,
          (forall m, m ∈ default [] (kvo_observers o !! K) ->
                     (target_or_this o m, m_method m) <> (tg, me)) ->
          member_calls K tg me evs = 0)
    /\ (observer_sets_wf o ->
        (forall K tg me, member_calls K tg me evs <= 1)
        /\ (forall k K ms m,
              k = key \/ k ∈ pending_keys o -> reaches (dependents_of o) k K ->
              kvo_observers o !! K = Some ms -> m ∈ ms ->
              m_last m <> Some (S (propertyRevision o)) ->
              member_calls K (target_or_this o m) (m_method m) evs = 1)).
Proof.
  intros Hinit Hcall Hwf Hrank Hfuel Hbudget Hlevel Hkey.
  destruct (propertyDidChange_block_returns fuel rank key keep o Hrank Hfuel)
    as (o1 & (c & cd & ->) & Heq).
  rewrite Heq, Hlevel. cbn [bool_decide decide_rel orb].
  rewrite bool_decide_eq_false_2 by lia. cbn [orb].
  set (o1 := with_cachedep cd (with_cache c (with_revision (kvo_revision o + 1) o))).
  destruct (notification_effect fuel (Some key) o1)
    as (o' & evs & Hret & Htr & Hcomp & Hfields & Hprops & _ & Hclear & Hzero & Hcalls);
    try done.
  { rewrite key_truthy_nonempty by done. apply orb_true_r. }
  assert (Hin : forall k, k = key \/ k ∈ pending_keys o -> k ∈ fst (begin_pass (Some key) o1)).
  { intros k [->|Hk]; [by apply begin_pass_key|by apply begin_pass_pending]. }
  exists o', evs. split; [done|]. split; [done|]. split; [done|].
  split. { destruct Hfields as (? & Hl & ? & ? & ? & ?). repeat split; try done.
           by rewrite Hl. }
  split; [exact Hprops|]. split; [|split; [exact Hzero|]].
  - intros k k1 deps K Hk. apply (Hclear k k1 deps K). by apply Hin.
  - intros Hsets. destruct (Hcalls Hsets) as [Hmax Hone]. split; [done|].
    intros k K ms m Hk. apply (Hone k K ms m). by apply Hin.
Qed.

(** ** Dependent keys *)

(** X2.  A change of a key is a change of the keys that depend on it,
    directly or through other keys: announced outside of any group, it
    calls every observer registered on such a key exactly once, in the same
    notification. *)
Theorem dependent_keys_are_notified (fuel : nat) (rank : string -> nat)
    (key K : string) (v : value) (keep : bool) (o : obj) (ms : list member) (m : member) :
  hub_observableInited o = true ->
  observers_callable o -> observer_sets_wf o -> changes_wf o ->
  dependents_ranked rank o -> rank key <= fuel -> pass_budget o <= fuel ->
  kvo_changeLevel o = 0 -> key <> "" ->
  reaches (dependents_of o) key K ->
  kvo_observers o !! K = Some ms -> m ∈ ms ->
  m_last m <> Some (S (propertyRevision o)) ->
  exists o' evs,
    propertyDidChange fuel false key v keep o = Return o'
    /\ trace o' = trace o ++ evs
    /\ member_calls K (target_or_this o m) (m_method m) evs = 1.
Proof.
  intros Hinit Hcall Hsets Hwf Hrank Hfuel Hbudget Hlevel Hkey Hr HK Hm Hlast.
  destruct (change_effect fuel rank key v keep o)
    as (o' & evs & Hret & Htr & _ & _ & _ & _ & _ & Hcalls); try done.
  exists o', evs. split; [done|]. split; [done|].
  destruct (Hcalls Hsets) as [_ Hone]. apply (Hone key K ms m); try done. by left.
Qed.

Lemma keeps_name_intro o k :
  Forall (fun d => implb (truthy (prop o d))
                         (negb (bool_decide (cacheKey_of (prop o d) = k))) = true)
         (dependent_keys_of o) ->
  keeps_name o k.
Proof.
  intros H d Hd Ht. rewrite Forall_forall in H. specialize (H d Hd).
  rewrite Ht in H. simpl in H. apply negb_true_iff in H.
  by apply bool_decide_eq_false in H.
Defined.

Lemma family_callable : observers_callable Fixture.family.
Proof.
  apply observers_callable_intro.
  - apply (bool_decide_unpack _). vm_compute. exact I.
  - apply (bool_decide_unpack _). vm_compute. exact I.
  - vm_compute. discriminate.
Defined.

Lemma family_sets_wf : observer_sets_wf Fixture.family.
Proof. apply observer_sets_wf_intro. apply (bool_decide_unpack _). vm_compute. exact I. Defined.

Lemma family_changes_wf : changes_wf Fixture.family.
Proof. apply (bool_decide_unpack _). vm_compute. exact I. Defined.

Lemma family_ranked : dependents_ranked Sample.rank Fixture.family.
Proof.
  apply dependents_ranked_intro. intros dm [= <-].
  apply (bool_decide_unpack _). vm_compute. exact I.
Defined.

Lemma family_reaches : reaches (dependents_of Fixture.family) "first" "fullName".
Proof.
  apply (reaches_step _ "first" ["fullName"] "fullName" "fullName").
  - reflexivity.
  - apply list_elem_of_here.
  - apply reaches_here.
Defined.

Lemma dependent_keys_are_notified_witness :
  exists o' evs,
    propertyDidChange 50 false "first" (VStr "B") false Fixture.family = Return o'
    /\ trace o' = trace Fixture.family ++ evs
    /\ member_calls "fullName" (VObj 7) (VFunc 13) evs = 1.
Proof.
  apply (dependent_keys_are_notified 50 Sample.rank "first" "fullName" (VStr "B") false
           Fixture.family [Member VNull (VFunc 13) VUndefined None]
           (Member VNull (VFunc 13) VUndefined None)).
  - reflexivity.
  - exact family_callable.
  - exact family_sets_wf.
  - exact family_changes_wf.
  - exact family_ranked.
  - vm_compute. lia.
  - vm_compute. lia.
  - reflexivity.
  - discriminate.
  - exact family_reaches.
  - reflexivity.
  - apply list_elem_of_here.
  - discriminate.
Defined.

Lemma cache_slot_cached d o : cache_slot d o = cached o (jskey (cacheKey d)).
Proof. unfold cache_slot, cached. by destruct (kvo_cache o). Qed.

(** X3.  A change of a key empties the cache slot of the computed
    properties that depend on it, directly or through other keys: announced
    outside of any group, it leaves the slot of such a property empty, and
    the next [get] calls the function of the property again. *)
Theorem dependent_cache_is_cleared
    (body : nat -> gmap string value -> string -> value -> value)
    (fuel : nat) (rank : string -> nat) (key k1 K : string) (v : value) (keep : bool)
    (o : obj) (deps : list string) (d : descriptor) :
  hub_observableInited o = true ->
  observers_callable o -> changes_wf o ->
  dependents_ranked rank o -> rank key <= fuel -> pass_budget o <= fuel ->
  kvo_changeLevel o = 0 -> key <> "" ->
  reaches (dependents_of o) key k1 -> dependents_of o !! k1 = Some deps -> K ∈ deps ->
  prop o K = VProp d -> isCacheable d = true -> keeps_name o K ->
  exists o',
    propertyDidChange fuel false key v keep o = Return o'
    /\ cache_slot d o' = VUndefined
    /\ fst (get body K o') = body (fn d) (props o') K VUndefined
    /\ trace (snd (get body K o')) = trace o' ++ [Compute d K None].
Proof.
  intros Hinit Hcall Hwf Hrank Hfuel Hbudget Hlevel Hkey Hr Hdeps HK Hd Hc Hname.
  destruct (change_effect fuel rank key v keep o)
    as (o' & evs & Hret & _ & _ & _ & Hprops & Hclear & _); try done.
  exists o'. split; [done|].
  assert (Hslot : cache_slot d o' = VUndefined).
  { rewrite cache_slot_cached.
    specialize (Hclear key k1 deps K (or_introl eq_refl) Hr Hdeps HK).
    rewrite Hd in Hclear. by apply Hclear. }
  split; [done|].
  rewrite (get_miss body K d o'); [by split|by rewrite Hprops|done..].
Qed.

Lemma dependent_cache_is_cleared_witness :
  cache_slot Sample.fullName Fixture.family = VStr "A "
  /\ exists o',
       propertyDidChange 50 false "first" (VStr "B") false Fixture.family = Return o'
       /\ cache_slot Sample.fullName o' = VUndefined
       /\ trace (snd (get Sample.body "fullName" o')) =
          trace o' ++ [Compute Sample.fullName "fullName" None].
Proof.
  split; [reflexivity|].
  destruct (dependent_cache_is_cleared Sample.body 50 Sample.rank "first" "first" "fullName"
              (VStr "B") false Fixture.family ["fullName"] Sample.fullName)
    as (o' & Hret & Hslot & _ & Htr).
  - reflexivity.
  - exact family_callable.
  - exact family_changes_wf.
  - exact family_ranked.
  - vm_compute. lia.
  - vm_compute. lia.
  - reflexivity.
  - discriminate.
  - apply reaches_here.
  - reflexivity.
  - apply list_elem_of_here.
  - reflexivity.
  - reflexivity.
  - apply keeps_name_intro. apply (bool_decide_unpack _). vm_compute. exact I.
  - exists o'. by split.
Defined.

(** ** Writing and reading back *)

Lemma observers_callable_ext o o' :
  (forall k, prop o' k = prop o k) ->
  kvo_observers o' = kvo_observers o -> kvo_local o' = kvo_local o ->
  observers_callable o -> observers_callable o'.
Proof.
  intros Hp Ho Hl (H1 & H2 & H3). split; [|split].
  - intros key ms m. rewrite Ho. apply H1.
  - intros key names name. rewrite Hl, Hp. apply H2.
  - rewrite Hp. exact H3.
Qed.

(** [propertyDidChange] comes back, and it leaves alone the properties
    that no dependent key uses as the name of its cached value. *)
Lemma propertyDidChange_props fuel (rank : string -> nat) suspended key v keep o :
  hub_observableInited o = true -> observers_callable o -> changes_wf o ->
  dependents_ranked rank o -> rank key <= fuel -> pass_budget o <= fuel ->
  exists o',
    propertyDidChange fuel suspended key v keep o = Return o'
    /\ forall k, keeps_name o k -> prop o' k = prop o k.
Proof.
  intros Hinit Hcall Hwf Hrank Hfuel Hbudget.
  destruct (propertyDidChange_block_returns fuel rank key keep o Hrank Hfuel)
    as (o1 & (c & cd & ->) & Heq).
  rewrite Heq. destruct (bool_decide (0 < kvo_changeLevel o) || suspended).
  - eexists. split; [done|]. intros k _. by destruct suspended.
  - set (o1 := with_cachedep cd (with_cache c (with_revision (kvo_revision o + 1) o))).
    destruct (has_pending o1 || key_truthy (Some key)) eqn:Hgo.
    + destruct (notification_effect fuel (Some key) o1)
        as (o' & evs & Hret & _ & _ & _ & Hprops & _); try done.
      exists o'. split; [done|]. exact Hprops.
    + rewrite notify_idle; [by eexists|done| |done].
      unfold pass_budget in Hbudget. lia.
Qed.

(** [set] on a key that holds no computed property: the value is stored,
    and the change is counted when there is one. *)
Lemma set_get_back
    (body : nat -> gmap string value -> string -> value -> value)
    (fuel : nat) (rank : string -> nat) (suspended : bool)
    (key : string) (v : value) (o : obj) :
  hub_observableInited o = true ->
  as_property (prop o key) = None -> as_property v = None ->
  observers_callable (with_props (<[key := v]>) o) -> changes_wf o ->
  dependents_ranked rank o -> rank key <= fuel -> pass_budget o <= fuel ->
  keeps_name o key -> key <> "undefined" ->
  exists o',
    set body fuel suspended key v o = Return o'
    /\ prop o' key = v
    /\ (prop o key = VUndefined \/ prop o key <> v ->
        kvo_revision o' = kvo_revision o + 1).
Proof.
  intros Hinit Hplain Hv Hcall Hwf Hrank Hfuel Hbudget Hname Hundef.
  unfold set.
  pose proof (invalidate_dependents_cache_only fuel key o) as Hi.
  destruct (invalidate_dependents_terminates rank fuel key o Hrank Hfuel) as [o1 Ho1].
  rewrite Ho1 in *. destruct Hi as (c & cd & ->). cbn [bind]. clear Ho1.
  set (o1 := with_cachedep cd (with_cache c o)).
  (* the state in which the change is announced, the value stored *)
  assert (Hgo : forall o3,
            o3 = o1 \/ o3 = with_props (<[key := v]>) o1 ->
            prop o3 key = v ->
            exists o', propertyDidChange fuel suspended key v false o3 = Return o'
                       /\ prop o' key = v
                       /\ kvo_revision o' = kvo_revision o + 1).
  { intros o3 Ho3 Hk.
    assert (Hp3 : forall k, prop o3 k = prop (with_props (<[key := v]>) o) k).
    { intros k. destruct Ho3 as [-> | ->]; [|done].
      unfold prop at 2. simpl. destruct (decide (k = key)) as [->|Hne].
      - by rewrite lookup_insert_eq.
      - by rewrite lookup_insert_ne. }
    assert (Hd3 : kvo_dependents o3 = kvo_dependents o) by (by destruct Ho3 as [-> | ->]).
    assert (Hr3 : kvo_revision o3 = kvo_revision o) by (by destruct Ho3 as [-> | ->]).
    destruct (propertyDidChange_props fuel rank suspended key v false o3)
      as (o' & Hret & Hprops).
    - by destruct Ho3 as [-> | ->].
    - apply (observers_callable_ext (with_props (<[key := v]>) o)); try done;
        by destruct Ho3 as [-> | ->].
    - by destruct Ho3 as [-> | ->].
    - by eapply dependents_ranked_frame.
    - done.
    - by destruct Ho3 as [-> | ->].
    - exists o'. split; [done|]. split.
      + rewrite Hprops; [done|].
        intros d Hd Ht.
        rewrite (dependent_keys_of_frame o o3 Hd3) in Hd.
        destruct (decide (d = key)) as [->|Hne].
        * rewrite Hk. by destruct v.
        * rewrite Hp3 in Ht |- *. unfold prop in Ht |- *. simpl in Ht |- *.
          rewrite lookup_insert_ne in Ht |- * by done. by apply Hname.
      + pose proof (propertyDidChange_counts fuel suspended key v false o3) as Hc.
        rewrite Hret in Hc. destruct Hc as (Hc & _). by rewrite Hc, Hr3. }
  unfold assign, automaticallyNotifiesObserversFor, propertyWillChange, unknownProperty.
  rewrite Hplain.
  destruct (strict_eq (prop o key) VUndefined) eqn:Hu.
  - destruct (negb (strict_eq v VUndefined)) eqn:Hvu.
    + destruct (Hgo (with_props (<[key := v]>) o1)) as (o' & ? & ? & ?); [by right| |].
      { unfold prop. simpl. by rewrite lookup_insert_eq. }
      exists o'. by repeat split.
    + destruct (Hgo o1) as (o' & ? & ? & ?); [by left| |].
      { apply negb_false_iff, strict_eq_true in Hvu.
        apply strict_eq_true in Hu. by rewrite Hvu. }
      exists o'. by repeat split.
  - change (prop o1 key) with (prop o key).
    destruct (strict_eq (prop o key) v) eqn:Hsame; cbn [negb].
    + apply strict_eq_true in Hsame. exists o1. split; [done|].
      split; [done|]. apply strict_eq_false in Hu. intros [?|?]; done.
    + destruct (Hgo (with_props (<[key := v]>) o1)) as (o' & ? & ? & ?); [by right| |].
      { unfold prop. simpl. by rewrite lookup_insert_eq. }
      exists o'. by repeat split.
Qed.



(** ** Groups of property changes *)

(** X5.  A group inside a group is silent: when [beginPropertyChanges],
    calls of [set] and [endPropertyChanges] run while an outer group is
    open, no observer is called, the level is afterwards what it was, and
    the keys changed wait in the change set for the outer group to end. *)
Theorem inner_group_is_silent
    (body : nat -> gmap string value -> string -> value -> value)
    (others : gmap nat (gmap string value)) (fuel : nat) (rank : string -> nat)
    (sets : list (string * value)) (o : obj) :
  0 < kvo_changeLevel o -> dependents_ranked rank o ->
  (forall kv, kv ∈ sets -> rank (fst kv) <= fuel) ->
  exists o',
    run_ops body others fuel (bracket sets) o = Return o'
    /\ kvo_changeLevel o' = kvo_changeLevel o
    /\ fires (trace o') = fires (trace o)
    /\ kvo_observers o' = kvo_observers o
    /\ propertyRevision o' = propertyRevision o
    /\ (forall x, x ∈ pending_keys o -> x ∈ pending_keys o')
    /\ (forall K v rest, sets = (K, v) :: rest -> changes_value o K v ->
          K ∈ pending_keys o').
Proof.
  intros Hlevel Hrank Hfuel.
  set (o_b := beginPropertyChanges o).
  destruct (sets_deferred body others fuel rank sets o_b) as (o_mid & Hrun & Hdef & Hin).
  { unfold o_b. simpl. lia. }
  { exact Hrank. }
  { exact Hfuel. }
  destruct Hdef as (_ & Hobs & _ & _ & _ & Hlev & Hprev & Hfires & Hsub & _).
  set (o_e := with_changeLevel (Nat.pred (kvo_changeLevel o_mid)) o_mid).
  assert (Hle : kvo_changeLevel o_e = kvo_changeLevel o).
  { unfold o_e. simpl. rewrite Hlev. unfold o_b. simpl. lia. }
  assert (Hbr : run_ops body others fuel (bracket sets) o =
                endPropertyChanges fuel false o_mid).
  { unfold bracket.
    change ((false, OBeginPropertyChanges) :: set_calls sets ++ [(false, OEndPropertyChanges)])
      with (((false, OBeginPropertyChanges) :: set_calls sets) ++ [(false, OEndPropertyChanges)]).
    assert (Hrun' : run_ops body others fuel
                      ((false, OBeginPropertyChanges) :: set_calls sets) o = Return o_mid)
      by exact Hrun.
    rewrite run_ops_app, Hrun'. cbn [bind]. simpl. apply bind_return. }
  exists o_e. split.
  { rewrite Hbr. unfold endPropertyChanges. fold o_e.
    rewrite Hle. by rewrite bool_decide_eq_false_2 by lia. }
  split; [done|]. split; [done|]. split; [done|]. split; [done|].
  split; [exact Hsub|exact Hin].
Qed.

Lemma inner_group_is_silent_witness :
  exists o',
    run_ops Sample.body Sample.heap 50 (bracket Sample.three_sets)
      (beginPropertyChanges Sample.person) = Return o'
    /\ kvo_changeLevel o' = 1
    /\ fires (trace o') = []
    /\ "value" ∈ pending_keys o'.
Proof.
  destruct (inner_group_is_silent Sample.body Sample.heap 50 Sample.rank Sample.three_sets
              (beginPropertyChanges Sample.person))
    as (o' & Hret & Hlev & Hfires & _ & _ & _ & Hin).
  - vm_compute. lia.
  - exact person_ranked.
  - intros kv Hkv. unfold Sample.rank. destruct (bool_decide _); lia.
  - exists o'. split; [exact Hret|]. split; [exact Hlev|]. split; [exact Hfires|].
    apply (Hin "value" (VNum 2) [("value", VNum 3); ("value", VNum 4)]); [reflexivity|].
    right. split; [reflexivity|discriminate].
Defined.

(** X6.  While the observer queue is suspended a change calls nobody, at
    any level: [propertyDidChange] counts the revision, puts the key in the
    change set and reports the object to the queue; [endPropertyChanges]
    lowers the level and leaves the change set as it is. *)
Theorem suspended_queue_defers (fuel : nat) (rank : string -> nat)
    (key : string) (v : value) (keep : bool) (o : obj) :
  dependents_ranked rank o -> rank key <= fuel ->
  exists o',
    propertyDidChange fuel true key v keep o = Return o'
    /\ trace o' = trace o
    /\ kvo_revision o' = kvo_revision o + 1
    /\ propertyRevision o' = propertyRevision o
    /\ kvo_observers o' = kvo_observers o
    /\ key ∈ pending_keys o'
    /\ queue_pending o' = true
    /\ endPropertyChanges fuel true o' =
       Return (with_changeLevel (Nat.pred (kvo_changeLevel o)) o').
Proof.
  intros Hrank Hfuel.
  destruct (propertyDidChange_block_returns fuel rank key keep o Hrank Hfuel)
    as (o1 & (c & cd & ->) & Heq).
  rewrite Heq, orb_true_r. eexists. split; [reflexivity|]. simpl.
  repeat split; try done.
  - unfold pending_keys. simpl. apply CoreSet_add_elem. by right.
  - unfold endPropertyChanges. simpl. by rewrite !andb_false_r.
Qed.

Lemma suspended_queue_defers_witness :
  exists o',
    propertyDidChange 50 true "value" (VNum 2) false Sample.person = Return o'
    /\ trace o' = []
    /\ "value" ∈ pending_keys o'
    /\ queue_pending o' = true.
Proof.
  destruct (suspended_queue_defers 50 Sample.rank "value" (VNum 2) false Sample.person)
    as (o' & Hret & Htr & _ & _ & _ & Hin & Hq & _).
  - exact person_ranked.
  - vm_compute. lia.
  - exists o'. by repeat split.
Defined.




(** ** An observer that cannot be called *)

Lemma begin_pass_single key o :
  key <> "" -> key <> "*" -> has_pending o = false ->
  begin_pass (Some key) o =
  ([key], with_changes None (with_propertyRevision (S (propertyRevision o)) o)).
Proof.
  intros Hkey Hstar Hpend. unfold begin_pass.
  rewrite bool_decide_eq_false_2 by (intros [= ->]; done).
  rewrite key_truthy_nonempty by done.
  assert (default CoreSet.create (kvo_changes o) = []) as ->.
  { unfold has_pending in Hpend. by destruct (kvo_changes o) as [[|??]|]. }
  unfold CoreSet.add, CoreSet.contains.
  by rewrite bool_decide_eq_false_2 by (apply not_elem_of_nil).
Qed.




(** ** Dependent keys that form a circle *)





(** ** Registering dependent keys *)

Lemma occurrences_cons x a l :
  occurrences x (a :: l) = (if decide (a = x) then 1 else 0) + occurrences x l.
Proof.
  unfold occurrences. rewrite filter_cons. by destruct (decide (a = x)).
Qed.

Lemma occurrences_reverse x l : occurrences x (reverse l) = occurrences x l.
Proof.
  unfold occurrences. apply Permutation_length.
  apply filter_Permutation, reverse_Permutation.
Qed.

Lemma occurrences_absent x l : x ∉ l -> occurrences x l = 0.
Proof.
  intros H. unfold occurrences. rewrite filter_none; [done|].
  intros y Hy ->. done.
Qed.

Lemma register_fold key (l : list string) (m : gmap string (list string)) dep :
  let m' := foldl (fun (m : gmap string (list string)) dep =>
                     <[dep := default [] (m !! dep) ++ [key]]> m) m l in
  default [] (m' !! dep) = default [] (m !! dep) ++ replicate (occurrences dep l) key
  /\ (dep ∉ l -> m' !! dep = m !! dep).
Proof.
  revert m. induction l as [|a l IH]; intros m; cbn [foldl].
  - split; [|done]. unfold occurrences. simpl. by rewrite app_nil_r.
  - destruct (IH (<[a := default [] (m !! a) ++ [key]]> m)) as [IH1 IH2].
    cbn zeta in *. split.
    + rewrite IH1, occurrences_cons. destruct (decide (a = dep)) as [->|Hne].
      * rewrite lookup_insert_eq. simpl. by rewrite <- app_assoc.
      * by rewrite lookup_insert_ne.
    + intros Hn. apply not_elem_of_cons in Hn as [Hne Hn].
      rewrite IH2 by done. by rewrite lookup_insert_ne.
Qed.

Lemma registerDependentKey_lists key deps o dep :
  default [] (dependents_of (registerDependentKey key deps o) !! dep) =
    default [] (dependents_of o !! dep) ++ replicate (occurrences dep deps) key
  /\ (dep ∉ deps ->
      dependents_of (registerDependentKey key deps o) !! dep = dependents_of o !! dep).
Proof.
  assert (Hm : dependents_of (registerDependentKey key deps o) =
               foldl (fun (m : gmap string (list string)) dep =>
                        <[dep := default [] (m !! dep) ++ [key]]> m)
                     (dependents_of o) (reverse deps)) by reflexivity.
  rewrite Hm.
  destruct (register_fold key (reverse deps) (dependents_of o) dep) as [H1 H2].
  cbn zeta in *. rewrite occurrences_reverse in H1.
  split; [exact H1|]. intros Hn. apply H2. by rewrite elem_of_reverse.
Qed.

Lemma occurrences_pos x l : x ∈ l -> 0 < occurrences x l.
Proof.
  intros Hin. unfold occurrences. apply list_elem_of_split in Hin as (l1 & l2 & ->).
  rewrite filter_app, filter_cons, decide_True by done.
  rewrite length_app. simpl. lia.
Qed.

(** X10.  [registerDependentKey(key, deps)] appends [key] to the list of
    dependents of each key of [deps], once for each time it is listed, also
    when [key] is on that list already; the dependents of the other keys
    are what they were.  From then on [key] counts among the keys that
    change with a key of [deps]. *)
Theorem registerDependentKey_appends (key : string) (deps : list string) (o : obj)
    (dep : string) :
  default [] (dependents_of (registerDependentKey key deps o) !! dep) =
    default [] (dependents_of o !! dep) ++ replicate (occurrences dep deps) key
  /\ (dep ∉ deps ->
      dependents_of (registerDependentKey key deps o) !! dep = dependents_of o !! dep)
  /\ (dep ∈ deps -> reaches (dependents_of (registerDependentKey key deps o)) dep key).
Proof.
  destruct (registerDependentKey_lists key deps o dep) as [H1 H2].
  split; [exact H1|]. split; [exact H2|].
  intros Hin. pose proof (occurrences_pos dep deps Hin) as Hpos.
  set (m' := dependents_of (registerDependentKey key deps o)) in *.
  destruct (occurrences dep deps) as [|n]; [lia|].
  assert (Hkey : key ∈ default [] (m' !! dep)).
  { rewrite H1. apply elem_of_app. right. simpl. apply list_elem_of_here. }
  destruct (m' !! dep) as [l|] eqn:Hl; [|by apply elem_of_nil in Hkey].
  exact (reaches_step m' dep l key key Hl Hkey (reaches_here m' key)).
Qed.

(** ** Initialisation *)

Lemma initObservable_unfold o :
  initObservable o =
  if hub_observableInited o then o
  else match hub_properties o with
       | None => with_inited true o
       | Some keys => foldl init_property (with_inited true o) keys
       end.
Proof. reflexivity. Qed.

(** What registering the computed property of one key keeps, and what it
    adds. *)
Lemma init_property_facts o key :
  let o' := init_property o key in
  props o' = props o
  /\ hub_observableInited o' = hub_observableInited o
  /\ hub_properties o' = hub_properties o
  /\ kvo_observers o' = kvo_observers o
  /\ kvo_changeLevel o' = kvo_changeLevel o
  /\ trace o' = trace o
  /\ (kvo_cacheable o = true -> kvo_cacheable o' = true)
  /\ (forall dep x, x ∈ default [] (dependents_of o !! dep) ->
                    x ∈ default [] (dependents_of o' !! dep))
  /\ (forall d, prop o key = VProp d ->
        (isCacheable d = true -> kvo_cacheable o' = true)
        /\ (forall dep, dep ∈ dependentKeys d ->
              key ∈ default [] (dependents_of o' !! dep))).
Proof.
  unfold init_property. cbn zeta.
  destruct (truthy (prop o key)) eqn:Ht.
  2:{ repeat split; try done. all: intros; by rewrite H in Ht. }
  destruct (as_property (prop o key)) as [d|] eqn:Hd.
  2:{ repeat split; try done. all: intros; by rewrite H in Hd. }
  set (o1 := if isCacheable d then with_cacheable true o else o).
  assert (H1 : props o1 = props o /\ hub_observableInited o1 = hub_observableInited o
               /\ hub_properties o1 = hub_properties o
               /\ kvo_observers o1 = kvo_observers o
               /\ kvo_changeLevel o1 = kvo_changeLevel o /\ trace o1 = trace o
               /\ dependents_of o1 = dependents_of o
               /\ (kvo_cacheable o = true -> kvo_cacheable o1 = true)
               /\ (isCacheable d = true -> kvo_cacheable o1 = true)).
  { unfold o1. destruct (isCacheable d); repeat split; done. }
  destruct H1 as (Hp & Hi & Hhp & Ho & Hl & Htr & Hdm & Hc & Hc').
  assert (Hd' : forall d', prop o key = VProp d' -> d' = d).
  { intros d' Heq. rewrite Heq in Hd. by injection Hd. }
  destruct (dependentKeys d) as [|dep0 deps] eqn:Hdeps.
  - split; [done|]. split; [done|]. split; [done|]. split; [done|]. split; [done|].
    split; [done|]. split; [done|]. split; [by rewrite Hdm|].
    intros d' Heq. apply Hd' in Heq as ->. split; [exact Hc'|].
    intros dep Hin. rewrite Hdeps in Hin. by apply elem_of_nil in Hin.
  - split; [done|]. split; [done|]. split; [done|]. split; [done|]. split; [done|].
    split; [done|]. split; [done|]. split.
    + intros dep x Hx.
      destruct (registerDependentKey_lists key (dep0 :: deps) o1 dep) as (Heq & _).
      rewrite Heq, Hdm. apply elem_of_app. by left.
    + intros d' Heq. apply Hd' in Heq as ->. split; [exact Hc'|].
      intros dep Hin. rewrite Hdeps in Hin.
      destruct (registerDependentKey_lists key (dep0 :: deps) o1 dep) as (Heq & _).
      rewrite Heq. apply elem_of_app. right.
      pose proof (occurrences_pos dep _ Hin) as Hpos.
      destruct (occurrences dep (dep0 :: deps)); [lia|]. simpl. apply list_elem_of_here.
Qed.

Lemma init_fold_facts keys o :
  let o' := foldl init_property o keys in
  props o' = props o
  /\ hub_observableInited o' = hub_observableInited o
  /\ kvo_observers o' = kvo_observers o
  /\ kvo_changeLevel o' = kvo_changeLevel o
  /\ trace o' = trace o
  /\ (kvo_cacheable o = true -> kvo_cacheable o' = true)
  /\ (forall dep x, x ∈ default [] (dependents_of o !! dep) ->
                    x ∈ default [] (dependents_of o' !! dep))
  /\ (forall key d, key ∈ keys -> prop o key = VProp d ->
        (isCacheable d = true -> kvo_cacheable o' = true)
        /\ (forall dep, dep ∈ dependentKeys d ->
              key ∈ default [] (dependents_of o' !! dep))).
Proof.
  revert o. induction keys as [|k keys IH]; intros o; cbn [foldl].
  - repeat split; try done. all: intros; by apply elem_of_nil in H.
  - destruct (init_property_facts o k) as (Hp & Hi & _ & Ho & Hl & Htr & Hc & Hmono & Hnew).
    destruct (IH (init_property o k)) as (Hp' & Hi' & Ho' & Hl' & Htr' & Hc' & Hmono' & Hnew').
    cbn zeta in *.
    split; [by rewrite Hp'|]. split; [by rewrite Hi'|]. split; [by rewrite Ho'|].
    split; [by rewrite Hl'|]. split; [by rewrite Htr'|]. split; [auto|].
    split; [auto|].
    intros key d Hin Hd. apply elem_of_cons in Hin as [->|Hin].
    + destruct (Hnew d Hd) as [Hcd Hreg]. split; [auto|]. intros dep Hdep. auto.
    + apply (Hnew' key d Hin). unfold prop. by rewrite Hp.
Qed.


(** The sample person is what [initObservable] makes of the object as it
    was created. *)
Example initObservable_sample : initObservable Fixture.fresh = Sample.person.
Proof. vm_compute. reflexivity. Qed.

(** ** Registering and removing observers *)

Lemma same_pair_true tg me m :
  ObserverSet.same_pair tg me m = true <-> m_target m = tg /\ m_method m = me.
Proof.
  unfold ObserverSet.same_pair. rewrite andb_true_iff, !strict_eq_true. done.
Qed.

Lemma same_pair_false tg me m :
  ObserverSet.same_pair tg me m = false <-> (m_target m, m_method m) <> (tg, me).
Proof.
  rewrite <- not_true_iff_false, same_pair_true. split.
  - intros H [= ??]. by apply H.
  - intros H [??]. apply H. congruence.
Qed.

(** The members of a set after [add]: the former ones and a member for
    the pair added, which keeps the slot of the member it replaces. *)
Lemma ObserverSet_add_sound tg me ctx s m' :
  m' ∈ ObserverSet.add tg me ctx s ->
  m' ∈ s
  \/ (m_target m' = tg /\ m_method m' = me
      /\ (m_last m' = None \/ exists m, m ∈ s /\ m_last m' = m_last m)).
Proof.
  induction s as [|m s IH]; cbn [ObserverSet.add].
  - rewrite list_elem_of_singleton. intros ->. right. simpl. by repeat split; [..|left].
  - destruct (ObserverSet.same_pair tg me m) eqn:Hm.
    + intros [->|Hin]%elem_of_cons.
      * right. simpl. repeat split; try done. right. exists m. split; [by left|done].
      * left. by right.
    + intros [->|Hin]%elem_of_cons; [left; by left|].
      destruct (IH Hin) as [?|(?&?&[?|(m0 & ? & ?)])].
      * left. by right.
      * right. repeat split; try done. by left.
      * right. repeat split; try done. right. exists m0. split; [by right|done].
Qed.

Lemma ObserverSet_add_complete tg me ctx s :
  exists m', m' ∈ ObserverSet.add tg me ctx s /\ m_target m' = tg /\ m_method m' = me.
Proof.
  induction s as [|m s IH]; cbn [ObserverSet.add].
  - eexists. split; [apply list_elem_of_here|done].
  - destruct (ObserverSet.same_pair tg me m).
    + eexists. split; [apply list_elem_of_here|done].
    + destruct IH as (m' & Hin & ?). exists m'. split; [by right|done].
Qed.

Lemma ObserverSet_add_keeps tg me ctx s m :
  m ∈ s -> ObserverSet.same_pair tg me m = false -> m ∈ ObserverSet.add tg me ctx s.
Proof.
  intros Hin Hm. induction s as [|m0 s IH]; [by apply elem_of_nil in Hin|].
  cbn [ObserverSet.add]. apply elem_of_cons in Hin as [->|Hin].
  - rewrite Hm. by left.
  - destruct (ObserverSet.same_pair tg me m0); right; [done|by apply IH].
Qed.

Lemma ObserverSet_add_pairs tg me ctx s p :
  p ∈ ObserverSet.pairs (ObserverSet.add tg me ctx s) ->
  p ∈ ObserverSet.pairs s \/ p = (tg, me).
Proof.
  unfold ObserverSet.pairs. intros (m' & -> & Hin)%list_elem_of_fmap.
  destruct (ObserverSet_add_sound _ _ _ _ _ Hin) as [?|(<- & <- & _)]; [|by right].
  left. apply list_elem_of_fmap. by exists m'.
Qed.

Lemma ObserverSet_add_NoDup tg me ctx s :
  NoDup (ObserverSet.pairs s) -> NoDup (ObserverSet.pairs (ObserverSet.add tg me ctx s)).
Proof.
  induction s as [|m s IH]; cbn [ObserverSet.add]; intros Hnd.
  - unfold ObserverSet.pairs. simpl. apply NoDup_singleton.
  - destruct (ObserverSet.same_pair tg me m) eqn:Hm.
    + apply same_pair_true in Hm as [Ht Hme]. unfold ObserverSet.pairs in *. simpl in *.
      by rewrite <- Ht, <- Hme.
    + unfold ObserverSet.pairs in *. simpl in *. apply NoDup_cons in Hnd as [Hn Hnd].
      apply NoDup_cons. split; [|by apply IH].
      intros Hin. apply (ObserverSet_add_pairs tg me ctx s) in Hin as [?|Heq]; [done|].
      apply same_pair_false in Hm. done.
Qed.

Lemma ObserverSet_remove_elem tg me s m :
  m ∈ ObserverSet.remove tg me s <-> ObserverSet.same_pair tg me m = false /\ m ∈ s.
Proof. unfold ObserverSet.remove. by rewrite list_elem_of_filter. Qed.

Lemma ObserverSet_remove_NoDup tg me s :
  NoDup (ObserverSet.pairs s) -> NoDup (ObserverSet.pairs (ObserverSet.remove tg me s)).
Proof. unfold ObserverSet.pairs, ObserverSet.remove. apply NoDup_filter_sub. Qed.

(** Members as [addObserver] stores them are told apart by the receiver
    they are called on. *)
Lemma target_or_this_inj o m1 m2 :
  member_ok o m1 -> member_ok o m2 ->
  target_or_this o m1 = target_or_this o m2 -> m_target m1 = m_target m2.
Proof.
  intros [[H1|[H1 H1']] _] [[H2|[H2 H2']] _]; unfold target_or_this.
  - congruence.
  - rewrite H1, H2. simpl. congruence.
  - rewrite H1, H2. simpl. congruence.
  - by rewrite H1, H2.
Qed.

Lemma observer_sets_ok_wf o : observer_sets_ok o -> observer_sets_wf o.
Proof.
  intros Hok key ms Hk. destruct (Hok key ms Hk) as [Hnd Hall].
  rewrite Forall_forall in Hall.
  apply NoDup_fmap_2_strong; [|by eapply NoDup_fmap_1].
  intros m1 m2 H1 H2 [= Ht Hme].
  apply (NoDup_map_inj (fun m => (m_target m, m_method m)) ms); try done.
  f_equal; [|done]. apply (target_or_this_inj o); auto.
Qed.

Section ObserverEffects.
Variable body : nat -> gmap string value -> string -> value -> value.
Variable others : gmap nat (gmap string value).

Lemma get_unknown key o : prop o key = VUndefined -> get body key o = (VUndefined, o).
Proof. intros H. rewrite get_plain; by rewrite H. Qed.

(** [addObserver] on a key without a dot, the method found: the state it
    returns. *)
Lemma addObserver_plain key target method context o :
  has_char "." key = false ->
  truthy (snd (normalize others o target method)) = true ->
  (truthy (prop o "didAddObserver") = true -> callable (prop o "didAddObserver") = true) ->
  let tg := null_if_this o (fst (normalize others o target method)) in
  let me := snd (normalize others o target method) in
  let o1 := with_observed_keys (Some (CoreSet.add key (observed_keys_for o)))
              (with_observers
                 (fun os => <[key := ObserverSet.add tg me context
                                       (default ObserverSet.create (os !! key))]> os) o) in
  addObserver body others key target method context o =
  Return (if truthy (prop o "didAddObserver")
          then emit (Fire PDidAdd (prop o "didAddObserver") (VObj (self o))
                       [VStr key; tg; me]) o1
          else o1).
Proof.
  intros Hdot Hm Hhook. cbn zeta. unfold addObserver.
  destruct (normalize others o target method) as [tg me] eqn:Hn. cbn [fst snd] in *.
  rewrite Hm, Hdot. cbn [negb].
  assert ((if strict_eq (prop o key) VUndefined && starts_with_char "@" key
           then snd (get body key o) else o) = o) as ->.
  { destruct (strict_eq (prop o key) VUndefined) eqn:Hu; [|done].
    apply strict_eq_true in Hu. rewrite get_unknown by done. by destruct (starts_with_char _ _). }
  cbv zeta.
  match goal with |- context [truthy (prop ?x "didAddObserver")] =>
    change (prop x "didAddObserver") with (prop o "didAddObserver") end.
  destruct (truthy (prop o "didAddObserver")) eqn:Ht; [|done].
  unfold invoke. by rewrite (Hhook eq_refl).
Qed.

Lemma normalize_target_truthy o target method :
  truthy (fst (normalize others o target method)) = true.
Proof.
  unfold normalize. destruct (strict_eq method VUndefined); simpl.
  - done.
  - destruct (truthy target) eqn:Ht; simpl; [|done].
    by destruct method.
Qed.

Lemma null_if_this_back o tg :
  truthy tg = true ->
  target_or_this o (Member (null_if_this o tg) VUndefined VUndefined None) = tg.
Proof.
  intros Ht. unfold target_or_this, null_if_this. simpl.
  destruct (strict_eq tg (VObj (self o))) eqn:He.
  - apply strict_eq_true in He. by subst.
  - by rewrite Ht.
Qed.

Lemma null_if_this_ok o tg :
  truthy tg = true ->
  null_if_this o tg = VNull
  \/ (truthy (null_if_this o tg) = true /\ null_if_this o tg <> VObj (self o)).
Proof.
  intros Ht. unfold null_if_this. destruct (strict_eq tg (VObj (self o))) eqn:He.
  - by left.
  - right. split; [done|]. by apply strict_eq_false in He.
Qed.

End ObserverEffects.

Lemma target_of_stored o tg m :
  truthy tg = true -> m_target m = null_if_this o tg -> target_or_this o m = tg.
Proof.
  intros Ht Hm. unfold target_or_this. rewrite Hm. unfold null_if_this.
  destruct (strict_eq tg (VObj (self o))) eqn:He.
  - apply strict_eq_true in He. by subst.
  - by rewrite Ht.
Qed.

Lemma member_ok_ext o o1 m :
  self o1 = self o -> propertyRevision o1 = propertyRevision o ->
  member_ok o m -> member_ok o1 m.
Proof. intros Hs Hr. unfold member_ok. by rewrite Hs, Hr. Qed.

(** A change of [key] announced after the observer set of [key] was
    replaced by [ms']: the members of [ms'] are called, nobody else is for
    that key. *)
Lemma reregistered_effect fuel (rank : string -> nat) key v keep o o1 ms' :
  reregistered o o1 ->
  default [] (kvo_observers o1 !! key) = ms' ->
  (forall k, k <> key -> kvo_observers o1 !! k = kvo_observers o !! k) ->
  length (default [] (kvo_observed_keys o1)) <= length (default [] (kvo_observed_keys o)) + 1 ->
  hub_observableInited o = true -> observers_callable o -> observer_sets_ok o ->
  changes_wf o -> dependents_ranked rank o -> rank key <= fuel ->
  pass_budget o + 1 <= fuel -> kvo_changeLevel o = 0 -> key <> "" ->
  (forall m, m ∈ ms' -> callable (m_method m) = true) ->
  NoDup (ObserverSet.pairs ms') -> Forall (member_ok o) ms' ->
  observer_sets_ok o1
  /\ exists o2 evs,
       propertyDidChange fuel false key v keep o1 = Return o2
       /\ trace o2 = trace o1 ++ evs
       /\ (forall m, m ∈ ms' -> m_last m <> Some (S (propertyRevision o)) ->
             member_calls key (target_or_this o m) (m_method m) evs = 1)
       /\ (forall tg me,
             (forall m, m ∈ ms' -> (target_or_this o m, m_method m) <> (tg, me)) ->
             member_calls key tg me evs = 0).
Proof.
  intros (Hs & Hp & Hl & Hi & Hlev & Hch & Hrev & Hprev & Hdm & _) Hobs Hother Hlen
    Hinit Hcall Hok Hwf Hrank Hfuel Hbudget Hlevel Hkey Hcallable Hnd Hall.
  assert (Hkeyobs : forall ms, kvo_observers o1 !! key = Some ms -> ms = ms').
  { intros ms Hk. by rewrite Hk in Hobs. }
  assert (Hok1 : observer_sets_ok o1).
  { intros k ms. destruct (decide (k = key)) as [->|Hne].
    - intros ->%Hkeyobs. split; [done|].
      eapply Forall_impl; [exact Hall|]. intros m. by apply member_ok_ext.
    - rewrite Hother by done. intros Hk. destruct (Hok k ms Hk) as [? Hf].
      split; [done|]. eapply Forall_impl; [exact Hf|]. intros m. by apply member_ok_ext. }
  split; [exact Hok1|].
  assert (Hcall1 : observers_callable o1).
  { destruct Hcall as (H1 & H2 & H3). split; [|split].
    - intros k ms m. destruct (decide (k = key)) as [->|Hne].
      + intros ->%Hkeyobs. apply Hcallable.
      + rewrite Hother by done. apply H1.
    - intros k names name. rewrite Hl. unfold prop. rewrite Hp. apply H2.
    - unfold prop. rewrite Hp. exact H3. }
  assert (Htg : forall m, target_or_this o1 m = target_or_this o m).
  { intros m. unfold target_or_this. by rewrite Hs. }
  destruct (change_effect fuel rank key v keep o1)
    as (o2 & evs & Hret & Htr & _ & _ & _ & _ & Hzero & Hcalls); try done.
  { by rewrite Hi. }
  { unfold changes_wf. by rewrite Hch. }
  { by eapply dependents_ranked_frame. }
  { unfold pass_budget in *. rewrite Hch, (dependent_keys_of_frame o o1 Hdm). lia. }
  { by rewrite Hlev. }
  exists o2, evs. split; [done|]. split; [done|]. split.
  - intros m Hm Hlast. rewrite <- Htg.
    destruct (Hcalls (observer_sets_ok_wf o1 Hok1)) as [_ Hone].
    apply (Hone key key ms' m); try done.
    + by left.
    + apply reaches_here.
    + destruct (kvo_observers o1 !! key) as [ms|]; simpl in Hobs; [by subst|].
      subst. by apply elem_of_nil in Hm.
    + by rewrite Hprev.
  - intros tg me Habs. apply Hzero. rewrite Hobs.
    intros m Hm. rewrite Htg. by apply Habs.
Qed.


(** X12.  A function can be registered in three ways, [addObserver(key,
    func)], [addObserver(key, this, func)] and [addObserver(key, null,
    func)], and they are one: each stores the function with the target
    [null], to be called on the receiver.  The same holds of
    [removeObserver]. *)
Theorem observer_of_the_receiver
    (body : nat -> gmap string value -> string -> value -> value)
    (others : gmap nat (gmap string value))
    (key : string) (func context : value) (o : obj) :
  callable func = true ->
  addObserver body others key (VObj (self o)) func context o =
    addObserver body others key VNull func context o
  /\ addObserver body others key VUndefined func context o =
     addObserver body others key VNull func context o
  /\ addObserver body others key func VUndefined context o =
     addObserver body others key VNull func context o
  /\ removeObserver others key (VObj (self o)) func o =
     removeObserver others key VNull func o
  /\ removeObserver others key func VUndefined o =
     removeObserver others key VNull func o
  /\ fst (normalize others o VNull func) = VObj (self o)
  /\ null_if_this o (fst (normalize others o VNull func)) = VNull.
Proof.
  intros Hc.
  assert (Hn : forall t, t = VObj (self o) \/ truthy t = false ->
                 normalize others o t func = (VObj (self o), func)).
  { intros t Ht. unfold normalize.
    assert (strict_eq func VUndefined = false) as -> by (by destruct func).
    destruct Ht as [->|Ht]; [|rewrite Ht]; simpl; by destruct func. }
  assert (Hn' : normalize others o func VUndefined = (VObj (self o), func)).
  { unfold normalize. simpl. by destruct func. }
  unfold addObserver, removeObserver.
  rewrite (Hn (VObj (self o))), (Hn VNull), (Hn VUndefined), Hn' by auto.
  repeat split; try done.
  unfold null_if_this. simpl. by rewrite strict_eq_refl.
Qed.

Lemma observer_of_the_receiver_witness :
  addObserver Sample.body Sample.heap "first" (VFunc 20) VUndefined VUndefined Sample.person
  = addObserver Sample.body Sample.heap "first" VNull (VFunc 20) VUndefined Sample.person
  /\ exists o',
       addObserver Sample.body Sample.heap "first" (VObj 7) (VFunc 20) VUndefined
         Sample.person = Return o'
       /\ kvo_observers o' !! "first" = Some [Member VNull (VFunc 20) VUndefined None].
Proof.
  destruct (observer_of_the_receiver Sample.body Sample.heap "first" (VFunc 20) VUndefined
              Sample.person eq_refl) as (H1 & _ & H3 & _).
  split; [exact H3|].
  change (VObj 7) with (VObj (self Sample.person)). rewrite H1.
  eexists. split; [vm_compute; reflexivity|]. vm_compute. reflexivity.
Defined.

Lemma CoreSet_add_length_default key (ks : option (list string)) :
  length (CoreSet.add key (default CoreSet.create ks)) <= length (default [] ks) + 1.
Proof.
  pose proof (CoreSet_add_length key (default CoreSet.create ks)).
  unfold CoreSet.create in *. lia.
Qed.

(** X13.  [addObserver] takes effect and keeps the observer sets in order.
    After [addObserver(key, target, method)] on a key without a dot, the
    method being a function, the key has an observer, the observer sets are
    still sets of well-formed members, and the next change of the key
    calls the method exactly once, on the target given or, when none was
    given, on the receiver. *)
Theorem addObserver_takes_effect
    (body : nat -> gmap string value -> string -> value -> value)
    (others : gmap nat (gmap string value)) (fuel : nat) (rank : string -> nat)
    (key : string) (target method context v : value) (keep : bool) (o : obj) :
  hub_observableInited o = true -> observers_callable o -> observer_sets_ok o ->
  changes_wf o -> dependents_ranked rank o -> rank key <= fuel ->
  pass_budget o + 1 <= fuel -> kvo_changeLevel o = 0 ->
  key <> "" -> has_char "." key = false ->
  callable (snd (normalize others o target method)) = true ->
  (truthy (prop o "didAddObserver") = true -> callable (prop o "didAddObserver") = true) ->
  exists o1,
    addObserver body others key target method context o = Return o1
    /\ hasObserverFor key o1 = true
    /\ observer_sets_ok o1
    /\ exists o2 evs,
         propertyDidChange fuel false key v keep o1 = Return o2
         /\ trace o2 = trace o1 ++ evs
         /\ member_calls key (fst (normalize others o target method))
              (snd (normalize others o target method)) evs = 1.
Proof.
  intros Hinit Hcall Hok Hwf Hrank Hfuel Hbudget Hlevel Hkey Hdot Hme Hhook.
  assert (Htruthy : truthy (snd (normalize others o target method)) = true).
  { by destruct (snd (normalize others o target method)). }
  pose proof (addObserver_plain body others key target method context o Hdot Htruthy Hhook)
    as Hadd. cbn zeta in Hadd.
  pose proof (normalize_target_truthy others o target method) as Htg.
  set (tg0 := fst (normalize others o target method)) in *.
  set (me := snd (normalize others o target method)) in *.
  set (tg := null_if_this o tg0) in *.
  set (ms0 := default ObserverSet.create (kvo_observers o !! key)).
  set (ms' := ObserverSet.add tg me context ms0).
  assert (Hms0 : NoDup (ObserverSet.pairs ms0) /\ Forall (member_ok o) ms0
                 /\ forall m, m ∈ ms0 -> callable (m_method m) = true).
  { unfold ms0. destruct (kvo_observers o !! key) as [ms|] eqn:Hk; simpl.
    - destruct (Hok key ms Hk). split; [done|]. split; [done|].
      intros m Hm. destruct Hcall as (H1 & _). by apply (H1 key ms).
    - unfold ObserverSet.create. split; [constructor|]. split; [constructor|].
      intros m Hm. by apply elem_of_nil in Hm. }
  destruct Hms0 as (Hnd0 & Hall0 & Hcall0).
  rewrite Forall_forall in Hall0.
  assert (Hall' : Forall (member_ok o) ms').
  { apply Forall_forall. intros m Hm.
    destruct (ObserverSet_add_sound _ _ _ _ _ Hm) as [?|(Ht & _ & Hslot)]; [by apply Hall0|].
    split.
    - rewrite Ht. by apply null_if_this_ok.
    - intros r Hr. destruct Hslot as [Hn|(m0 & Hm0 & Heq)]; [congruence|].
      rewrite Heq in Hr. by apply (Hall0 m0 Hm0). }
  assert (Hcall' : forall m, m ∈ ms' -> callable (m_method m) = true).
  { intros m Hm.
    destruct (ObserverSet_add_sound _ _ _ _ _ Hm) as [?|(_ & -> & _)]; [by apply Hcall0|done]. }
  destruct (ObserverSet_add_complete tg me context ms0) as (m' & Hm' & Hmt & Hmm).
  fold ms' in Hm'.
  eexists. split; [exact Hadd|].
  match goal with |- context [hasObserverFor key ?x] => set (o1 := x) end.
  assert (Hobs1 : kvo_observers o1 = <[key := ms']> (kvo_observers o)).
  { unfold o1. by destruct (truthy (prop o "didAddObserver")). }
  assert (Hrr : reregistered o o1).
  { unfold o1. destruct (truthy (prop o "didAddObserver")); repeat split. }
  assert (Hlen : length (default [] (kvo_observed_keys o1))
                 <= length (default [] (kvo_observed_keys o)) + 1).
  { unfold o1. destruct (truthy (prop o "didAddObserver")); simpl;
      apply CoreSet_add_length_default. }
  split.
  { unfold hasObserverFor. rewrite Hobs1, lookup_insert_eq.
    destruct (kvo_local o1 !! key) as [[|??]|]; try done.
    all: destruct ms'; [by apply elem_of_nil in Hm'|done]. }
  destruct (reregistered_effect fuel rank key v keep o o1 ms')
    as (Hok1 & o2 & evs & Hret & Htr & Hone & _); try done.
  { by rewrite Hobs1, lookup_insert_eq. }
  { intros k Hne. by rewrite Hobs1, lookup_insert_ne. }
  { by apply ObserverSet_add_NoDup. }
  split; [done|]. exists o2, evs. split; [done|]. split; [done|].
  rewrite <- (target_of_stored o tg0 m' Htg Hmt), <- Hmm.
  apply Hone; [done|].
  rewrite Forall_forall in Hall'. destruct (Hall' m' Hm') as [_ Hslot].
  intros Heq. specialize (Hslot _ Heq). lia.
Qed.

Lemma member_okb_ok o m : member_okb o m = true -> member_ok o m.
Proof.
  unfold member_okb, member_ok. rewrite andb_true_iff, orb_true_iff, andb_true_iff.
  rewrite negb_true_iff, bool_decide_eq_true, bool_decide_eq_false.
  intros [Ht Hl]. split; [tauto|].
  intros r Hr. rewrite Hr in Hl. by apply bool_decide_eq_true in Hl.
Defined.

Lemma observer_sets_ok_intro o :
  map_Forall (fun _ ms => NoDup (ObserverSet.pairs ms)
                          /\ Forall (fun m => member_okb o m = true) ms)
             (kvo_observers o) ->
  observer_sets_ok o.
Proof.
  intros H key ms Hk. destruct (H key ms Hk) as [Hnd Hall]. split; [done|].
  eapply Forall_impl; [exact Hall|]. apply member_okb_ok.
Defined.

Lemma person_sets_ok : observer_sets_ok Sample.person.
Proof. apply observer_sets_ok_intro. apply (bool_decide_unpack _). vm_compute. exact I. Defined.

Lemma addObserver_takes_effect_witness :
  exists o1 o2 evs,
    addObserver Sample.body Sample.heap "first" (VObj 8) (VStr "bar") VUndefined
      Sample.person = Return o1
    /\ hasObserverFor "first" Sample.person = false
    /\ hasObserverFor "first" o1 = true
    /\ propertyDidChange 50 false "first" (VStr "B") false o1 = Return o2
    /\ trace o2 = trace o1 ++ evs
    /\ member_calls "first" (VObj 8) (VFunc 11) evs = 1.
Proof.
  destruct (addObserver_takes_effect Sample.body Sample.heap 50 Sample.rank "first"
              (VObj 8) (VStr "bar") VUndefined (VStr "B") false Sample.person)
    as (o1 & Hadd & Hhas & _ & o2 & evs & Hret & Htr & Hone).
  - reflexivity.
  - exact person_callable.
  - exact person_sets_ok.
  - exact person_changes_wf.
  - exact person_ranked.
  - vm_compute. lia.
  - vm_compute. lia.
  - reflexivity.
  - discriminate.
  - reflexivity.
  - reflexivity.
  - vm_compute. discriminate.
  - exists o1, o2, evs. split; [exact Hadd|]. split; [reflexivity|].
    split; [exact Hhas|]. split; [exact Hret|]. split; [exact Htr|exact Hone].
Defined.

(** [removeObserver] on a key without a dot, the method found: the state
    it returns. *)
Lemma removeObserver_plain others key target method o :
  has_char "." key = false ->
  truthy (snd (normalize others o target method)) = true ->
  (truthy (prop o "didRemoveObserver") = true ->
   callable (prop o "didRemoveObserver") = true) ->
  let tg := null_if_this o (fst (normalize others o target method)) in
  let me := snd (normalize others o target method) in
  let o1 := match kvo_observers o !! key with
            | Some observers =>
                let observers := ObserverSet.remove tg me observers in
                let o' := with_observers (<[key := observers]>) o in
                if ObserverSet.no_targets observers
                then with_observed_keys
                       (Some (CoreSet.remove key (observed_keys_for o'))) o'
                else o'
            | None => o
            end in
  removeObserver others key target method o =
  Return (if truthy (prop o "didRemoveObserver")
          then emit (Fire PDidRemove (prop o "didRemoveObserver") (VObj (self o))
                       [VStr key; tg; me]) o1
          else o1).
Proof.
  intros Hdot Hm Hhook. cbn zeta. unfold removeObserver.
  destruct (normalize others o target method) as [tg me] eqn:Hn. cbn [fst snd] in *.
  rewrite Hm, Hdot. cbn [negb]. cbv zeta.
  match goal with |- context [truthy (prop ?x "didRemoveObserver")] =>
    assert (Hx : prop x "didRemoveObserver" = prop o "didRemoveObserver"
                 /\ self x = self o) end.
  { destruct (kvo_observers o !! key); [|done].
    by destruct (ObserverSet.no_targets _). }
  destruct Hx as [Hx Hs]. rewrite Hx, Hs.
  destruct (truthy (prop o "didRemoveObserver")) eqn:Ht; [|done].
  unfold invoke. by rewrite (Hhook eq_refl).
Qed.

Lemma CoreSet_remove_length key ks : length (CoreSet.remove key ks) <= length ks.
Proof. unfold CoreSet.remove. apply length_filter. Qed.

(** The state [removeObserver] leaves, before the hook is called. *)
Lemma removed_state_facts key tg me o :
  let o1 := match kvo_observers o !! key with
            | Some observers =>
                let observers := ObserverSet.remove tg me observers in
                let o' := with_observers (<[key := observers]>) o in
                if ObserverSet.no_targets observers
                then with_observed_keys
                       (Some (CoreSet.remove key (observed_keys_for o'))) o'
                else o'
            | None => o
            end in
  reregistered o o1
  /\ trace o1 = trace o
  /\ default [] (kvo_observers o1 !! key)
     = ObserverSet.remove tg me (default [] (kvo_observers o !! key))
  /\ (forall k, k <> key -> kvo_observers o1 !! k = kvo_observers o !! k)
  /\ length (default [] (kvo_observed_keys o1))
     <= length (default [] (kvo_observed_keys o)) + 1
  /\ (kvo_observers o !! key = None ->
      kvo_observers o1 = kvo_observers o
      /\ kvo_observed_keys o1 = kvo_observed_keys o)
  /\ (default [] (kvo_observers o1 !! key) = [] ->
      key ∉ default [] (kvo_observed_keys o1) \/ kvo_observers o !! key = None).
Proof.
  cbn zeta. destruct (kvo_observers o !! key) as [ms|] eqn:Hk.
  - cbn [default].
    destruct (ObserverSet.no_targets (ObserverSet.remove tg me ms)) eqn:Hnt.
    + split; [repeat split|]. split; [done|].
      cbn [kvo_observers with_observed_keys with_observers].
      rewrite lookup_insert_eq. split; [done|].
      split; [intros k Hne; by rewrite lookup_insert_ne|].
      split.
      { cbn [kvo_observed_keys with_observed_keys default]. unfold id.
        etrans; [apply CoreSet_remove_length|]. apply Nat.le_add_r. }
      split; [done|].
      intros _. left. cbn [kvo_observed_keys with_observed_keys default]. unfold id.
      unfold CoreSet.remove. rewrite list_elem_of_filter. tauto.
    + split; [repeat split|]. split; [done|].
      cbn [kvo_observers with_observers].
      rewrite lookup_insert_eq. split; [done|].
      split; [intros k Hne; by rewrite lookup_insert_ne|].
      split; [cbn; lia|]. split; [done|].
      cbn [default]. unfold id. intros Hempty. by rewrite Hempty in Hnt.
  - rewrite Hk. split; [repeat split|]. split; [done|]. split; [done|].
    split; [done|]. split; [lia|]. split; [done|]. by right.
Qed.

(** X14.  [removeObserver] takes effect.  After [removeObserver(key,
    target, method)] on a key without a dot the next change of the key does
    not call the method on that target any more, while every other
    observer of the key is called once as before; the observer sets stay in
    order.  When the key had no observer set the call changes nothing, and
    when the last observer of the key goes the key leaves the observed
    keys. *)
Theorem removeObserver_takes_effect
    (others : gmap nat (gmap string value)) (fuel : nat) (rank : string -> nat)
    (key : string) (target method v : value) (keep : bool) (o : obj) :
  hub_observableInited o = true -> observers_callable o -> observer_sets_ok o ->
  changes_wf o -> dependents_ranked rank o -> rank key <= fuel ->
  pass_budget o + 1 <= fuel -> kvo_changeLevel o = 0 ->
  key <> "" -> has_char "." key = false ->
  truthy (snd (normalize others o target method)) = true ->
  (truthy (prop o "didRemoveObserver") = true ->
   callable (prop o "didRemoveObserver") = true) ->
  exists o1,
    removeObserver others key target method o = Return o1
    /\ observer_sets_ok o1
    /\ (kvo_observers o !! key = None ->
        kvo_observers o1 = kvo_observers o /\ kvo_observed_keys o1 = kvo_observed_keys o)
    /\ (forall ms, kvo_observers o !! key = Some ms ->
          default [] (kvo_observers o1 !! key) = [] ->
          key ∉ default [] (kvo_observed_keys o1))
    /\ exists o2 evs,
         propertyDidChange fuel false key v keep o1 = Return o2
         /\ trace o2 = trace o1 ++ evs
         /\ member_calls key (fst (normalize others o target method))
              (snd (normalize others o target method)) evs = 0
         /\ (forall m, m ∈ default [] (kvo_observers o !! key) ->
               (m_target m, m_method m) <>
                 (null_if_this o (fst (normalize others o target method)),
                  snd (normalize others o target method)) ->
               m_last m <> Some (S (propertyRevision o)) ->
               member_calls key (target_or_this o m) (m_method m) evs = 1).
Proof.
  intros Hinit Hcall Hok Hwf Hrank Hfuel Hbudget Hlevel Hkey Hdot Hme Hhook.
  pose proof (removeObserver_plain others key target method o Hdot Hme Hhook) as Hrem.
  cbn zeta in Hrem.
  pose proof (normalize_target_truthy others o target method) as Htg.
  set (tg0 := fst (normalize others o target method)) in *.
  set (me := snd (normalize others o target method)) in *.
  set (tg := null_if_this o tg0) in *.
  set (ms0 := default [] (kvo_observers o !! key)).
  set (ms' := ObserverSet.remove tg me ms0).
  assert (Hms0 : NoDup (ObserverSet.pairs ms0) /\ Forall (member_ok o) ms0
                 /\ forall m, m ∈ ms0 -> callable (m_method m) = true).
  { unfold ms0. destruct (kvo_observers o !! key) as [ms|] eqn:Hk; simpl.
    - destruct (Hok key ms Hk). split; [done|]. split; [done|].
      intros m Hm. destruct Hcall as (H1 & _). by apply (H1 key ms).
    - split; [constructor|]. split; [constructor|].
      intros m Hm. by apply elem_of_nil in Hm. }
  destruct Hms0 as (Hnd0 & Hall0 & Hcall0).
  rewrite Forall_forall in Hall0.
  eexists. split; [exact Hrem|].
  match goal with |- observer_sets_ok ?x /\ _ => set (o1 := x) end.
  assert (Hfacts : reregistered o o1
            /\ default [] (kvo_observers o1 !! key) = ms'
            /\ (forall k, k <> key -> kvo_observers o1 !! k = kvo_observers o !! k)
            /\ length (default [] (kvo_observed_keys o1))
               <= length (default [] (kvo_observed_keys o)) + 1
            /\ (kvo_observers o !! key = None ->
                kvo_observers o1 = kvo_observers o
                /\ kvo_observed_keys o1 = kvo_observed_keys o)
            /\ (default [] (kvo_observers o1 !! key) = [] ->
                key ∉ default [] (kvo_observed_keys o1) \/ kvo_observers o !! key = None)).
  { destruct (removed_state_facts key tg me o) as (H1 & _ & H2 & H3 & H4 & H5 & H6).
    cbn zeta in *. unfold o1.
    destruct (truthy (prop o "didRemoveObserver")).
    - split; [exact H1|]. split; [exact H2|]. split; [exact H3|]. split; [exact H4|].
      split; [exact H5|exact H6].
    - split; [exact H1|]. split; [exact H2|]. split; [exact H3|]. split; [exact H4|].
      split; [exact H5|exact H6]. }
  destruct Hfacts as (Hrr & Hobs1 & Hother & Hlen & Hnone & Hlast).
  assert (Hsub : forall m, m ∈ ms' -> m ∈ ms0 /\ (m_target m, m_method m) <> (tg, me)).
  { intros m Hm. apply ObserverSet_remove_elem in Hm as [Hp Hm].
    split; [done|]. by apply same_pair_false. }
  destruct (reregistered_effect fuel rank key v keep o o1 ms')
    as (Hok1 & o2 & evs & Hret & Htr & Hone & Hzero); try done.
  { intros m Hm. apply Hcall0. by apply Hsub. }
  { by apply ObserverSet_remove_NoDup. }
  { apply Forall_forall. intros m Hm. apply Hall0. by apply Hsub. }
  split; [done|]. split; [done|].
  split. { intros ms Hk Hempty. destruct (Hlast Hempty) as [?|Hn]; [done|congruence]. }
  exists o2, evs. split; [done|]. split; [done|]. split.
  - apply Hzero. intros m Hm [= Ht Hmm].
    destruct (Hsub m Hm) as [Hin Hne]. apply Hne. f_equal; [|done].
    (* the stored target of a member called on [tg0] is [tg] *)
    destruct (Hall0 m Hin) as [[Hnull|[Htr' Hnself]] _].
    + unfold target_or_this in Ht. rewrite Hnull in Ht |- *. simpl in Ht.
      unfold tg, null_if_this. rewrite <- Ht. by rewrite strict_eq_refl.
    + unfold target_or_this in Ht. rewrite Htr' in Ht. rewrite Ht in *.
      unfold tg, null_if_this.
      by rewrite (proj2 (strict_eq_false tg0 (VObj (self o))) Hnself).
  - intros m Hm Hne Hlastm. apply Hone; [|done].
    apply ObserverSet_remove_elem. split; [by apply same_pair_false|done].
Qed.

Lemma removeObserver_takes_effect_witness :
  exists o1 o2 evs,
    removeObserver Sample.heap "value" (VObj 8) (VStr "bar") Sample.person = Return o1
    /\ propertyDidChange 50 false "value" (VNum 2) false o1 = Return o2
    /\ trace o2 = trace o1 ++ evs
    /\ member_calls "value" (VObj 8) (VFunc 11) evs = 0
    /\ member_calls "value" (VObj 7) (VFunc 10) evs = 1.
Proof.
  destruct (removeObserver_takes_effect Sample.heap 50 Sample.rank "value"
              (VObj 8) (VStr "bar") (VNum 2) false Sample.person)
    as (o1 & Hrem & _ & _ & _ & o2 & evs & Hret & Htr & Hzero & Hone).
  - reflexivity.
  - exact person_callable.
  - exact person_sets_ok.
  - exact person_changes_wf.
  - exact person_ranked.
  - vm_compute. lia.
  - vm_compute. lia.
  - reflexivity.
  - discriminate.
  - reflexivity.
  - reflexivity.
  - vm_compute. discriminate.
  - exists o1, o2, evs. split; [exact Hrem|]. split; [exact Hret|]. split; [exact Htr|].
    split; [exact Hzero|].
    apply (Hone (Member VNull (VFunc 10) VUndefined None)).
    + apply list_elem_of_here.
    + vm_compute. discriminate.
    + discriminate.
Defined.

(** ** Notifying everything *)




(** ** Counting and toggling *)

Lemma answering_get body key v o' r :
  r = Return o' -> prop o' key = v -> as_property v = None ->
  answering r (get body key) = Answer v o'.
Proof.
  intros -> Hk Hv. unfold answering. rewrite get_plain; by rewrite Hk.
Qed.

(** X16.  [incrementProperty] counts up by one: on a key that holds an
    integer, a boolean or [null], or that is missing, it stores the number
    one above (a missing, [null], [false] or zero value counts as zero),
    announces the change, and hands the new number back. *)
Theorem incrementProperty_counts
    (add_other : value -> value -> value)
    (body : nat -> gmap string value -> string -> value -> value)
    (fuel : nat) (rank : string -> nat) (suspended : bool)
    (key : string) (n : Z) (o : obj) :
  to_integer (js_or (prop o key) (VNum 0)) = Some n -> exact (n + 1) = true ->
  hub_observableInited o = true ->
  observers_callable (with_props (<[key := VNum (n + 1)]>) o) -> changes_wf o ->
  dependents_ranked rank o -> rank key <= fuel -> pass_budget o <= fuel ->
  keeps_name o key -> key <> "undefined" ->
  exists o',
    incrementProperty add_other body fuel suspended key o = Answer (VNum (n + 1)) o'
    /\ prop o' key = VNum (n + 1)
    /\ kvo_revision o' = kvo_revision o + 1.
Proof.
  intros Hn Hex Hinit Hcall Hwf Hrank Hfuel Hbudget Hname Hundef.
  assert (Hplain : as_property (prop o key) = None).
  { unfold js_or in Hn. by destruct (prop o key). }
  assert (Hne : prop o key <> VNum (n + 1)).
  { intros Heq. rewrite Heq in Hn. unfold js_or in Hn. simpl in Hn.
    destruct (n + 1 =? 0)%Z eqn:Hz; simpl in Hn.
    - injection Hn as <-. lia.
    - rewrite Hex in Hn. injection Hn as Hn. lia. }
  unfold incrementProperty. rewrite get_plain by done.
  assert (js_add add_other (js_or (prop o key) (VNum 0)) (VNum 1) = VNum (n + 1)) as ->.
  { unfold js_add. rewrite Hn. change (to_integer (VNum 1)) with (Some 1%Z).
    cbv beta iota. by rewrite Hex. }
  destruct (set_get_back body fuel rank suspended key (VNum (n + 1)) o)
    as (o' & Hset & Hk & Hrev); try done.
  exists o'. split; [by apply answering_get|]. split; [done|].
  apply Hrev. by right.
Qed.

Lemma incrementProperty_counts_witness :
  exists o1 o2,
    incrementProperty (fun _ _ => VUndefined) Sample.body 50 false "value" Sample.person
      = Answer (VNum 2) o1
    /\ incrementProperty (fun _ _ => VUndefined) Sample.body 50 false "count"
         Sample.person = Answer (VNum 1) o2
    /\ kvo_revision o2 = 1.
Proof.
  destruct (incrementProperty_counts (fun _ _ => VUndefined) Sample.body 50 Sample.rank
              false "value" 1 Sample.person) as (o1 & H1 & _).
  - reflexivity.
  - reflexivity.
  - reflexivity.
  - apply observers_callable_intro.
    + apply (bool_decide_unpack _). vm_compute. exact I.
    + apply (bool_decide_unpack _). vm_compute. exact I.
    + vm_compute. discriminate.
  - exact person_changes_wf.
  - exact person_ranked.
  - vm_compute. lia.
  - vm_compute. lia.
  - apply keeps_name_intro. apply (bool_decide_unpack _). vm_compute. exact I.
  - discriminate.
  - destruct (incrementProperty_counts (fun _ _ => VUndefined) Sample.body 50 Sample.rank
                false "count" 0 Sample.person) as (o2 & H2 & _ & Hrev).
    + reflexivity.
    + reflexivity.
    + reflexivity.
    + apply observers_callable_intro.
      * apply (bool_decide_unpack _). vm_compute. exact I.
      * apply (bool_decide_unpack _). vm_compute. exact I.
      * vm_compute. discriminate.
    + exact person_changes_wf.
    + exact person_ranked.
    + vm_compute. lia.
    + vm_compute. lia.
    + apply keeps_name_intro. apply (bool_decide_unpack _). vm_compute. exact I.
    + discriminate.
    + exists o1, o2. split; [exact H1|]. split; [exact H2|exact Hrev].
Defined.

(** X17.  [decrementProperty] counts down by one, below zero as well: on
    a key that holds an integer, a boolean or [null], or that is missing,
    it stores the number one below (a missing value counts as zero, and
    becomes -1), announces the change, and hands the new number back. *)
Theorem decrementProperty_counts
    (sub_other : value -> value -> value)
    (body : nat -> gmap string value -> string -> value -> value)
    (fuel : nat) (rank : string -> nat) (suspended : bool)
    (key : string) (n : Z) (o : obj) :
  to_integer (js_or (prop o key) (VNum 0)) = Some n -> exact (n - 1) = true ->
  hub_observableInited o = true ->
  observers_callable (with_props (<[key := VNum (n - 1)]>) o) -> changes_wf o ->
  dependents_ranked rank o -> rank key <= fuel -> pass_budget o <= fuel ->
  keeps_name o key -> key <> "undefined" ->
  exists o',
    decrementProperty sub_other body fuel suspended key o = Answer (VNum (n - 1)) o'
    /\ prop o' key = VNum (n - 1)
    /\ kvo_revision o' = kvo_revision o + 1.
Proof.
  intros Hn Hex Hinit Hcall Hwf Hrank Hfuel Hbudget Hname Hundef.
  assert (Hplain : as_property (prop o key) = None).
  { unfold js_or in Hn. by destruct (prop o key). }
  assert (Hne : prop o key <> VNum (n - 1)).
  { intros Heq. rewrite Heq in Hn. unfold js_or in Hn. simpl in Hn.
    destruct (n - 1 =? 0)%Z eqn:Hz; simpl in Hn.
    - injection Hn as <-. lia.
    - rewrite Hex in Hn. injection Hn as Hn. lia. }
  unfold decrementProperty. rewrite get_plain by done.
  assert (js_sub sub_other (js_or (prop o key) (VNum 0)) (VNum 1) = VNum (n - 1)) as ->.
  { unfold js_sub. rewrite Hn. change (to_integer (VNum 1)) with (Some 1%Z).
    cbv beta iota. by rewrite Hex. }
  destruct (set_get_back body fuel rank suspended key (VNum (n - 1)) o)
    as (o' & Hset & Hk & Hrev); try done.
  exists o'. split; [by apply answering_get|]. split; [done|].
  apply Hrev. by right.
Qed.

Lemma decrementProperty_counts_witness :
  exists o',
    decrementProperty (fun _ _ => VUndefined) Sample.body 50 false "count" Sample.person
      = Answer (VNum (-1)) o'
    /\ prop o' "count" = VNum (-1).
Proof.
  destruct (decrementProperty_counts (fun _ _ => VUndefined) Sample.body 50 Sample.rank
              false "count" 0 Sample.person) as (o' & H1 & H2 & _).
  - reflexivity.
  - reflexivity.
  - reflexivity.
  - apply observers_callable_intro.
    + apply (bool_decide_unpack _). vm_compute. exact I.
    + apply (bool_decide_unpack _). vm_compute. exact I.
    + vm_compute. discriminate.
  - exact person_changes_wf.
  - exact person_ranked.
  - vm_compute. lia.
  - vm_compute. lia.
  - apply keeps_name_intro. apply (bool_decide_unpack _). vm_compute. exact I.
  - discriminate.
  - exists o'. split; [exact H1|exact H2].
Defined.

(** X18.  [toggleProperty(key)] flips a boolean: on a key that holds
    [true] it stores [false] and hands it back, and on a key that holds
    [false], or that is missing, it stores [true].  With a value and an
    alternative given, a key that holds the value (as [==] compares) gets
    the alternative, any other key the value. *)
Theorem toggleProperty_flips
    (loose_other : value -> value -> bool)
    (body : nat -> gmap string value -> string -> value -> value)
    (fuel : nat) (rank : string -> nat) (suspended : bool)
    (key : string) (value alt : value) (o : obj) :
  let on := if strict_eq value VUndefined then VBool true else value in
  let off := if strict_eq alt VUndefined then VBool false else alt in
  let next := if loose_eq loose_other (prop o key) on then off else on in
  as_property (prop o key) = None -> as_property next = None ->
  hub_observableInited o = true ->
  observers_callable (with_props (<[key := next]>) o) -> changes_wf o ->
  dependents_ranked rank o -> rank key <= fuel -> pass_budget o <= fuel ->
  keeps_name o key -> key <> "undefined" ->
  (exists o',
     toggleProperty loose_other body fuel suspended key value alt o = Answer next o'
     /\ prop o' key = next)
  /\ (value = VUndefined -> alt = VUndefined ->
      forall b, prop o key = VBool b -> next = VBool (negb b))
  /\ (value = VUndefined -> prop o key = VUndefined -> next = VBool true).
Proof.
  intros on off next Hplain Hnext Hinit Hcall Hwf Hrank Hfuel Hbudget Hname Hundef.
  split; [|split].
  - unfold toggleProperty. rewrite get_plain by done. fold on off. fold next.
    destruct (set_get_back body fuel rank suspended key next o)
      as (o' & Hset & Hk & _); try done.
    exists o'. split; [by apply answering_get|done].
  - intros -> -> b Hb. unfold next, on, off. rewrite Hb. simpl. by destruct b.
  - intros -> Hu. unfold next, on. by rewrite Hu.
Qed.

Lemma toggleProperty_flips_witness :
  exists o1 o2,
    toggleProperty (fun _ _ => false) Sample.body 50 false "busy" VUndefined VUndefined
      Sample.person = Answer (VBool true) o1
    /\ toggleProperty (fun _ _ => false) Sample.body 50 false "busy" VUndefined VUndefined
         o1 = Answer (VBool false) o2.
Proof.
  destruct (toggleProperty_flips (fun _ _ => false) Sample.body 50 Sample.rank false
              "busy" VUndefined VUndefined Sample.person) as ((o1 & H1 & _) & _ & _).
  - reflexivity.
  - reflexivity.
  - reflexivity.
  - apply observers_callable_intro.
    + apply (bool_decide_unpack _). vm_compute. exact I.
    + apply (bool_decide_unpack _). vm_compute. exact I.
    + vm_compute. discriminate.
  - exact person_changes_wf.
  - exact person_ranked.
  - vm_compute. lia.
  - vm_compute. lia.
  - apply keeps_name_intro. apply (bool_decide_unpack _). vm_compute. exact I.
  - discriminate.
  - exists o1. eexists. split; [exact H1|].
    vm_compute in H1. injection H1 as <-. vm_compute. reflexivity.
Defined.

(** ** didChangeFor *)

Section DidChangeFacts.
Variable body : nat -> gmap string value -> string -> value -> value.

Lemma didChange_step_skip cur ret vals (revs : gmap string nat) o key :
  revs !! key = Some cur ->
  didChange_step body cur (ret, vals, revs, o) key = (ret, vals, revs, o).
Proof.
  intros H. unfold didChange_step. rewrite bool_decide_eq_true_2 by done.
  cbn [negb]. by rewrite insert_id.
Qed.

Lemma didChange_fold_skip cur ret vals (revs : gmap string nat) o l :
  (forall k, k ∈ l -> revs !! k = Some cur) ->
  foldl (didChange_step body cur) (ret, vals, revs, o) l = (ret, vals, revs, o).
Proof.
  induction l as [|k l IH]; intros H; [done|]. cbn [foldl].
  rewrite didChange_step_skip by (apply H; by left). apply IH.
  intros k' Hk'. apply H. by right.
Qed.

(** After the loop, every key gone through is marked with the current
    revision, the marks made before are kept, and the object has the
    revision it had. *)
Lemma didChange_fold_marks cur l ret vals (revs : gmap string nat) o :
  let '(_, _, revs', o') := foldl (didChange_step body cur) (ret, vals, revs, o) l in
  (forall k, k ∈ l -> revs' !! k = Some cur)
  /\ (forall k, revs !! k = Some cur -> revs' !! k = Some cur)
  /\ kvo_revision o' = kvo_revision o.
Proof.
  revert ret vals revs o. induction l as [|k l IH]; intros ret vals revs o; cbn [foldl].
  - split; [intros k Hk; by apply elem_of_nil in Hk|done].
  - destruct (didChange_step body cur (ret, vals, revs, o) k)
      as [[[ret1 vals1] revs1] o1] eqn:Hstep.
    assert (Hs : revs1 = <[k := cur]> revs /\ kvo_revision o1 = kvo_revision o).
    { unfold didChange_step in Hstep. destruct (negb _).
      - pose proof (get_frame body k o) as Hg. cbn zeta in Hg.
        destruct (get body k o) as [value og]. simpl in Hg.
        destruct (negb _); injection Hstep as <- <- <- <-; split; try done; tauto.
      - by injection Hstep as <- <- <- <-. }
    destruct Hs as [-> Hr1].
    specialize (IH ret1 vals1 (<[k := cur]> revs) o1).
    destruct (foldl _ _ l) as [[[ret' vals'] revs'] o'].
    destruct IH as (H1 & H2 & H3). split; [|split].
    + intros k' [->|Hk']%elem_of_cons; [|by apply H1].
      apply H2. apply lookup_insert_eq.
    + intros k' Hk'. apply H2. destruct (decide (k = k')) as [->|Hne].
      * apply lookup_insert_eq.
      * by rewrite lookup_insert_ne.
    + by rewrite H3.
Qed.

(** X19.  [didChangeFor] answers once per revision: a second call with the
    same context and keys, with no change announced in between, answers
    [false], reads no property and leaves everything as the first call left
    it, whatever happened to the values. *)
Theorem didChangeFor_once_per_revision (hashFor : value -> string)
    (context : value) (keys : list string) (s : seen) (o : obj) :
  let '(_, s1, o1) := didChangeFor body hashFor context keys s o in
  forall o2,
    kvo_revision o2 = kvo_revision o1 ->
    didChangeFor body hashFor context keys s1 o2 = (false, s1, o2).
Proof.
  unfold didChangeFor at 1. cbn zeta.
  pose proof (didChange_fold_marks (kvo_revision o) (reverse keys) false
                (default ∅ (valueCache s !! hashFor context))
                (default ∅ (revisionCache s !! hashFor context)) o) as Hm.
  destruct (foldl _ _ (reverse keys)) as [[[ret vals] revs] o1].
  destruct Hm as (Hmarks & _ & Hrev).
  intros o2 Hrev2. unfold didChangeFor. cbn [valueCache revisionCache].
  rewrite !lookup_insert_eq. cbn [default].
  rewrite didChange_fold_skip.
  - by rewrite !insert_insert_eq.
  - intros k Hk. rewrite Hrev2, Hrev. by apply Hmarks.
Qed.

End DidChangeFacts.

Lemma didChangeFor_once_per_revision_witness :
  let first := didChangeFor Sample.body (fun _ => "render") (VStr "render")
                 ["value"; "first"] (Seen ∅ ∅) Sample.person in
  let later := with_props (<["value" := VNum 9]>) Sample.person in
  fst (fst first) = true
  /\ didChangeFor Sample.body (fun _ => "render") (VStr "render") ["value"; "first"]
       (snd (fst first)) later = (false, snd (fst first), later).
Proof.
  cbn zeta. split; [vm_compute; reflexivity|].
  pose proof (didChangeFor_once_per_revision Sample.body (fun _ => "render") (VStr "render")
                ["value"; "first"] (Seen ∅ ∅) Sample.person) as H.
  revert H.
  destruct (didChangeFor Sample.body (fun _ => "render") (VStr "render")
              ["value"; "first"] (Seen ∅ ∅) Sample.person) as [[r s1] o1] eqn:E.
  intros H. cbn [fst snd]. apply H.
  vm_compute in E. injection E as _ _ <-. reflexivity.
Defined.

Section DidChangeDetects.
Variable body : nat -> gmap string value -> string -> value -> value.



End DidChangeDetects.


(** ** Edges of the notification *)

(** X21.  The empty key is announced only through a group.  Outside of any
    group, with nothing pending, [propertyDidChange('')] counts the
    revision and calls nobody, observers of the empty key included: the
    notification takes the empty string for no key at all. *)
Theorem empty_key_calls_nobody (fuel : nat) (rank : string -> nat)
    (v : value) (keep : bool) (o : obj) :
  hub_observableInited o = true -> kvo_changeLevel o = 0 -> has_pending o = false ->
  dependents_ranked rank o -> rank "" <= fuel -> 1 <= fuel ->
  exists o',
    propertyDidChange fuel false "" v keep o = Return o'
    /\ trace o' = trace o
    /\ kvo_observers o' = kvo_observers o
    /\ kvo_revision o' = kvo_revision o + 1
    /\ propertyRevision o' = propertyRevision o.
Proof.
  intros Hinit Hlevel Hpend Hrank Hfuel Hone.
  destruct (propertyDidChange_block_returns fuel rank "" keep o Hrank Hfuel)
    as (o1 & (c & cd & ->) & Heq).
  rewrite Heq, Hlevel. rewrite bool_decide_eq_false_2 by lia. cbn [orb].
  rewrite notify_idle; [|done|done|].
  - eexists. split; [reflexivity|]. by repeat split.
  - change (has_pending _) with (has_pending o). by rewrite Hpend.
Qed.

Lemma empty_key_calls_nobody_witness :
  exists o o',
    addObserver Sample.body Sample.heap "" VNull (VFunc 10) VUndefined Sample.person
      = Return o
    /\ hasObserverFor "" o = true
    /\ propertyDidChange 50 false "" VNull false o = Return o'
    /\ trace o' = [].
Proof.
  eexists.
  match goal with |- exists o', ?A = Return ?x /\ _ =>
    assert (Hadd : A = Return x) by (vm_compute; reflexivity) end.
  destruct (empty_key_calls_nobody 50 Sample.rank VNull false
              (with_observed_keys (Some ["value"; ""])
                 (with_observers (<["" := [Member VNull (VFunc 10) VUndefined None]]>)
                    Sample.person))) as (o' & Hret & Htr & _).
  - reflexivity.
  - reflexivity.
  - reflexivity.
  - exact person_ranked.
  - vm_compute. lia.
  - lia.
  - exists o'. split; [vm_compute; reflexivity|]. split; [reflexivity|].
    split; [exact Hret|exact Htr].
Defined.

Lemma clear_dependents_memo_none fuel key cache o :
  cachedep_memo o key = Some None -> clear_dependents fuel key cache o = Return o.
Proof. unfold cachedep_memo, clear_dependents. by intros ->. Qed.

(** X22.  Inside a group [set] trusts the memo of the cached dependents.
    When the memo of a key says that no cached property depends on it, a
    [set] of the key inside a group clears no cache slot: a cacheable
    property keeps its cached value, and [get] hands it back without
    calling the function, also when the property was registered as a
    dependent of the key after the memo was made ([registerDependentKey]
    leaves the memo alone). *)
Theorem stale_memo_keeps_cache
    (body : nat -> gmap string value -> string -> value -> value)
    (fuel : nat) (key K : string) (v c : value) (o : obj)
    (cache : gmap string value) (d : descriptor) :
  0 < kvo_changeLevel o ->
  kvo_cacheable o = true -> kvo_cache o = Some cache ->
  cachedep_memo o key = Some None ->
  as_property (prop o key) = None -> prop o key <> VUndefined -> prop o key <> v ->
  as_property v = None ->
  key <> K -> prop o K = VProp d -> isCacheable d = true ->
  cache_get cache (jskey (cacheKey d)) = c -> c <> VUndefined ->
  (forall deps, cachedep_memo (registerDependentKey K deps o) key = cachedep_memo o key)
  /\ exists o',
       set body fuel false key v o = Return o'
       /\ prop o' key = v
       /\ key ∈ pending_keys o'
       /\ trace o' = trace o
       /\ get body K o' = (c, o').
Proof.
  intros Hlevel Hcb Hcache Hmemo Hplain Hdef Hne Hv HK Hd Hc Hslot Hcne.
  split; [done|].
  unfold set, invalidate_dependents. rewrite Hcache, Hcb.
  rewrite clear_dependents_memo_none by done. cbn [bind].
  unfold assign, automaticallyNotifiesObserversFor, propertyWillChange. rewrite Hplain.
  rewrite (proj2 (strict_eq_false _ _) Hdef), (proj2 (strict_eq_false _ _) Hne).
  cbn [negb].
  unfold propertyDidChange. simpl kvo_cache. rewrite Hcache. simpl kvo_cacheable.
  rewrite Hcb. cbn [negb].
  match goal with |- context [as_property (prop ?x key)] =>
    assert (E : prop x key = v) by (unfold prop; simpl; by rewrite lookup_insert_eq);
    rewrite E end.
  rewrite Hv.
  rewrite clear_dependents_memo_none by exact Hmemo. cbn [bind].
  simpl kvo_changeLevel. rewrite bool_decide_eq_true_2 by done. cbn [orb].
  eexists. split; [reflexivity|].
  split. { unfold prop. simpl. by rewrite lookup_insert_eq. }
  split. { unfold pending_keys. simpl. apply CoreSet_add_elem. by right. }
  split; [done|].
  match goal with |- get body K ?x = _ => set (o' := x) end.
  assert (Hk : prop o' K = VProp d).
  { unfold prop, o'. simpl. rewrite lookup_insert_ne by done. exact Hd. }
  rewrite (get_hit body K d o' c); try done.
Qed.

Lemma stale_memo_keeps_cache_witness :
  "fullName" ∈ default [] (dependents_of Fixture.belated !! "value")
  /\ exists o',
       set Sample.body 50 false "value" (VNum 2) Fixture.belated = Return o'
       /\ get Sample.body "fullName" o' = (VStr "A ", o').
Proof.
  split; [apply (bool_decide_unpack _); vm_compute; exact I|].
  destruct (stale_memo_keeps_cache Sample.body 50 "value" "fullName" (VNum 2) (VStr "A ")
              Fixture.belated (<["__cache__fullName" := VStr "A "]> ∅) Sample.fullName)
    as (_ & o' & Hset & _ & _ & _ & Hget); try reflexivity; try discriminate.
  - vm_compute. lia.
  - exists o'. split; [exact Hset|exact Hget].
Defined.

Lemma expand_prefix n dm idx changes o changes' o' :
  expand n dm idx changes o = Some (changes', o') -> exists l, changes' = changes ++ l.
Proof.
  intros He.
  destruct (expand_inv dm (fun _ c _ => exists l, c = changes ++ l)
              n idx changes o changes' o' He) as (_ & H & _); [| |done].
  - exists []. by rewrite app_nil_r.
  - intros i c oc k [l ->] _.
    destruct (expand_step_changes dm k (changes ++ l) oc) as ([l' ->] & _).
    exists (l ++ l'). by rewrite app_assoc.
Qed.

Lemma key_events_key starObservers rev o key e :
  e ∈ key_events starObservers rev o key -> event_key e = Some key.
Proof.
  unfold key_events. rewrite !elem_of_app. unfold member_events, local_events.
  intros [He|[He|[He|He]]].
  - apply list_elem_of_fmap in He as (m & -> & _). simpl.
    by destruct (observer_args_key o key (m_context m) rev) as (a & rest & ->).
  - by apply list_elem_of_fmap in He as (? & -> & _).
  - destruct (_ && _); [|by apply elem_of_nil in He].
    apply list_elem_of_fmap in He as (m & -> & _). simpl.
    by destruct (observer_args_key o key (m_context m) rev) as (a & rest & ->).
  - unfold hook_events in He. destruct (truthy _); [|by apply elem_of_nil in He].
    by apply list_elem_of_singleton in He as ->.
Qed.

(** X23.  Dependent keys come first.  A change announced outside of any
    group, with nothing pending, makes its calls in two runs: first all the
    calls for the keys that depend on the key, then the calls for the key
    itself. *)
Theorem dependents_are_called_first (fuel : nat) (rank : string -> nat)
    (key : string) (v : value) (keep : bool) (o : obj) :
  hub_observableInited o = true ->
  observers_callable o -> changes_wf o ->
  dependents_ranked rank o -> rank key <= fuel -> pass_budget o <= fuel ->
  kvo_changeLevel o = 0 -> has_pending o = false -> key <> "" -> key <> "*" ->
  exists o' before after,
    propertyDidChange fuel false key v keep o = Return o'
    /\ trace o' = trace o ++ before ++ after
    /\ Forall (fun e => event_key e <> Some key) before
    /\ Forall (fun e => event_key e = Some key) after.
Proof.
  intros Hinit Hcall Hwf Hrank Hfuel Hbudget Hlevel Hpend Hkey Hstar.
  destruct (propertyDidChange_block_returns fuel rank key keep o Hrank Hfuel)
    as (o1 & (c & cd & ->) & Heq).
  rewrite Heq, Hlevel. rewrite bool_decide_eq_false_2 by lia. cbn [orb].
  set (o1 := with_cachedep cd (with_cache c (with_revision (kvo_revision o + 1) o))).
  destruct (notify_closed_form fuel (Some key) o1)
    as (changes & o' & Hadd & Hf & Hnd & _ & Hret); try done.
  { rewrite key_truthy_nonempty by done. apply orb_true_r. }
  assert (Hchanges : exists l, changes = key :: l).
  { rewrite begin_pass_single in Hadd by done. unfold add_dependents in Hadd.
    cbn [fst snd] in Hadd.
    destruct (kvo_dependents _) as [dm|].
    - apply expand_prefix in Hadd as [l ->]. by exists l.
    - injection Hadd as <- _. by exists []. }
  destruct Hchanges as [l ->].
  apply NoDup_cons in Hnd as [Hnotin _].
  destruct (begin_pass_facts (Some key) (with_changeLevel (kvo_changeLevel o1 + 1) o1) Hwf)
    as (_ & _ & _ & _ & _ & _ & Htr & _).
  destruct Hf as (_ & _ & _ & _ & Htr' & _).
  eexists _, _, _. split; [exact Hret|]. split.
  { simpl. rewrite Htr', Htr. simpl. unfold pop_order. rewrite reverse_cons.
    rewrite map_app, concat_app. simpl. rewrite app_nil_r. reflexivity. }
  split.
  - apply Forall_forall. intros e He Hek.
    apply list_elem_of_In, in_concat in He as (evs & Hl & He).
    apply list_elem_of_In, list_elem_of_fmap in Hl as (k & -> & Hk).
    apply list_elem_of_In, key_events_key in He.
    rewrite elem_of_reverse in Hk. congruence.
  - apply Forall_forall. intros e He. by eapply key_events_key.
Qed.

Lemma dependents_are_called_first_witness :
  exists o',
    propertyDidChange 50 false "first" (VStr "B") false Fixture.family = Return o'
    /\ trace o' =
       [Fire PMember (VFunc 13) (VObj 7) [VObj 7; VStr "fullName"; VNull; VNum 2];
        Fire PStar (VFunc 12) (VObj 7) [VObj 7; VStr "fullName"; VNull; VNum 2]]
       ++ [Fire PStar (VFunc 12) (VObj 7) [VObj 7; VStr "first"; VNull; VNum 2]].
Proof.
  destruct (dependents_are_called_first 50 Sample.rank "first" (VStr "B") false
              Fixture.family) as (o' & before & after & Hret & _).
  - reflexivity.
  - exact family_callable.
  - exact family_changes_wf.
  - exact family_ranked.
  - vm_compute. lia.
  - vm_compute. lia.
  - reflexivity.
  - reflexivity.
  - discriminate.
  - discriminate.
  - exists o'. split; [exact Hret|].
    vm_compute in Hret. injection Hret as <-. reflexivity.
Defined.

(** ** The first notification *)

Lemma init_property_frame o key :
  self (init_property o key) = self o
  /\ kvo_local (init_property o key) = kvo_local o
  /\ kvo_changes (init_property o key) = kvo_changes o
  /\ kvo_observed_keys (init_property o key) = kvo_observed_keys o
  /\ propertyRevision (init_property o key) = propertyRevision o.
Proof.
  unfold init_property. cbn zeta. destruct (truthy _); [|done].
  destruct (as_property _) as [d|]; [|done].
  destruct (isCacheable d); by destruct (dependentKeys d).
Qed.

Lemma init_fold_frame keys o :
  self (foldl init_property o keys) = self o
  /\ kvo_local (foldl init_property o keys) = kvo_local o
  /\ kvo_changes (foldl init_property o keys) = kvo_changes o
  /\ kvo_observed_keys (foldl init_property o keys) = kvo_observed_keys o
  /\ propertyRevision (foldl init_property o keys) = propertyRevision o.
Proof.
  revert o. induction keys as [|k keys IH]; intros o; [done|]. cbn [foldl].
  destruct (IH (init_property o k)) as (-> & -> & -> & -> & ->).
  apply init_property_frame.
Qed.

(** What [initObservable] keeps and what it registers. *)
Lemma initObservable_facts o :
  hub_observableInited (initObservable o) = true
  /\ (props (initObservable o) = props o
      /\ kvo_observers (initObservable o) = kvo_observers o
      /\ trace (initObservable o) = trace o
      /\ self (initObservable o) = self o
      /\ kvo_local (initObservable o) = kvo_local o
      /\ kvo_changes (initObservable o) = kvo_changes o
      /\ kvo_observed_keys (initObservable o) = kvo_observed_keys o
      /\ propertyRevision (initObservable o) = propertyRevision o)
  /\ forall keys key d,
       hub_observableInited o = false -> hub_properties o = Some keys ->
       key ∈ keys -> prop o key = VProp d ->
       (isCacheable d = true -> kvo_cacheable (initObservable o) = true)
       /\ (forall dep, dep ∈ dependentKeys d ->
             reaches (dependents_of (initObservable o)) dep key).
Proof.
  rewrite (initObservable_unfold o).
  destruct (hub_observableInited o) eqn:Hinit; [done|].
  destruct (hub_properties o) as [keys|] eqn:Hkeys; [|done].
  destruct (init_fold_facts keys (with_inited true o))
    as (Hp & Hi & Ho & _ & Htr & _ & _ & Hnew).
  destruct (init_fold_frame keys (with_inited true o)) as (Hs & Hl & Hc & Hk & Hr).
  cbn zeta in *. rewrite Hi.
  split; [done|]. split; [done|].
  intros keys' key d _ [= <-] Hin Hd.
  destruct (Hnew key d Hin Hd) as [Hcb Hreg]. split; [done|].
  intros dep Hdep. specialize (Hreg dep Hdep).
  set (m' := dependents_of _) in *.
  destruct (m' !! dep) as [l|] eqn:Hl'; [|by apply elem_of_nil in Hreg].
  exact (reaches_step m' dep l key key Hl' Hreg (reaches_here m' key)).
Qed.

Lemma initObservable_again o : initObservable (initObservable o) = initObservable o.
Proof.
  rewrite (initObservable_unfold (initObservable o)).
  by destruct (initObservable_facts o) as (-> & _).
Qed.





